(** * MOOGme: grid interpolation, outlier handling and the EW driver

    A shallow embedding of [interpolation.py], [ewDriver.py] and
    [runmoog.py].  Python floats are embedded as exact rationals ([Q]);
    equality of numeric results is therefore stated with [==].  Python
    exceptions are embedded in the error monad [res]. *)

From Stdlib Require Reals Qreals Lra.
From Stdlib Require Import ZArith QArith Qabs Qround Lia Lqa DecimalString.
From Stdlib Require Import String Ascii List Permutation.
From stdpp Require Import base option list strings gmap.
Import ListNotations.

Local Open Scope Q_scope.

(** ** Exceptions and the error monad *)

Inductive exn : Set :=
| IndexError | KeyError | ValueError | ZeroDivisionError | TypeError
| NameError | IOError
| OutOfFuel   (* not a Python exception: a [while] loop was cut off by
                 the iteration bound of the embedding *)
| NotEmbedded (* behaviour of a library left outside this embedding:
                   numpy.polyfit on rank-deficient samples (it warns and
                   returns a minimum-norm solution) *).

Inductive res (A : Type) : Type :=
| Ok (a : A)
| Raise (e : exn).
Arguments Ok {A} a.
Arguments Raise {A} e.

#[global] Instance res_ret : MRet res := fun A a => Ok a.
#[global] Instance res_bind : MBind res := fun A B f m =>
  match m with Ok a => f a | Raise e => Raise e end.

Definition is_Ok {A} (r : res A) : Prop := exists a, r = Ok a.

(** [for x in l: ...] with a body that may raise. *)
Fixpoint for_each {A B} (f : A -> res B) (l : list A) : res (list B) :=
  match l with
  | [] => Ok []
  | x :: l' => y ← f x; ys ← for_each f l'; Ok (y :: ys)
  end.

(** ** Python builtins on numbers *)

(** [min(l)]: raises [ValueError] on an empty sequence. *)
Definition py_min (l : list nat) : res nat :=
  match l with
  | [] => Raise ValueError
  | x :: l' => Ok (fold_left Nat.min l' x)
  end.

(** True division (the modules use [from __future__ import division]). *)
Definition py_div (a b : Q) : res Q :=
  if Qeq_bool b 0 then Raise ZeroDivisionError else Ok (a / b).

(** ** Python builtins on strings *)

Definition chars (s : string) : list ascii := list_ascii_of_string s.
Definition text (l : list ascii) : string := string_of_list_ascii l.

(** [s.startswith(p)] *)
Definition startswith (s p : string) : bool := String.prefix p s.

(** [sub in s] *)
Fixpoint contains (sub s : string) : bool :=
  String.prefix sub s ||
  match s with
  | EmptyString => false
  | String _ s' => contains sub s'
  end.

(** [s.replace(old, new)], scanning left to right without overlap;
    [skip] counts the characters of a match still to be dropped. *)
Fixpoint replace_from (old new : string) (skip : nat) (s : string) : string :=
  match s with
  | EmptyString => EmptyString
  | String c s' =>
      match skip with
      | S n => replace_from old new n s'
      | O =>
          if String.prefix old s
          then new ++ replace_from old new (String.length old - 1) s'
          else String c (replace_from old new 0 s')
      end
  end.

Fixpoint intersperse (new s : string) : string :=
  match s with
  | EmptyString => new
  | String c s' => new ++ String c (intersperse new s')
  end.

Definition replace (s old new : string) : string :=
  match old with
  | EmptyString => intersperse new s
  | _ => replace_from old new 0 s
  end.

(** [s.split(sep)] for a one-character separator. *)
Fixpoint split_acc (sep : ascii) (cur : list ascii) (s : list ascii)
  : list string :=
  match s with
  | [] => [text (rev cur)]
  | c :: s' =>
      if Ascii.eqb c sep then text (rev cur) :: split_acc sep [] s'
      else split_acc sep (c :: cur) s'
  end.

Definition split (s : string) (sep : ascii) : list string :=
  split_acc sep [] (chars s).

(** [l[-1]] and [l[0]] of a non-empty list. *)
Definition last_item (l : list string) : string := List.last l EmptyString.
Definition first_item (l : list string) : string := List.hd EmptyString l.

(** [s.rpartition(sep)[2]] (equally [[-1]]): what follows the last [sep],
    the whole of [s] when there is none. *)
Definition rpartition_tail (s : string) (sep : ascii) : string :=
  last_item (split s sep).

(** [s.strip(set)]: drop leading and trailing characters found in [set]. *)
Definition in_set (set : string) (c : ascii) : bool :=
  existsb (Ascii.eqb c) (chars set).

Fixpoint lstrip_chars (set : string) (l : list ascii) : list ascii :=
  match l with
  | [] => []
  | c :: l' => if in_set set c then lstrip_chars set l' else l
  end.

Definition strip (s set : string) : string :=
  text (rev (lstrip_chars set (rev (lstrip_chars set (chars s))))).

(** Slices [s[:n]], [s[-n:]] and the item [s[-n]]. *)
Definition slice_to (s : string) (n : nat) : string :=
  text (firstn n (chars s)).

Definition slice_last (s : string) (n : nat) : string :=
  let l := chars s in text (skipn (List.length l - n) l).

Definition item_from_end (s : string) (n : nat) : res ascii :=
  let l := chars s in
  if (0 <? n)%nat && (n <=? List.length l)%nat
  then match l !! (List.length l - n)%nat with
       | Some c => Ok c
       | None => Raise IndexError
       end
  else Raise IndexError.

(** *** Parsing numbers: [int(s)], [float(s)] *)

Definition digit_of (c : ascii) : option Z :=
  let n := Z.of_nat (nat_of_ascii c) in
  if (48 <=? n)%Z && (n <=? 57)%Z then Some (n - 48)%Z else None.

Fixpoint digits_value (acc : Z) (l : list ascii) : option Z :=
  match l with
  | [] => Some acc
  | c :: l' =>
      match digit_of c with
      | Some d => digits_value (10 * acc + d)%Z l'
      | None => None
      end
  end.

Definition whitespace : string :=
  String " " (String "009" (String "010" (String "011" (String "012"
    (String "013" EmptyString))))).

(** Optional sign followed by the rest. *)
Definition split_sign (l : list ascii) : bool * list ascii :=
  match l with
  | "-"%char :: l' => (true, l')
  | "+"%char :: l' => (false, l')
  | _ => (false, l)
  end.

Definition signed (neg : bool) (z : Z) : Z := if neg then (- z)%Z else z.

(** [int(s)] on decimal text: surrounding white space, an optional sign,
    one or more digits. *)
Definition py_int (s : string) : res Z :=
  let '(neg, body) := split_sign (chars (strip s whitespace)) in
  match body with
  | [] => Raise ValueError
  | _ => match digits_value 0 body with
         | Some z => Ok (signed neg z)
         | None => Raise ValueError
         end
  end.

(** Split a list at the first character satisfying [p]. *)
Fixpoint break_at (p : ascii -> bool) (l : list ascii)
  : list ascii * option (list ascii) :=
  match l with
  | [] => ([], None)
  | c :: l' =>
      if p c then ([], Some l')
      else let '(a, b) := break_at p l' in (c :: a, b)
  end.

Definition pow10 (e : Z) : Q :=
  if (0 <=? e)%Z then inject_Z (10 ^ e) else / inject_Z (10 ^ (- e)).

(** [float(s)] on decimal text: surrounding white space, an optional sign,
    digits with an optional fraction, an optional exponent.  The special
    values [inf] and [nan] have no rational counterpart and are not
    accepted here. *)
Definition py_float (s : string) : res Q :=
  let '(neg, body) := split_sign (chars (strip s whitespace)) in
  let '(mant, expo) :=
    break_at (fun c => Ascii.eqb c "e" || Ascii.eqb c "E") body in
  let '(ipart, fpart) := break_at (fun c => Ascii.eqb c ".") mant in
  let fdigits := match fpart with Some f => f | None => [] end in
  match ipart ++ fdigits with
  | [] => Raise ValueError
  | ds =>
      match digits_value 0 ds with
      | None => Raise ValueError
      | Some m =>
          let scale := (- Z.of_nat (List.length fdigits))%Z in
          match expo with
          | None => Ok (inject_Z (signed neg m) * pow10 scale)
          | Some etxt =>
              let '(eneg, ebody) := split_sign etxt in
              match ebody with
              | [] => Raise ValueError
              | _ => match digits_value 0 ebody with
                     | Some e =>
                         Ok (inject_Z (signed neg m)
                             * pow10 (scale + signed eneg e))
                     | None => Raise ValueError
                     end
              end
          end
      end
  end.

(** *** More splitting *)

(** [s.split(sep)] for a separator of any positive length; [skip] counts
    the characters of a separator still to be dropped. *)
Fixpoint split_from (sep : string) (skip : nat) (cur : list ascii)
    (s : string) : list string :=
  match s with
  | EmptyString => [text (rev cur)]
  | String c s' =>
      match skip with
      | S n => split_from sep n cur s'
      | O =>
          if String.prefix sep s
          then text (rev cur) :: split_from sep (String.length sep - 1) [] s'
          else split_from sep 0 (c :: cur) s'
      end
  end.

Definition split_on (s sep : string) : list string := split_from sep 0 [] s.

(** [filter(None, l)] on strings: drop the empty ones. *)
Definition nonempty (l : list string) : list string :=
  List.filter (fun t => negb (String.eqb t EmptyString)) l.

(** [s.split()]: the maximal runs of non-blank characters. *)
Fixpoint words_acc (cur : list ascii) (s : list ascii) : list string :=
  match s with
  | [] => match cur with [] => [] | _ => [text (rev cur)] end
  | c :: s' =>
      if in_set whitespace c
      then match cur with
           | [] => words_acc [] s'
           | _ => text (rev cur) :: words_acc [] s'
           end
      else words_acc (c :: cur) s'
  end.

Definition words (s : string) : list string := words_acc [] (chars s).

(** *** Printing numbers: [round(x, n)], [str(x)] *)

(** [round(x, n)] of Python 2: to [n] decimals, halves away from zero.
    The code rounds a double, here the number itself is rounded: the two
    agree except where the number lies half-way between two neighbours
    with [n] decimals (or within the error of its double), where the
    double may fall on either side and the code may return the other
    neighbour. *)
Definition py_round (x : Q) (n : nat) : Q :=
  let scale := inject_Z (10 ^ Z.of_nat n) in
  let m := Qfloor (Qabs x * scale + (1 # 2)) in
  (if Qle_bool 0 x then inject_Z m else - inject_Z m) / scale.

Definition str_Z (z : Z) : string := NilZero.string_of_int (Z.to_int z).

(** Number of decimal digits of a positive integer. *)
Definition ndigits (z : Z) : Z := Z.of_nat (String.length (str_Z z)).

(** [floor(log10 a)] for [a > 0]. *)
Definition floor_log10 (a : Q) : Z :=
  let e := (ndigits (Qnum a) - ndigits (Zpos (Qden a)))%Z in
  if Qle_bool (pow10 e) a then e else (e - 1)%Z.

(** Nearest integer, exact halves to the even neighbour (the rounding of
    the C library's [printf]). *)
Definition round_half_even (a : Q) : Z :=
  let f := Qfloor a in
  let r := a - inject_Z f in
  if Qeq_bool r (1 # 2) then (if Z.even f then f else f + 1)%Z
  else if Qle_bool r (1 # 2) then f else (f + 1)%Z.

Fixpoint rstrip_zeros_rev (l : list ascii) : list ascii :=
  match l with
  | "0"%char :: l' => rstrip_zeros_rev l'
  | _ => l
  end.

Definition rstrip_zeros (l : list ascii) : list ascii :=
  rev (rstrip_zeros_rev (rev l)).

Definition zeros (n : nat) : list ascii := repeat "0"%char n.

(** [str(x)] of a Python 2 float: the C format [%.12g], with [.0] appended
    when the text would otherwise read as an integer. *)
Definition str_float (x : Q) : string :=
  if Qeq_bool x 0 then "0.0"%string else
  let sign := if Qle_bool 0 x then EmptyString else "-"%string in
  let a := Qabs x in
  let X0 := floor_log10 a in
  let m0 := round_half_even (a * pow10 (11 - X0)) in
  let '(m, X) := if (m0 =? 10 ^ 12)%Z then ((10 ^ 11)%Z, (X0 + 1)%Z)
                 else (m0, X0) in
  let ds := chars (str_Z m) in
  if ((-4 <=? X) && (X <? 12))%Z then
    if (0 <=? X)%Z then
      let ip := firstn (Z.to_nat (X + 1)) ds in
      let fp := rstrip_zeros (skipn (Z.to_nat (X + 1)) ds) in
      (sign ++ text ip ++ "." ++
         text (match fp with [] => ["0"%char] | _ => fp end))%string
    else
      (sign ++ "0." ++ text (zeros (Z.to_nat (- X - 1)) ++ rstrip_zeros ds))%string
  else
    let fp := rstrip_zeros (skipn 1 ds) in
    let ax := Z.abs X in
    (sign ++ text (firstn 1 ds)
       ++ (match fp with [] => EmptyString | _ => "." ++ text fp end)
       ++ "e" ++ (if (0 <=? X)%Z then "+" else "-")
       ++ (if (ax <? 10)%Z then "0" else EmptyString) ++ str_Z ax)%string.

(** ** numpy two-dimensional arrays *)

Record ndarray : Type := mkarr {
  shape0 : nat;
  shape1 : nat;
  rows : list (list Q)
}.

Definition wf_array (a : ndarray) : Prop :=
  List.length (rows a) = shape0 a /\
  Forall (fun r => List.length r = shape1 a) (rows a).

(** [a[i, j]] for non-negative [i], [j]. *)
Definition getitem (a : ndarray) (i j : nat) : res Q :=
  if (i <? shape0 a)%nat && (j <? shape1 a)%nat then
    match rows a !! i with
    | Some r => match r !! j with Some v => Ok v | None => Raise IndexError end
    | None => Raise IndexError
    end
  else Raise IndexError.

(** [a = np.zeros((layers, columns))] followed by
    [for layer in range(layers): for column in range(columns):
       a[layer, column] = cell(layer, column)].
    Stored values are kept in lowest terms ([Qred v == v]). *)
Definition fill_array (layers columns : nat) (cell : nat -> nat -> res Q)
  : res ndarray :=
  dat ← for_each (fun layer =>
           for_each (fun column => v ← cell layer column; Ok (Qred v))
             (seq 0 columns))
         (seq 0 layers);
  Ok (mkarr layers columns dat).

(** ** numpy: [polyfit], [polyval], [argsort] *)

Definition qsum (l : list Q) : Q := Qred (fold_right Qplus 0 l).

Fixpoint qpow (x : Q) (k : nat) : Q :=
  match k with O => 1 | S k' => x * qpow x k' end.

(** Power sums of the sample: [moment k] is the sum of [x^k], [cross k] the
    sum of [x^k * y]. *)
Definition moment (k : nat) (pts : list (Q * Q)) : Q :=
  qsum (map (fun p => qpow (fst p) k) pts).

Definition cross (k : nat) (pts : list (Q * Q)) : Q :=
  qsum (map (fun p => qpow (fst p) k * snd p) pts).

Definition det2 (a b c d : Q) : Q := a * d - b * c.

Definition det3 (a b c d e f g h i : Q) : Q :=
  a * det2 e f h i - b * det2 d f g i + c * det2 d e g h.

(** The power sums a fit of degree at most two needs. *)
Record sums : Type := mksums {
  S0 : Q; S1 : Q; S2 : Q; S3 : Q; S4 : Q;
  T0 : Q; T1 : Q; T2 : Q
}.

Definition sums_of (pts : list (Q * Q)) : sums :=
  mksums (moment 0 pts) (moment 1 pts) (moment 2 pts) (moment 3 pts)
         (moment 4 pts) (cross 0 pts) (cross 1 pts) (cross 2 pts).

(** Determinant of the normal equations of the degree-[deg] least-squares
    problem (unknowns ordered from the highest power down). *)
Definition normal_det (deg : nat) (s : sums) : Q :=
  match deg with
  | 1%nat => det2 (S2 s) (S1 s)
                  (S1 s) (S0 s)
  | 2%nat => det3 (S4 s) (S3 s) (S2 s)
                  (S3 s) (S2 s) (S1 s)
                  (S2 s) (S1 s) (S0 s)
  | _ => 0
  end.

(** Solution of the normal equations by Cramer's rule, highest power
    first. *)
Definition lsq_coeffs (deg : nat) (s : sums) : list Q :=
  let D := normal_det deg s in
  match deg with
  | 1%nat => [ det2 (T1 s) (S1 s)
                    (T0 s) (S0 s) / D ;
               det2 (S2 s) (T1 s)
                    (S1 s) (T0 s) / D ]
  | 2%nat => [ det3 (T2 s) (S3 s) (S2 s)
                    (T1 s) (S2 s) (S1 s)
                    (T0 s) (S1 s) (S0 s) / D ;
               det3 (S4 s) (T2 s) (S2 s)
                    (S3 s) (T1 s) (S1 s)
                    (S2 s) (T0 s) (S0 s) / D ;
               det3 (S4 s) (S3 s) (T2 s)
                    (S3 s) (S2 s) (T1 s)
                    (S2 s) (S1 s) (T0 s) / D ]
  | _ => []
  end.

(** [np.polyfit(x, y, deg)] for the degrees 1 and 2 the module asks for:
    the least-squares polynomial, coefficients from the highest power down.
    Empty or mismatched samples raise [TypeError]. *)
Definition polyfit (x y : list Q) (deg : nat) : res (list Q) :=
  match x with
  | [] => Raise TypeError
  | _ =>
      if negb (List.length x =? List.length y)%nat then Raise TypeError
      else
        let s := sums_of (combine x y) in
        if Qeq_bool (normal_det deg s) 0 then Raise NotEmbedded
        else Ok (lsq_coeffs deg s)
  end.

(** [np.polyval(p, x)]: Horner's rule. *)
Definition polyval (p : list Q) (x : Q) : Q :=
  fold_left (fun acc c => acc * x + c) p 0.

(** [idx = np.argsort(dist); dist = dist[idx]; params = params[idx]]:
    the pairs ordered by increasing distance. *)
Fixpoint insert_by_dist (p : Q * Q) (l : list (Q * Q)) : list (Q * Q) :=
  match l with
  | [] => [p]
  | q :: l' =>
      if Qle_bool (fst p) (fst q) then p :: l
      else q :: insert_by_dist p l'
  end.

Definition sort_by_dist (l : list (Q * Q)) : list (Q * Q) :=
  fold_right insert_by_dist [] l.

(** ** interpolation.py *)

Module interpolation.

(** [scipy.ndimage.map_coordinates(tlayer, coord, order=1)] on an array of
    shape (2, 2, 2), flattened in C order ([np.unravel_index]), at the single
    point [(c1, c2, c3)].  With the default [mode='constant', cval=0.0] a
    point outside the array gets [cval]; inside, order 1 is the multilinear
    blend of the eight corners. *)
Definition weight (c : Q) (i : nat) : Q :=
  match i with O => 1 - c | _ => c end.

Definition inside (c : Q) : bool := Qle_bool 0 c && Qle_bool c 1.

Definition unravel_index (cntr : nat) : nat * nat * nat :=
  (cntr / 4, (cntr / 2) mod 2, cntr mod 2)%nat.

Definition corner_term (c1 c2 c3 : Q) (cntr : nat) (v : Q) : Q :=
  let '(i, j, k) := unravel_index cntr in
  weight c1 i * weight c2 j * weight c3 k * v.

Fixpoint blend (c1 c2 c3 : Q) (cntr : nat) (tlayer : list Q) : Q :=
  match tlayer with
  | [] => 0
  | v :: t => corner_term c1 c2 c3 cntr v + blend c1 c2 c3 (S cntr) t
  end.

Definition map_coordinates (tlayer : list Q) (c1 c2 c3 : Q) : Q :=
  if inside c1 && inside c2 && inside c3
  then blend c1 c2 c3 0 tlayer
  else 0.

Section WithFiles.

(** [read_model fname]: the layer table of the gzipped grid file [fname].
    (The optical-depth scale it also returns is computed but never used by
    the interpolators.) *)
Variable read_model : string -> res ndarray.

(** [interpolator(mnames, teff, logg, feh)]; each of [teff], [logg], [feh]
    is the pair (requested value, (low bracket, high bracket)). *)
Definition interpolator (mnames : list string)
    (teff logg feh : Q * (Q * Q)) : res ndarray :=
  let '(teff, (tefflow, teffhigh)) := teff in
  let '(logg, (logglow, logghigh)) := logg in
  let '(feh, (fehlow, fehhigh)) := feh in
  let N := (2 * 2 * 2)%nat in
  models ← for_each read_model mnames;
  c1 ← py_div (teff - tefflow) (teffhigh - tefflow);
  c2 ← py_div (logg - logglow) (logghigh - logglow);
  c3 ← py_div (feh - fehlow) (fehhigh - fehlow);
  layers ← py_min (map shape0 models);
  columns ← py_min (map shape1 models);
  fill_array layers columns (fun layer column =>
    tlayer ← for_each (fun cntr =>
      match models !! cntr with
      | Some m => getitem m layer column
      | None => Raise IndexError
      end) (seq 0 N);
    Ok (map_coordinates tlayer c1 c2 c3)).

End WithFiles.

(** *** The extended interpolator *)

(** A Python dict keyed by file names; [keys], [values] and [iteritems]
    enumerate it in one (unspecified but fixed) order.  The interpreter
    follows its hash table, the embedding the encoding of the keys: the
    two orders need not agree.  The values computed do not depend on the
    order; the one thing that does is which key [_interpol] takes for
    the name of its table. *)
Abbreviation dict := (gmap string ndarray).

Definition keys (d : dict) : list string := map fst (map_to_list d).
Definition values (d : dict) : list ndarray := map snd (map_to_list d).

(** [l[0]] *)
Definition item0 {A} (l : list A) : res A :=
  match l with x :: _ => Ok x | [] => Raise IndexError end.

(** The grid coordinate [kv] that [_interpol] reads off a key. *)
Definition key_value (kind k : string) : res Q :=
  if String.eqb kind "teff" then
    z ← py_int (first_item (split k "g")); Ok (inject_Z z)
  else if String.eqb kind "logg" then
    f ← py_float (slice_to k 2); Ok (f / 10)
  else
    c ← item_from_end k 3;
    f ← py_float (slice_last k 2);
    if Ascii.eqb c "p" then Ok (f / 10) else Ok (- f / 10).

(** [_interpol(models, param, kind, layers, columns)] *)
Definition _interpol (models : dict) (param : Q) (kind : string)
    (layers columns : nat) : res dict :=
  let items := map_to_list models in
  let N := List.length items in
  newatm ← fill_array layers columns (fun layer column =>
    pts ← for_each (fun kv : string * ndarray =>
             let (k, v) := kv in
             kv ← key_value kind k;
             p ← getitem v layer column;
             Ok (kv - param, p)) items;
    let pts := sort_by_dist pts in
    p ← polyfit (map fst pts) (map snd pts) (if (2 <? N)%nat then 2 else 1);
    Ok (polyval p 0));
  (* [k] is the loop variable left over from the last cell: the last key
     of the enumeration, whichever that is *)
  match (if (0 <? layers)%nat && (0 <? columns)%nat
         then List.last (map Some (map fst items)) None else None) with
  | None => Raise NameError
  | Some k =>
      let name := if String.eqb kind "teff"
                  then last_item (split (strip k ".gz") "g") else k in
      Ok {[ name := newatm ]}
  end.

(** One branch of the test that sorts a model into [models_t1..4]. *)
Definition has_logg (logg : Q) (model : string) : bool :=
  contains ("g" ++ replace (str_float logg) "." EmptyString) model.

Definition has_feh (feh : Q) (model : string) : bool :=
  contains (replace (replace (str_float feh) "." EmptyString) "-" EmptyString ++ ".") model.

(** [L1.keys()[0][-3:] == t.keys()[0][-3:]], then the insertion into [L1]
    or [L2]. *)
Definition file_under (L : dict * dict) (t : dict) : res (dict * dict) :=
  let (L1, L2) := L in
  k1 ← item0 (keys L1);
  kt ← item0 (keys t);
  vt ← item0 (values t);
  if String.eqb (slice_last k1 3) (slice_last kt 3)
  then Ok (<[kt := vt]> L1, L2)
  else Ok (L1, <[kt := vt]> L2).

Section WithFilesN7.

Variable read_model : string -> res ndarray.

(** [models[mname.rpartition('/')[2]] = read_model(mname)[0]] for each
    name in turn. *)
Fixpoint load_models (mnames : list string) (models : dict) : res dict :=
  match mnames with
  | [] => Ok models
  | mname :: rest =>
      tatm ← read_model mname;
      load_models rest (<[rpartition_tail mname "/" := tatm]> models)
  end.

(** The four dictionaries [models_t1 .. models_t4]. *)
Definition sort_models (models : dict) (logg1 logg2 feh1 feh2 : Q)
  : dict * dict * dict * dict :=
  fold_left (fun (acc : dict * dict * dict * dict) (model : string) =>
    let '(m1, m2, m3, m4) := acc in
    match models !! model with
    | None => acc
    | Some v =>
        if has_logg logg1 model && has_feh feh1 model
        then (<[model := v]> m1, m2, m3, m4)
        else if has_logg logg1 model && has_feh feh2 model
        then (m1, <[model := v]> m2, m3, m4)
        else if has_logg logg2 model && has_feh feh1 model
        then (m1, m2, <[model := v]> m3, m4)
        else if has_logg logg2 model && has_feh feh2 model
        then (m1, m2, m3, <[model := v]> m4)
        else acc
    end) (keys models) (∅, ∅, ∅, ∅).

(** The state of [interpolatorN7] after its first collapse: the tables
    [t1 .. t4] and the common shape. *)
Definition first_collapse (mnames : list string)
    (teff : Q * (Q * Q * Q * Q)) (logg feh : Q * (Q * Q))
  : res (dict * dict * dict * dict * nat * nat) :=
  let '(teff, _) := teff in
  let '(logg, (logg1, logg2)) := logg in
  let '(feh, (feh1, feh2)) := feh in
  models ← load_models mnames ∅;
  layers ← py_min (map shape0 (values models));
  columns ← py_min (map shape1 (values models));
  let '(models_t1, models_t2, models_t3, models_t4) :=
    sort_models models logg1 logg2 feh1 feh2 in
  t1 ← _interpol models_t1 teff "teff" layers columns;
  t2 ← _interpol models_t2 teff "teff" layers columns;
  t3 ← _interpol models_t3 teff "teff" layers columns;
  t4 ← _interpol models_t4 teff "teff" layers columns;
  Ok (t1, t2, t3, t4, layers, columns).

(** ... after its second collapse: the dictionary [M]. *)
Definition second_collapse (mnames : list string)
    (teff : Q * (Q * Q * Q * Q)) (logg feh : Q * (Q * Q))
  : res (dict * nat * nat) :=
  '(t1, t2, t3, t4, layers, columns) ← first_collapse mnames teff logg feh;
  L ← file_under (t1, ∅) t2;
  L ← file_under L t3;
  '(L1, L2) ← file_under L t4;
  l1 ← _interpol L1 (fst logg) "logg" layers columns;
  l2 ← _interpol L2 (fst logg) "logg" layers columns;
  (* [M = l1; M.update(l2)] *)
  Ok (l2 ∪ l1, layers, columns).

(** [interpolatorN7(mnames, teff, logg, feh)]: [teff] carries the requested
    value and four grid values, [logg] and [feh] the requested value and
    two. *)
Definition interpolatorN7 (mnames : list string)
    (teff : Q * (Q * Q * Q * Q)) (logg feh : Q * (Q * Q)) : res ndarray :=
  '(M, layers, columns) ← second_collapse mnames teff logg feh;
  newatm ← _interpol M (fst feh) "feh" layers columns;
  item0 (values newatm).

End WithFilesN7.

End interpolation.

(** ** Files *)

(** The working directory: file name to lines (each line with its
    terminator). *)
Abbreviation fs := (gmap string (list string)).

(** [open(fname, 'r')] *)
Definition read_lines (fname : string) (w : fs) : res (list string) :=
  match w !! fname with
  | Some lines => Ok lines
  | None => Raise IOError
  end.

(** [shutil.copyfile(src, dst)] *)
Definition copyfile (src dst : string) (w : fs) : res fs :=
  lines ← read_lines src w; Ok (<[dst := lines]> w).

(** [os.remove(fname)]; [OSError] is rendered as [IOError]. *)
Definition os_remove (fname : string) (w : fs) : res fs :=
  match w !! fname with
  | Some _ => Ok (delete fname w)
  | None => Raise IOError
  end.

(** [seq[i]] for a non-negative index. *)
Definition item {A} (l : list A) (i : nat) : res A :=
  match l !! i with Some x => Ok x | None => Raise IndexError end.

(** ** runmoog.py *)

Module runmoog.

(** The number that follows [key] on a report line:
    [float(filter(None, line.split(key)[1].split(' '))[0])]. *)
Definition number_after (line key : string) : res Q :=
  rest ← item (split_on line key) 1;
  tok ← item (nonempty (split_on rest " ")) 0;
  py_float tok.

(** [_read_moog(fname)] on the lines of the report. *)
Fixpoint scan_report (lines : list string)
    (EP_slopes RW_slopes abundances : list Q)
  : res (list Q * list Q * list Q) :=
  match lines with
  | [] => Ok (EP_slopes, RW_slopes, abundances)
  | line :: rest =>
      if startswith line "E.P" then
        v ← number_after line "slope =";
        scan_report rest (EP_slopes ++ [v]) RW_slopes abundances
      else if startswith line "R.W" then
        v ← number_after line "slope =";
        scan_report rest EP_slopes (RW_slopes ++ [v]) abundances
      else if startswith line "average abundance" then
        v ← number_after line "abundance =";
        scan_report rest EP_slopes RW_slopes (abundances ++ [v])
      else scan_report rest EP_slopes RW_slopes abundances
  end.

Definition _read_moog (fname : string) (w : fs)
  : res (list Q * list Q * list Q) :=
  lines ← read_lines fname w;
  scan_report lines [] [] [].

Section WithEngine.

(** Collaborators of [fun_moog] that live outside the module:
    [_get_model] locates the bracketing grid files, [read_model] reads one,
    [save_model] writes the interpolated deck, and [MOOGSILENT] is the
    external engine, which rewrites the report. *)
Variable _get_model :
  Q -> Q -> Q -> res (list string * (Q * Q) * (Q * Q) * (Q * Q)).
Variable read_model : string -> res ndarray.
Variable save_model : ndarray -> Q * Q * Q * Q -> fs -> res fs.
Variable MOOGSILENT : fs -> fs.

(** [_run_moog(par)] *)
Definition _run_moog (par : string) (w : fs) : fs := MOOGSILENT w.

(** Everything [fun_moog] does up to and including the parse of the
    report. *)
Definition engine_report (x : Q * Q * Q * Q) (par results : string) (w : fs)
  : res (list Q * list Q * list Q) :=
  let '(teff, logg, feh, vt) := x in
  let teff := teff * 10 in
  let x := (teff, logg, feh, vt) in
  '(models, nt, nl, nf) ← _get_model teff logg feh;
  model ← interpolation.interpolator read_model models
             (teff, nt) (logg, nl) (feh, nf);
  w ← save_model model x w;
  _read_moog results (_run_moog par w).

(** [fun_moog(x, par, results, fix_logg)]; [None] is Python's [None], the
    value of a call that falls off the end of the function. *)
Definition fun_moog (x : Q * Q * Q * Q) (par results : string)
    (fix_logg : bool) (w : fs) : res (option Q) :=
  '(EPs, RWs, abundances) ← engine_report x par results w;
  if (List.length abundances =? 2)%nat then
    EP0 ← item EPs 0;
    RW0 ← item RWs 0;
    if fix_logg then
      Ok (Some (5 * qpow (qpow (3.5 * EP0) 2 + qpow (1.3 * RW0) 2) 2))
    else
      a0 ← item abundances 0;
      a1 ← item abundances 1;
      Ok (Some (5 * qpow (qpow (3.5 * EP0) 2 + qpow (1.3 * RW0) 2
                          + (a1 - a0)) 2))
  else Ok None.

End WithEngine.
End runmoog.

(** [a < b] on floats. *)
Definition lt_float (a b : Q) : bool := negb (Qle_bool b a).

(** ** numpy statistics and text input *)

(** [np.mean(v)]; numpy gives [nan] for an empty vector, which the code
    below never compares with anything, so any value serves. *)
Definition np_mean (v : list Q) : Q :=
  match v with
  | [] => 0
  | _ => qsum v / inject_Z (Z.of_nat (List.length v))
  end.

(** The square of [np.std(v)] (population variance). *)
Definition np_var (v : list Q) : Q :=
  let m := np_mean v in np_mean (map (fun x => qpow (x - m) 2) v).

(** [dev >= n * np.std(v)], decided without the square root: for [n < 0]
    the right-hand side is not positive; otherwise both sides are squared.
    [dev] is an absolute value. *)
Definition ge_n_std (dev n : Q) (v : list Q) : bool :=
  if Qle_bool 0 n then Qle_bool (n * n * np_var v) (dev * dev) else true.

(** [a[:, j]] *)
Definition column (a : ndarray) (j : nat) : res (list Q) :=
  if (j <? shape1 a)%nat then for_each (fun r => item r j) (rows a)
  else Raise IndexError.

(** [np.loadtxt(fname, skiprows=k)], flattened: comments and blank lines
    are dropped, every remaining field is read as a float. *)
Definition uncomment (line : string) : string :=
  first_item (split line "#").

Definition loadtxt_rows (fname : string) (skiprows : nat) (w : fs)
  : res (list (list Q)) :=
  lines ← read_lines fname w;
  for_each (fun line => for_each py_float (words line))
    (List.filter (fun line => negb (Nat.eqb (List.length (words line)) 0))
       (map uncomment (skipn skiprows lines))).

Definition loadtxt (fname : string) (skiprows : nat) (w : fs)
  : res (list Q) :=
  rws ← loadtxt_rows fname skiprows w; Ok (concat rws).

(** [np.loadtxt(fname, skiprows=k, usecols=(0,))] *)
Definition loadtxt_col0 (fname : string) (skiprows : nat) (w : fs)
  : res (list Q) :=
  rws ← loadtxt_rows fname skiprows w;
  for_each (fun r => item r 0) rws.

(** [np.in1d(ll, d)] *)
Definition in1d (ll d : list Q) : list bool :=
  map (fun x => existsb (Qeq_bool x) d) ll.

(** [ll[mask]] *)
Definition masked (ll : list Q) (mask : list bool) : list Q :=
  map fst (List.filter snd (combine ll mask)).

(** ** ewDriver.py *)

Module ewDriver.

(** A dict with float keys, in insertion order; keys are compared with
    [==] as Python compares floats.  The empty dict stands for every falsy
    report ([False] included). *)
Definition report := list (Q * Q).

Fixpoint setitem (d : report) (k v : Q) : report :=
  match d with
  | [] => [(k, v)]
  | (k', v') :: d' =>
      if Qeq_bool k' k then (k', v) :: d' else (k', v') :: setitem d' k v
  end.

Fixpoint getitem_report (d : report) (k : Q) : res Q :=
  match d with
  | [] => Raise KeyError
  | (k', v) :: d' => if Qeq_bool k' k then Ok v else getitem_report d' k
  end.

(** [max(d.keys())] *)
Definition max_key (d : report) : res Q :=
  match map fst d with
  | [] => Raise ValueError
  | k :: ks => Ok (fold_left (fun a b => if Qle_bool a b then b else a) ks k)
  end.

(** The option dictionary of [_options], with the [GUI] key that
    [ewdriver] adds, typed as the defaults and the flags leave it: the
    thresholds and [sigma] are numbers and the switches are booleans.  A
    [key:value] setting of [sigma] or of a switch stores text instead
    (see [ewDriver_config._options]); such dictionaries are outside this
    record. *)
Record options : Type := mkoptions {
  spt : option string;
  weights : string;
  model : string;
  fix_teff : bool;
  fix_logg : bool;
  fix_feh : bool;
  fix_vt : bool;
  refine : bool;
  iterations : Z;
  EPcrit : Q;
  RWcrit : Q;
  ABdiffcrit : Q;
  MOOGv : Z;
  outlier : option string;
  teffrange : bool;
  autofixvt : bool;
  tmcalc : bool;
  sigma : Q;
  GUI : bool
}.

Definition defaults : options :=
  {| spt := None; weights := "null"; model := "kurucz95";
     fix_teff := false; fix_logg := false; fix_feh := false;
     fix_vt := false; refine := false; iterations := 160;
     EPcrit := 0.001; RWcrit := 0.003; ABdiffcrit := 0.01;
     MOOGv := 2014; outlier := None; teffrange := false;
     autofixvt := false; tmcalc := false; sigma := 3; GUI := false |}.

Definition set_GUI (o : options) (b : bool) : options :=
  {| spt := spt o; weights := weights o; model := model o;
     fix_teff := fix_teff o; fix_logg := fix_logg o; fix_feh := fix_feh o;
     fix_vt := fix_vt o; refine := refine o; iterations := iterations o;
     EPcrit := EPcrit o; RWcrit := RWcrit o; ABdiffcrit := ABdiffcrit o;
     MOOGv := MOOGv o; outlier := outlier o; teffrange := teffrange o;
     autofixvt := autofixvt o; tmcalc := tmcalc o; sigma := sigma o;
     GUI := b |}.

Definition set_fix_vt (o : options) (b : bool) : options :=
  {| spt := spt o; weights := weights o; model := model o;
     fix_teff := fix_teff o; fix_logg := fix_logg o; fix_feh := fix_feh o;
     fix_vt := b; refine := refine o; iterations := iterations o;
     EPcrit := EPcrit o; RWcrit := RWcrit o; ABdiffcrit := ABdiffcrit o;
     MOOGv := MOOGv o; outlier := outlier o; teffrange := teffrange o;
     autofixvt := autofixvt o; tmcalc := tmcalc o; sigma := sigma o;
     GUI := GUI o |}.

Definition set_crit (o : options) (ep rw ab : Q) : options :=
  {| spt := spt o; weights := weights o; model := model o;
     fix_teff := fix_teff o; fix_logg := fix_logg o; fix_feh := fix_feh o;
     fix_vt := fix_vt o; refine := refine o; iterations := iterations o;
     EPcrit := ep; RWcrit := rw; ABdiffcrit := ab;
     MOOGv := MOOGv o; outlier := outlier o; teffrange := teffrange o;
     autofixvt := autofixvt o; tmcalc := tmcalc o; sigma := sigma o;
     GUI := GUI o |}.

(** One line of [results.csv]. *)
Record row : Type := mkrow {
  row_linelist : string;
  row_parameters : list Q;
  row_converged : bool;
  row_options : options
}.

(** What a job can see and change: the files, the rows appended to
    [results.csv], and a ghost count of the solver runs started. *)
Record world : Type := mkworld {
  files : fs;
  results_csv : list row;
  solver_runs : nat
}.

Definition prog (A : Type) : Type := world -> res A * world.

#[global] Instance prog_ret : MRet prog := fun A a w => (Ok a, w).
#[global] Instance prog_bind : MBind prog := fun A B f m w =>
  match m w with
  | (Ok a, w') => f a w'
  | (Raise e, w') => (Raise e, w')
  end.

(** An operation on the files that either fails or replaces them. *)
Definition on_files (f : fs -> res fs) : prog unit := fun w =>
  match f (files w) with
  | Ok w' => (Ok tt, mkworld w' (results_csv w) (solver_runs w))
  | Raise e => (Raise e, w)
  end.

(** A read-only look at the files. *)
Definition from_files {A} (f : fs -> res A) : prog A := fun w =>
  (f (files w), w).

(** A collaborator that returns a value and leaves the files changed even
    when it raises. *)
Definition with_files {A} (f : fs -> res A * fs) : prog A := fun w =>
  let '(r, w') := f (files w) in
  (r, mkworld w' (results_csv w) (solver_runs w)).

(** [try: body except ValueError: ...]: [None] when the handler ran. *)
Definition try_ValueError {A} (body : prog A) : prog (option A) := fun w =>
  match body w with
  | (Ok a, w') => (Ok (Some a), w')
  | (Raise ValueError, w') => (Ok None, w')
  | (Raise e, w') => (Raise e, w')
  end.

(** [removeOutlier(fname, wavelength)] *)
Definition removeOutlier (fname : string) (wavelength : Q) (w : fs) : res fs :=
  let wavelength := str_float (py_round wavelength 2) in
  lines ← read_lines fname w;
  Ok (<[fname :=
         List.filter (fun line =>
           negb (startswith (replace line " " EmptyString) wavelength)) lines]> w).

(** The collection loops of [hasOutlier]:
    [for i, x in enumerate(col): dev = abs(x - m); if dev >= s: d[dev] = fe[i, 0]]. *)
Fixpoint collect (fe : ndarray) (col : list Q) (m n : Q) (i : nat)
    (xs : list Q) (d : report) : res report :=
  match xs with
  | [] => Ok d
  | x :: xs' =>
      let dev := Qabs (x - m) in
      if ge_n_std dev n col then
        wl ← getitem fe i 0;
        collect fe col m n (S i) xs' (setitem d dev wl)
      else collect fe col m n (S i) xs' d
  end.

(** [hasOutlier(MOOGv, n)], given the two tables [fe_statistics()[-2]] and
    [fe_statistics()[-1]] read from the engine's report. *)
Definition hasOutlier_of (fe1 fe2 : ndarray) (MOOGv : Z) (n : Q) : res report :=
  let idx := if (2013 <? MOOGv)%Z then 1%nat else 0%nat in
  c1 ← column fe1 (5 + idx);
  c2 ← column fe2 (5 + idx);
  let m1 := np_mean c1 in
  let m2 := np_mean c2 in
  d ← collect fe1 c1 m1 n 0 c1 [];
  if (10 <? shape0 fe2)%nat then collect fe2 c2 m2 n 0 c2 d
  else Ok d.

(** Code of the package that is not in these modules. *)
Record collaborators : Type := {
  (** [Minimize(parameters, fun_moog, **options).minimize()] *)
  minimize : list Q -> options -> fs -> res (list Q * bool) * fs;
  (** [Readmoog(version).fe_statistics()], its last two components *)
  fe_statistics : Z -> fs -> res (ndarray * ndarray);
  (** [_update_par(line_list=...)] *)
  _update_par : string -> fs -> fs;
  (** [utils.fun_moog(parameters, model, weight=, version=)], its third
      component *)
  fun_moog_RWs : list Q -> options -> fs -> res Q * fs;
  (** [utils.error(linelist, converged, parameters, ...)] *)
  error : string -> bool -> list Q -> options -> fs -> res (list Q);
  (** [interpolator(params=initial, atmtype=model)], the wrapper that
      locates, interpolates and saves *)
  initial_model : list Q -> string -> fs -> res unit * fs;
  (** [np.sqrt] *)
  np_sqrt : Q -> Q
}.

Section WithCollaborators.

Variable ext : collaborators.

Definition hasOutlier (MOOGv : Z) (n : Q) : prog report :=
  from_files (fun w =>
    '(fe1, fe2) ← fe_statistics ext MOOGv w;
    hasOutlier_of fe1 fe2 MOOGv n).

(** [function = Minimize(parameters, fun_moog, **options);
     parameters, converged = function.minimize()] *)
Definition run_minimize (parameters : list Q) (o : options)
  : prog (list Q * bool) := fun w =>
  with_files (minimize ext parameters o)
    (mkworld (files w) (results_csv w) (S (solver_runs w))).

Definition update_par (line_list : string) : prog unit :=
  on_files (fun w => Ok (_update_par ext line_list w)).

Definition tmpll : string := "linelist/tmplinelist.moog".

(** The body shared by the two "one outlier" branches. *)
Definition drop_worst (outliers : report) (parameters : list Q) (o : options)
  : prog (list Q * report) :=
  k ← from_files (fun _ => max_key outliers);
  wavelength ← from_files (fun _ => getitem_report outliers k);
  _ ← on_files (removeOutlier tmpll wavelength);
  '(parameters, converged) ← run_minimize parameters o;
  outliers ← hasOutlier (MOOGv o) (sigma o);
  mret (parameters, outliers).

(** [for wavelength in ...: removeOutlier(fname, wavelength)] *)
Fixpoint remove_each (fname : string) (wavelengths : list Q) : prog unit :=
  match wavelengths with
  | [] => mret tt
  | wl :: rest =>
      _ ← on_files (removeOutlier fname wl); remove_each fname rest
  end.

(** The body shared by the two "all outliers" branches. *)
Definition drop_all (outliers : report) (parameters : list Q) (o : options)
  : prog (list Q * report) :=
  _ ← remove_each tmpll (map snd outliers);
  '(parameters, converged) ← run_minimize parameters o;
  outliers ← hasOutlier (MOOGv o) (sigma o);
  mret (parameters, outliers).

(** [while outliers: body]; the embedding bounds the number of rounds. *)
Fixpoint while_outliers (fuel : nat)
    (body : report -> list Q -> prog (list Q * report))
    (outliers : report) (parameters : list Q) (ran : bool)
  : prog (list Q * bool) :=
  match outliers with
  | [] => mret (parameters, ran)
  | _ =>
      match fuel with
      | O => fun w => (Raise OutOfFuel, w)
      | S fuel' =>
          '(parameters, outliers) ← body outliers parameters;
          while_outliers fuel' body outliers parameters true
      end
  end.

(** [_outlierRunner(type, linelist, parameters, options)] *)
Definition _outlierRunner (fuel : nat) (type linelist : string)
    (parameters : list Q) (o : options) : prog (string * list Q) :=
  _ ← on_files (copyfile ("linelist/" ++ linelist) tmpll);
  _ ← update_par tmpll;
  outliers ← hasOutlier (MOOGv o) (sigma o);
  '(parameters, newLineList) ←
    (if String.eqb type "1Iter" then
       while_outliers fuel (fun d p => drop_worst d p o) outliers parameters false
     else if String.eqb type "1Once" then
       match outliers with
       | [] => mret (parameters, false)
       | _ => '(p, _) ← drop_worst outliers parameters o; mret (p, true)
       end
     else if String.eqb type "allIter" then
       while_outliers fuel (fun d p => drop_all d p o) outliers parameters false
     else if String.eqb type "allOnce" then
       match outliers with
       | [] => mret (parameters, false)
       | _ => '(p, _) ← drop_all outliers parameters o; mret (p, true)
       end
     else mret (parameters, false));
  if newLineList : bool then
    let newName := replace linelist ".moog" "_outlier.moog" in
    _ ← on_files (copyfile tmpll ("linelist/" ++ newName));
    _ ← on_files (os_remove tmpll);
    _ ← update_par ("linelist/" ++ newName);
    mret (newName, parameters)
  else
    _ ← update_par ("linelist/" ++ linelist);
    _ ← on_files (os_remove tmpll);
    mret (linelist, parameters).

(** Lines 541-563 of [ewdriver]: pruning of the lines listed in
    [rawLinelist/coolNormalDiff.lines] when the temperature came out
    low. *)
Definition teffrange_block (fuel : nat) (line0 : string)
    (parameters : list Q) (converged : bool) (o : options)
  : prog (string * list Q * bool) :=
  d ← from_files (loadtxt "rawLinelist/coolNormalDiff.lines" 0);
  ll ← from_files (loadtxt_col0 ("linelist/" ++ line0) 1);
  let normalLL := in1d ll d in
  if existsb id normalLL then
    teff ← from_files (fun _ => item parameters 0);
    if lt_float 7000 teff then mret (line0, parameters, converged)
    else if lt_float teff 5200 then
      _ ← remove_each ("linelist/" ++ line0) (masked ll normalLL);
      r ← try_ValueError (run_minimize parameters o);
      let '(parameters, converged) :=
        match r with
        | Some pc => pc
        | None => (parameters, converged)
        end in
      match outlier o with
      | Some type =>
          '(newName, parameters) ←
            _outlierRunner fuel type line0 parameters o;
          mret (newName, parameters, converged)
      | None => mret (line0, parameters, converged)
      end
    else mret (line0, parameters, converged)
  else mret (line0, parameters, converged).

(** Lines 565-572: one restart with the microturbulence frozen. *)
Definition autofixvt_block (parameters : list Q) (converged : bool)
    (o : options) : prog (list Q * bool * options) :=
  if autofixvt o && negb converged then
    RWs ← with_files (fun_moog_RWs ext parameters o);
    vt ← from_files (fun _ => item parameters (List.length parameters - 1));
    if (lt_float vt 0.05 && lt_float 0.050 (Qabs RWs))
       || (lt_float 9.95 vt && lt_float 0.050 (Qabs RWs))
    then
      let o := set_fix_vt o true in
      '(parameters, converged) ← run_minimize parameters o;
      mret (parameters, converged, o)
    else mret (parameters, converged, o)
  else mret (parameters, converged, o).

(** Lines 575-586: the refine pass. *)
Definition refine_block (parameters : list Q) (converged : bool)
    (o : options) : prog (list Q * options) :=
  if converged && refine o then
    let o := set_crit o (py_round (EPcrit o / 3) 4)
                        (py_round (RWcrit o / 3) 4)
                        (py_round (ABdiffcrit o / 3) 4) in
    '(p1, c) ← run_minimize parameters o;
    if c : bool then mret (p1, o) else mret (parameters, o)
  else mret (parameters, o).

(** [_renaming(linelist, converged)] *)
Definition _renaming (linelist : string) (converged : bool) : prog unit :=
  if converged
  then on_files (copyfile "summary.out" ("results/" ++ linelist ++ ".out"))
  else on_files (copyfile "summary.out" ("results/" ++ linelist ++ ".NC.out")).

(** [_output(parameters=tmp)]: one more line in [results.csv]. *)
Definition _output (r : row) : prog unit := fun w =>
  (Ok tt, mkworld (files w) (results_csv w ++ [r]) (solver_runs w)).

(** Lines 590-601: the uncertainties and the two corrected gravities. *)
Definition final_parameters (line0 : string) (converged : bool)
    (parameters : list Q) (o : options) : prog (list Q) :=
  parameters ← from_files (error ext line0 converged parameters o);
  from_files (fun _ =>
    p0 ← item parameters 0;
    p1 ← item parameters 1;
    p2 ← item parameters 2;
    p3 ← item parameters 3;
    let loggLC := py_round (p2 - 4.57e-4 * p0 + 2.59) 2 in
    let error_loggLC :=
      py_round (np_sqrt ext (qpow (4.57e-4 * p1) 2 + qpow p3 2)) 2 in
    let loggastero := py_round (p2 - 3.89e-4 * p0 + 2.10) 2 in
    let error_loggastero :=
      py_round (np_sqrt ext (qpow (3.89e-4 * p1) 2 + qpow p3 2)) 2 in
    Ok (parameters ++ [loggastero; error_loggastero; loggLC; error_loggLC])).

Definition known_models : list string := ["kurucz95"; "apogee_kurucz"; "marcs"].

(** The body of the loop of [ewdriver] for one configuration line, from
    the check of the model type on; [line0] is the line-list name and
    [initial], [o] are what [_setup] made of the line.  [None]: the loop
    went on to the next line without a result ([continue]). *)
Definition job (fuel : nat) (as_main : bool) (line0 : string)
    (initial : list Q) (o : options) : prog (option row) :=
  if negb (existsb (String.eqb (model o)) known_models) then mret None else
  _ ← with_files (initial_model ext initial (model o));
  let o := set_GUI o (negb as_main) in
  r ← try_ValueError (run_minimize initial o);
  match r with
  | None => mret None
  | Some (parameters, converged) =>
      '(line0, parameters) ←
        match outlier o with
        | Some type => _outlierRunner fuel type line0 parameters o
        | None => mret (line0, parameters)
        end;
      '(line0, parameters, converged) ←
        (if teffrange o
         then teffrange_block fuel line0 parameters converged o
         else mret (line0, parameters, converged));
      '(parameters, converged, o) ← autofixvt_block parameters converged o;
      '(parameters, o) ← refine_block parameters converged o;
      _ ← _renaming line0 converged;
      parameters ← final_parameters line0 converged parameters o;
      let r := mkrow line0 parameters converged o in
      _ ← _output r;
      mret (Some r)
  end.

End WithCollaborators.
End ewDriver.

Import interpolation ewDriver runmoog.

(** ** A scripted engine for concrete runs *)

Module scripted.

(** One line of a line list in the layout [make_linelist] writes
    (wavelength with three decimals, species, excitation potential,
    log gf, equivalent width), followed by two fields the scripted engine
    reads back: a filler and the abundance it reports for the line. *)
Definition moog_line (wavelength species abundance : string) : string :=
  (" " ++ wavelength ++ "      " ++ species
       ++ "     2.50   -1.000                        50.0   0.0   "
       ++ abundance)%string.

Definition header : string := "# linelist/star.moog - SNR: 100".

(** [_update_par(line_list=name)]: the parameter file names the list. *)
Definition update_par (line_list : string) (w : fs) : fs :=
  <["batch.par" := [line_list]]> w.

(** [fe_statistics]: the rows of the line list named in [batch.par], Fe I
    (species 26.0) and Fe II (species 26.1) apart. *)
Definition fe_table (species : Q) (rws : list (list Q)) : ndarray :=
  let sel := List.filter (fun r => match r !! 1%nat with
                                   | Some s => Qeq_bool s species
                                   | None => false
                                   end) rws in
  mkarr (List.length sel) 7 sel.

Definition fe_statistics (MOOGv : Z) (w : fs) : res (ndarray * ndarray) :=
  par ← read_lines "batch.par" w;
  name ← item par 0;
  rws ← loadtxt_rows name 1 w;
  Ok (fe_table 26.0 rws, fe_table 26.1 rws).

(** A solver that accepts its starting point. *)
Definition minimize (parameters : list Q) (o : options) (w : fs)
  : res (list Q * bool) * fs :=
  (Ok (parameters, true), w).

Definition engine : collaborators :=
  {| ewDriver.minimize := minimize;
     ewDriver.fe_statistics := fe_statistics;
     ewDriver._update_par := update_par;
     ewDriver.fun_moog_RWs := fun _ _ w => (Ok 0, w);
     ewDriver.error := fun _ _ p _ _ =>
       Ok (concat (map (fun x => [x; 0]) p));
     ewDriver.initial_model := fun _ _ w => (Ok tt, w);
     ewDriver.np_sqrt := fun x => x |}.

(** Twenty-four unremarkable Fe I lines, ten ångström apart. *)
Definition quiet_lines : list string :=
  map (fun i => moog_line (str_Z (5010 + 10 * Z.of_nat i) ++ ".100") "26.0" "7.50")
      (seq 0 24).

(** A list with exactly one line beyond three sigma (5000.10, at five
    sigma) and a close neighbour of it (5000.15). *)
Definition star_moog : list string :=
  header :: moog_line "5000.100" "26.0" "8.80"
         :: moog_line "5000.150" "26.0" "7.50" :: quiet_lines.

Definition start (linelist : list string) : world :=
  mkworld (<["linelist/star.moog" := linelist]>
           (<["summary.out" := []]>
            (<["rawLinelist/coolNormalDiff.lines" := [" 5010.10"]]>
             (<["batch.par" := ["linelist/star.moog"]]> ∅))))
          [] 0.

End scripted.

(** ** The solver, from the specification *)

Module minimization.

Section Solver.

(** The synthesis adapter: one run of the engine at the given parameters,
    parsed as [_read_moog] parses it (EP slopes, RW slopes, average
    abundances). *)
Variable evaluate : list Q -> fs -> res (list Q * list Q * list Q) * fs.

(** The coordinate-wise update of the free parameters from the residuals
    (EP slope, RW slope, abundance difference). *)
Variable update : options -> list Q -> Q * Q * Q -> list Q.

Definition all_fixed (o : options) : bool :=
  fix_teff o && fix_logg o && fix_feh o && fix_vt o.

Definition below (x crit : Q) : bool := lt_float (Qabs x) crit.

(** Modelled from the spec: [Minimize.minimize] of [minimization.py],
    which is not among the sources.  Each iteration obtains a residual
    vector from the engine.  The run fails for good when the report does
    not hold the average abundance of both ionization stages (the
    [ValueError] that [ewdriver] catches); it has converged when the EP
    slope, the RW slope and the abundance difference are all below their
    thresholds; with every parameter fixed it stops after one evaluation;
    it gives up when the iteration bound is used up. *)
Fixpoint solve (rounds : nat) (parameters : list Q) (o : options) (w : fs)
  : res (list Q * bool) * fs :=
  match evaluate parameters w with
  | (Raise e, w') => (Raise e, w')
  | (Ok (EPs, RWs, abundances), w') =>
      match abundances with
      | [a1; a2] =>
          match EPs, RWs with
          | EP :: _, RW :: _ =>
              if below EP (EPcrit o) && below RW (RWcrit o)
                 && below (a1 - a2) (ABdiffcrit o)
              then (Ok (parameters, true), w')
              else if all_fixed o then (Ok (parameters, false), w')
              else match rounds with
                   | O => (Ok (parameters, false), w')
                   | S rounds' =>
                       solve rounds' (update o parameters (EP, RW, a1 - a2)) o w'
                   end
          | _, _ => (Raise IndexError, w')
          end
      | _ => (Raise ValueError, w')
      end
  end.

Definition minimize (parameters : list Q) (o : options) (w : fs)
  : res (list Q * bool) * fs :=
  solve (Z.to_nat (iterations o)) parameters o w.

End Solver.
End minimization.

(** ** Concrete inputs *)

Definition with_refine (o : options) (b : bool) : options :=
  {| spt := spt o; weights := weights o; model := model o;
     fix_teff := fix_teff o; fix_logg := fix_logg o; fix_feh := fix_feh o;
     fix_vt := fix_vt o; refine := b; iterations := iterations o;
     EPcrit := EPcrit o; RWcrit := RWcrit o; ABdiffcrit := ABdiffcrit o;
     MOOGv := MOOGv o; outlier := outlier o; teffrange := teffrange o;
     autofixvt := autofixvt o; tmcalc := tmcalc o; sigma := sigma o;
     GUI := GUI o |}.

Definition with_teffrange (o : options) (b : bool) : options :=
  {| spt := spt o; weights := weights o; model := model o;
     fix_teff := fix_teff o; fix_logg := fix_logg o; fix_feh := fix_feh o;
     fix_vt := fix_vt o; refine := refine o; iterations := iterations o;
     EPcrit := EPcrit o; RWcrit := RWcrit o; ABdiffcrit := ABdiffcrit o;
     MOOGv := MOOGv o; outlier := outlier o; teffrange := b;
     autofixvt := autofixvt o; tmcalc := tmcalc o; sigma := sigma o;
     GUI := GUI o |}.

(** A list with two lines at the same distance on either side of the
    mean, both beyond three sigma. *)
Definition pair_moog : list string :=
  scripted.header :: scripted.moog_line "5000.100" "26.0" "8.50"
    :: scripted.moog_line "5003.100" "26.0" "6.50" :: scripted.quiet_lines.

(** A cool star's starting point. *)
Definition cool : list Q := [5000; 4.4; 0; 1].

(** An engine report with one average abundance (7.50) for each
    ionization stage of which the line list named in [batch.par] holds a
    line, and no slopes to speak of. *)
Definition staged_report (parameters : list Q) (w : fs)
  : res (list Q * list Q * list Q) * fs :=
  match scripted.fe_statistics 2014 w with
  | Ok (fe1, fe2) =>
      (Ok ([0], [0],
           (if (0 <? shape0 fe1)%nat then [7.50] else [])
           ++ (if (0 <? shape0 fe2)%nat then [7.50] else [])), w)
  | Raise e => (Raise e, w)
  end.

(** The scripted collaborators around the solver of the specification,
    which keeps its starting point. *)
Definition staged_engine : collaborators :=
  {| ewDriver.minimize := minimization.minimize staged_report (fun _ p _ => p);
     ewDriver.fe_statistics := scripted.fe_statistics;
     ewDriver._update_par := scripted.update_par;
     ewDriver.fun_moog_RWs := fun _ _ w => (Ok 0, w);
     ewDriver.error := fun _ _ p _ _ =>
       Ok (concat (map (fun x => [x; 0]) p));
     ewDriver.initial_model := fun _ _ w => (Ok tt, w);
     ewDriver.np_sqrt := fun x => x |}.

(** A list with 23 Fe I lines and one Fe II line, 5010.10, which is
    among the lines of [rawLinelist/coolNormalDiff.lines]. *)
Definition ionized_moog : list string :=
  scripted.header :: scripted.moog_line "5010.100" "26.1" "7.50"
    :: skipn 1 scripted.quiet_lines.

Definition pick (i : nat) (lo hi : Q) : Q := match i with O => lo | _ => hi end.

(** Field-wise equality of power sums. *)
Definition sums_eq (s s' : sums) : Prop :=
  S0 s == S0 s' /\ S1 s == S1 s' /\ S2 s == S2 s' /\ S3 s == S3 s' /\
  S4 s == S4 s' /\ T0 s == T0 s' /\ T1 s == T1 s' /\ T2 s == T2 s'.

(** The value at the target of the least-squares fit through [pts]. *)
Definition fit_at_target (deg : nat) (pts : list (Q * Q)) : Q :=
  polyval (lsq_coeffs deg (sums_of pts)) 0.

(** The determinant of the normal equations only looks at the abscissas. *)
Definition spread (deg : nat) (xs : list Q) : Q :=
  normal_det deg (sums_of (map (fun x => (x, 0)) xs)).

(** The key under which [_interpol] files its table. *)
Definition result_name (kind : string) (items : list (string * ndarray)) : string :=
  match List.last (map Some (map fst items)) None with
  | Some k => if String.eqb kind "teff"
              then last_item (split (strip k ".gz") "g") else k
  | None => EmptyString
  end.

(** The value of [a[l, c]]; 0 stands for an index out of range. *)
Definition cell_value (a : ndarray) (l c : nat) : Q :=
  match getitem a l c with Ok v => v | Raise _ => 0 end.

Definition vdm (a b c : Q) : Q := (a - b) * (a - c) * (b - c).

(** A 4 x 2 x 2 bracket of the Kurucz grid: four temperatures, two
    gravities, two metallicities. *)
Definition grid_names : list string :=
  [ "kurucz95/m05/5000g40.m05.gz"; "kurucz95/m05/5250g40.m05.gz";
    "kurucz95/m05/5500g40.m05.gz"; "kurucz95/m05/5750g40.m05.gz";
    "kurucz95/m05/5000g45.m05.gz"; "kurucz95/m05/5250g45.m05.gz";
    "kurucz95/m05/5500g45.m05.gz"; "kurucz95/m05/5750g45.m05.gz";
    "kurucz95/p00/5000g40.p00.gz"; "kurucz95/p00/5250g40.p00.gz";
    "kurucz95/p00/5500g40.p00.gz"; "kurucz95/p00/5750g40.p00.gz";
    "kurucz95/p00/5000g45.p00.gz"; "kurucz95/p00/5250g45.p00.gz";
    "kurucz95/p00/5500g45.p00.gz"; "kurucz95/p00/5750g45.p00.gz" ]%string.

Definition grid_teff : Q * Q * Q * Q := (5000, 5250, 5500, 5750).
Definition grid_logg : Q * Q := (4.0, 4.5).
Definition grid_feh : Q * Q := (-0.5, 0.0).

(** The dictionary [models] once every file of [names] is read. *)
Definition loaded (src : string -> ndarray) (names : list string)
    (d : gmap string ndarray) : gmap string ndarray :=
  fold_left (fun d n => <[rpartition_tail n "/" := src n]> d) names d.

(** The four files of one (gravity, metallicity) column of the bracket,
    keyed as in [models]. *)
Definition column_items (src : string -> ndarray) (dir suffix : string)
  : list (string * ndarray) :=
  map (fun t => ((t ++ suffix)%string, src (dir ++ t ++ suffix)%string))
      ["5750"; "5500"; "5250"; "5000"]%string.

(** The temperature fit of one column: the cell values of its four files
    against the signed distance of their temperature from the target. *)
Definition teff_fit (teff : Q) (src : string -> ndarray) (l c : nat)
    (dir suffix : string) : Q :=
  fit_at_target 2
    (combine [5750 - teff; 5500 - teff; 5250 - teff; 5000 - teff]
       (map (fun kv : string * ndarray => cell_value (snd kv) l c)
            (column_items src dir suffix))).

(** The gravity fit of one metallicity: the two temperature-collapsed
    values [lo] (logg 4.0) and [hi] (logg 4.5). *)
Definition logg_fit (logg lo hi : Q) : Q :=
  fit_at_target 1 [(4.5 - logg, hi); (4.0 - logg, lo)].

(** The metallicity fit of the two gravity-collapsed values [lo]
    ([Fe/H] -0.5) and [hi] ([Fe/H] 0.0). *)
Definition feh_fit (feh lo hi : Q) : Q :=
  fit_at_target 1 [(-0.5 - feh, lo); (0.0 - feh, hi)].

Definition well_shaped (L C : nat) (a : ndarray) : Prop :=
  wf_array a /\ (L <= shape0 a)%nat /\ (C <= shape1 a)%nat.

(** ** The extended interpolator, as the specification orders it *)

Module as_specified.

(** The filing step when the tables are to be fitted over metallicity:
    tables of one gravity go together (the two leading characters of the
    key are the gravity). *)
Definition file_by_gravity (L : dict * dict) (t : dict) : res (dict * dict) :=
  let (L1, L2) := L in
  k1 ← item0 (keys L1);
  kt ← item0 (keys t);
  vt ← item0 (values t);
  if String.eqb (slice_to k1 2) (slice_to kt 2)
  then Ok (<[kt := vt]> L1, L2)
  else Ok (L1, <[kt := vt]> L2).

(** The specification's order of collapse, "temperature, then
    metallicity, then gravity": after the temperature fit the second
    collapse fits over metallicity and leaves one table per gravity. *)
Definition second_collapse (read_model : string -> res ndarray)
    (mnames : list string)
    (teff : Q * (Q * Q * Q * Q)) (logg feh : Q * (Q * Q))
  : res (dict * nat * nat) :=
  '(t1, t2, t3, t4, layers, columns) ←
     first_collapse read_model mnames teff logg feh;
  L ← file_by_gravity (t1, ∅) t2;
  L ← file_by_gravity L t3;
  '(L1, L2) ← file_by_gravity L t4;
  l1 ← _interpol L1 (fst feh) "feh" layers columns;
  l2 ← _interpol L2 (fst feh) "feh" layers columns;
  Ok (l2 ∪ l1, layers, columns).

(** ... and the third fits over gravity. *)
Definition interpolatorN7 (read_model : string -> res ndarray)
    (mnames : list string)
    (teff : Q * (Q * Q * Q * Q)) (logg feh : Q * (Q * Q)) : res ndarray :=
  '(M, layers, columns) ← second_collapse read_model mnames teff logg feh;
  newatm ← _interpol M (fst logg) "logg" layers columns;
  item0 (values newatm).

End as_specified.

(** One-cell grid files whose value is 1 at logg 4.5 and 0 at logg 4.0,
    whatever the temperature and the metallicity. *)
Definition gravity_only (n : string) : res ndarray :=
  Ok (mkarr 1 1 [[ if contains "g45" n then 1 else 0 ]]).

(** One-cell grid files with distinct values. *)
Definition by_name (n : string) : ndarray :=
  mkarr 1 1 [[ inject_Z (Z.of_nat (String.length n)) ]].

(** Eight files with 2 x 2 tables for the standard interpolator; the
    first cell of file number [i] holds [i]. *)
Definition cube_names : list string :=
  ["c0"; "c1"; "c2"; "c3"; "c4"; "c5"; "c6"; "c7"]%string.

Definition cube_reader (n : string) : res ndarray :=
  z ← py_int (slice_last n 1);
  Ok (mkarr 2 2 [[inject_Z z; 1]; [2; 3]]).

(** A report with both ionization stages. *)
Definition full_report : list string :=
  [ "Abundance Results for Species Fe I";
    "average abundance =   7.47    std. deviation =  0.10    #lines =  100";
    "E.P. correlation:  slope =   0.0012  intercept =   7.456";
    "R.W. correlation:  slope =  -0.0031  intercept =   7.456";
    "Abundance Results for Species Fe II";
    "average abundance =   7.45    std. deviation =  0.10    #lines =   12" ]%string.

Definition cube_models : list ndarray :=
  map (fun z => mkarr 2 2 [[inject_Z z; 1]; [2; 3]]) [0; 1; 2; 3; 4; 5; 6; 7]%Z.

(** The two tables the scripted engine reports for [star_moog]. *)
Definition star_tables : ndarray * ndarray :=
  match scripted.fe_statistics 2014 (files (scripted.start scripted.star_moog)) with
  | Ok t => t
  | Raise _ => (mkarr 0 0 [], mkarr 0 0 [])
  end.

(** A scripted run of [fun_moog]'s collaborators: the bracket is the cube
    above and the engine writes [full_report]. *)
Definition cube_bracket (teff logg feh : Q)
  : res (list string * (Q * Q) * (Q * Q) * (Q * Q)) :=
  Ok (cube_names, (5250, 5500), (4.0, 4.5), (-0.5, 0.0)).

Definition writes_full_report (w : fs) : fs :=
  <["summary.out" := full_report]> w.

(** What the standard interpolator returns on the cube at its corner
    number 5. *)
Definition cube_deck : ndarray := mkarr 2 2 [[5; 1]; [2; 3]].

(** The sixteen files of a bracket of giants: 3750 to 4500 K, logg 0.5
    and 1.0, [Fe/H] -0.5 and 0.0. *)
Definition giant_names : list string :=
  [ "kurucz95/m05/3750g05.m05.gz"; "kurucz95/m05/4000g05.m05.gz";
    "kurucz95/m05/4250g05.m05.gz"; "kurucz95/m05/4500g05.m05.gz";
    "kurucz95/m05/3750g10.m05.gz"; "kurucz95/m05/4000g10.m05.gz";
    "kurucz95/m05/4250g10.m05.gz"; "kurucz95/m05/4500g10.m05.gz";
    "kurucz95/p00/3750g05.p00.gz"; "kurucz95/p00/4000g05.p00.gz";
    "kurucz95/p00/4250g05.p00.gz"; "kurucz95/p00/4500g05.p00.gz";
    "kurucz95/p00/3750g10.p00.gz"; "kurucz95/p00/4000g10.p00.gz";
    "kurucz95/p00/4250g10.p00.gz"; "kurucz95/p00/4500g10.p00.gz" ]%string.

Definition giant_teff : Q * Q * Q * Q := (3750, 4000, 4250, 4500).

(** One-cell grid files that hold the temperature of their name. *)
Definition temperature_file (n : string) : ndarray :=
  match py_int (slice_to (rpartition_tail n "/") 4) with
  | Ok z => mkarr 1 1 [[inject_Z z]]
  | Raise _ => mkarr 1 1 [[0]]
  end.

(** The four groups [models_t1 .. models_t4] of the bracket of giants. *)
Definition giant_groups : dict * dict * dict * dict :=
  sort_models (loaded temperature_file giant_names ∅) 0.5 1.0 (-0.5) 0.0.

(** The values of the tables of a dictionary, names aside. *)
Definition table_values (r : res (dict * nat * nat)) : res (list (list (list Q))) :=
  '(M, _, _) ← r; Ok (map rows (values M)).

(** [k in d] *)
Definition has_key (d : report) (k : Q) : Prop :=
  exists w, getitem_report d k = Ok w.

(** No two entries of the dict have equal keys. *)
Definition distinct_keys (d : report) : Prop :=
  forall i j e1 e2, d !! i = Some e1 -> d !! j = Some e2 ->
    fst e1 == fst e2 -> i = j.

(** Line [i] of the stage with table [fe] and abundances [col] deviates
    from the stage mean by [dev], which is at least [n] standard
    deviations, and has wavelength [wl]. *)
Definition flagged_line (fe : ndarray) (col : list Q) (n : Q) (i : nat)
    (dev wl : Q) : Prop :=
  exists x, col !! i = Some x /\ dev = Qabs (x - np_mean col) /\
            ge_n_std dev n col = true /\ getitem fe i 0 = Ok wl.

(** The abundance column that [hasOutlier] reads for a MOOG version. *)
Definition abundance_column (MOOGv : Z) : nat :=
  (5 + (if (2013 <? MOOGv)%Z then 1 else 0))%nat.

(** A line of the stage at or beyond [n] standard deviations. *)
Definition exceeds (col : list Q) (n : Q) (x : Q) : Prop :=
  ge_n_std (Qabs (x - np_mean col)) n col = true.

(** The lines of a file after a run, when the run returned. *)
Definition file_after {A} (r : res A * world) (name : string)
  : option (list string) :=
  files (snd r) !! name.

(** The report lines that [_read_moog] takes for an average abundance. *)
Definition abundance_lines (lines : list string) : list string :=
  List.filter (fun line => startswith line "average abundance") lines.

(** A number with at most [n] decimals. *)
Definition has_decimals (n : nat) (x : Q) : Prop :=
  exists z : Z, x == inject_Z z / inject_Z (10 ^ Z.of_nat n).

(** The program leaves the file [name] as it found it, however it
    ends. *)
Definition keeps (name : string) {A} (m : prog A) : Prop :=
  forall w, files (snd (m w)) !! name = files w !! name.

(** The collaborators leave the file [name] alone. *)
Definition hands_off (ext : collaborators) (name : string) : Prop :=
  (forall p o w, snd (ewDriver.minimize ext p o w) !! name = w !! name) /\
  (forall l w, ewDriver._update_par ext l w !! name = w !! name).

(** ** interpolation.py: reading a grid file *)

Module interpolation_io.

Definition lower_char (c : ascii) : ascii :=
  let n := nat_of_ascii c in
  if (65 <=? n)%nat && (n <=? 90)%nat then ascii_of_nat (n + 32) else c.

(** [s.lower()] on a byte string: the ASCII capitals change, nothing
    else does. *)
Definition lower (s : string) : string := text (map lower_char (chars s)).

(** The spellings of infinity and not-a-number that [float] accepts;
    they have no rational counterpart. *)
Definition special_float (s : string) : bool :=
  let body := text (snd (split_sign (chars (lower (strip s whitespace))))) in
  existsb (String.eqb body) ["inf"; "infinity"; "nan"]%string.

(** [float(s)], with the special values set apart. *)
Definition float_of (s : string) : res Q :=
  if special_float s then Raise NotEmbedded else py_float s.

(** [data[rowi, :] = vals]: a sequence of the row's length is copied, a
    sequence of length one is broadcast, any other raises [ValueError]. *)
Definition assign_row (col : nat) (vals : list Q) : res (list Q) :=
  if (List.length vals =? col)%nat then Ok vals
  else match vals with
       | [v] => Ok (repeat v col)
       | _ => Raise ValueError
       end.

(** One turn of the loop of [_loadtxt]: the row that line [line] fills. *)
Definition parse_row (col : nat) (line : string) : res (list Q) :=
  vals ← for_each float_of (words line);
  assign_row col vals.

(** The rows filled before the first [ValueError]. *)
Fixpoint filled_rows (col : nat) (lines : list string) : res (list (list Q)) :=
  match lines with
  | [] => Ok []
  | line :: rest =>
      match parse_row col line with
      | Ok r => rs ← filled_rows col rest; Ok (r :: rs)
      | Raise ValueError => Ok []
      | Raise e => Raise e
      end
  end.

(** [_loadtxt(lines)] *)
Definition _loadtxt (lines : list string) : res ndarray :=
  line0 ← item lines 0;
  let col := List.length (words line0) in
  rs ← filled_rows col lines;
  Ok (mkarr (List.length rs) col rs).

(** [a * b] on one-dimensional arrays, with numpy's broadcasting of a
    length-one operand. *)
Definition mul_arrays (a b : list Q) : res (list Q) :=
  if (List.length a =? List.length b)%nat
  then Ok (map (fun p => fst p * snd p) (combine a b))
  else match a, b with
       | [x], _ => Ok (map (fun y => x * y) b)
       | _, [y] => Ok (map (fun x => x * y) a)
       | _, _ => Raise ValueError
       end.

(** [np.add.accumulate(v)]: the running sums, [acc] being the sum so
    far. *)
Fixpoint accumulate (acc : Q) (v : list Q) : list Q :=
  match v with
  | [] => []
  | x :: v' => (acc + x) :: accumulate (acc + x) v'
  end.

(** [d * (y[1:] + y[:-1]) / 2.0] for [d = 1] *)
Definition trapezes (y : list Q) : list Q :=
  map (fun p => 1 * (fst p + snd p) / 2) (combine (skipn 1 y) (removelast y)).

(** [tauross_scale(abross, rhox)] on one-dimensional arrays, with the
    default [dx=1, axis=-1]. *)
Definition tauross_scale (abross rhox : list Q) : res (list Q) :=
  y ← mul_arrays rhox abross;
  r0 ← item rhox 0;
  a0 ← item abross 0;
  let initial := r0 * a0 in
  Ok (initial :: accumulate 0 (trapezes y)).

(** [lines[23:-1]] *)
Definition body_lines (data : list string) : list string :=
  removelast (skipn 23 data).

(** [read_model(fname)]; [_unpack_model] hands out the lines of the
    uncompressed file. *)
Definition read_model (fname : string) (w : fs) : res (ndarray * list Q) :=
  data ← read_lines fname w;
  model ← _loadtxt (body_lines data);
  abross ← column model 4;
  rhox ← column model 0;
  tauross ← tauross_scale abross rhox;
  Ok (model, tauross).

End interpolation_io.

(** [read_model(mname)[0]], as the interpolators use a grid file. *)
Definition model_of (w : fs) (fname : string) : res ndarray :=
  tatm ← interpolation_io.read_model fname w; Ok (fst tatm).

(** The requested value lies outside its (increasing) bracket. *)
Definition beyond (x lo hi : Q) : Prop := lo < hi /\ (x < lo \/ hi < x).

(** ... and inside it, ends included. *)
Definition within (x lo hi : Q) : Prop := lo < hi /\ lo <= x /\ x <= hi.

(** Linear interpolation between [a] (at 0) and [b] (at 1). *)
Definition lerp (c a b : Q) : Q := (1 - c) * a + c * b.

(** The grid value [_interpol] reads off the key of an item; 0 stands for
    a key it cannot read. *)
Definition grid_value (kind : string) (kv : string * ndarray) : Q :=
  match key_value kind (fst kv) with Ok x => x | Raise _ => 0 end.

(** The test of [interpolatorN7] that files a model name under a gravity
    and a metallicity. *)
Definition names_grid_point (logg feh : Q) (model : string) : bool :=
  has_logg logg model && has_feh feh model.

(** The group (1 to 4) a model name is filed in: the first of the four
    tests, in the order of the [if]/[elif] chain, that holds; 0 when
    none does. *)
Definition group_of (logg1 logg2 feh1 feh2 : Q) (model : string) : nat :=
  if names_grid_point logg1 feh1 model then 1
  else if names_grid_point logg1 feh2 model then 2
  else if names_grid_point logg2 feh1 model then 3
  else if names_grid_point logg2 feh2 model then 4
  else 0.

(** The body of the loop that fills [models_t1 .. models_t4]. *)
Definition sort_step (models : dict) (logg1 logg2 feh1 feh2 : Q)
    (acc : dict * dict * dict * dict) (model : string)
  : dict * dict * dict * dict :=
  let '(m1, m2, m3, m4) := acc in
  match models !! model with
  | None => acc
  | Some v =>
      if has_logg logg1 model && has_feh feh1 model
      then (<[model := v]> m1, m2, m3, m4)
      else if has_logg logg1 model && has_feh feh2 model
      then (m1, <[model := v]> m2, m3, m4)
      else if has_logg logg2 model && has_feh feh1 model
      then (m1, m2, <[model := v]> m3, m4)
      else if has_logg logg2 model && has_feh feh2 model
      then (m1, m2, m3, <[model := v]> m4)
      else acc
  end.

(** ** runmoog.py: the residual with the Fortran interpolator *)

Module runmoog_fortran.

(** [int(x)] and the format [%i]: towards zero. *)
Definition py_trunc (x : Q) : Z :=
  if Qle_bool 0 x then Qfloor x else Qceiling x.

Section WithShell.

(** [os.system(command)] and the engine, both seen through the files
    they leave. *)
Variable os_system : string -> fs -> fs.
Variable MOOGSILENT : fs -> fs.

Definition specpar : string := "/home/daniel/Software/SPECPAR/interpol_models/".

(** [fun_moog_fortran(x, par, results, fix_logg)] *)
Definition fun_moog_fortran (x : Q * Q * Q * Q) (par results : string)
    (fix_logg : bool) (w : fs) : res (option Q) :=
  let '(teff, logg, feh, vt) := x in
  let teff := teff * 100 in
  let w := os_system ("echo " ++ str_Z (py_trunc teff) ++ " " ++ str_float logg
                      ++ " " ++ str_float feh ++ " | " ++ specpar ++ "intermod.e") w in
  let w := os_system ("echo " ++ str_float vt ++ " | " ++ specpar ++ "transform.e") w in
  '(EPs, RWs, abundances) ← _read_moog results (_run_moog MOOGSILENT par w);
  if (List.length abundances =? 2)%nat then
    EP0 ← item EPs 0;
    RW0 ← item RWs 0;
    a0 ← item abundances 0;
    a1 ← item abundances 1;
    Ok (Some (qpow EP0 2 + qpow RW0 2 + qpow (a1 - a0) 2))
  else Ok None.

End WithShell.
End runmoog_fortran.

(** The report lines [_read_moog] reads something from. *)
Definition read_by_read_moog (line : string) : bool :=
  startswith line "E.P" || startswith line "R.W"
  || startswith line "average abundance".

(** ** ewDriver.py: the options of a configuration line *)

Module ewDriver_config.

(** The values the option dictionary holds: the defaults are booleans,
    integers, floats and text, a [key:value] item stores text and a flag
    stores a boolean. *)
Inductive pyval : Type :=
| VBool (b : bool)
| VInt (z : Z)
| VFloat (q : Q)
| VStr (s : string).

Abbreviation pydict := (gmap string pyval).

(** What a call does: it returns, or raises one of the exceptions of
    [exn], or raises [AttributeError]. *)
Inductive outcome (A : Type) : Type :=
| Returns (a : A)
| Raises (e : exn)
| RaisesAttributeError.
Arguments Returns {A} a.
Arguments Raises {A} e.
Arguments RaisesAttributeError {A}.

#[global] Instance outcome_ret : MRet outcome := fun A a => Returns a.
#[global] Instance outcome_bind : MBind outcome := fun A B f m =>
  match m with
  | Returns a => f a
  | Raises e => Raises e
  | RaisesAttributeError => RaisesAttributeError
  end.

Definition of_res {A} (r : res A) : outcome A :=
  match r with Ok a => Returns a | Raise e => Raises e end.

(** [bool(v)] *)
Definition truthy (v : pyval) : bool :=
  match v with
  | VBool b => b
  | VInt z => negb (z =? 0)%Z
  | VFloat q => negb (Qeq_bool q 0)
  | VStr s => negb (String.eqb s EmptyString)
  end.

(** [a == b]: numbers (the booleans among them) by value, text with text. *)
Definition as_number (v : pyval) : option Q :=
  match v with
  | VBool b => Some (if b then 1 else 0)
  | VInt z => Some (inject_Z z)
  | VFloat q => Some q
  | VStr _ => None
  end.

Definition py_eq (a b : pyval) : bool :=
  match a, b with
  | VStr s, VStr t => String.eqb s t
  | _, _ =>
      match as_number a, as_number b with
      | Some x, Some y => Qeq_bool x y
      | _, _ => false
      end
  end.

(** [v in l] *)
Definition py_in (v : pyval) (l : list pyval) : bool := existsb (py_eq v) l.

(** [int(v)] and [float(v)] *)
Definition int_of (v : pyval) : res Z :=
  match v with
  | VBool b => Ok (if b then 1 else 0)%Z
  | VInt z => Ok z
  | VFloat q => Ok (runmoog_fortran.py_trunc q)
  | VStr s => py_int s
  end.

Definition float_of (v : pyval) : res Q :=
  match v with
  | VBool b => Ok (if b then 1 else 0)
  | VInt z => Ok (inject_Z z)
  | VFloat q => Ok q
  | VStr s => interpolation_io.float_of s
  end.

(** [v.lower()]: only text has the method. *)
Definition lower_of (v : pyval) : outcome string :=
  match v with
  | VStr s => Returns (interpolation_io.lower s)
  | _ => RaisesAttributeError
  end.

(** [d[k]] *)
Definition lookup_key (d : pydict) (k : string) : outcome pyval :=
  match d !! k with Some v => Returns v | None => Raises KeyError end.

Definition defaults : pydict :=
  list_to_map
    [("spt"%string, VBool false); ("weights"%string, VStr "null");
     ("model"%string, VStr "kurucz95"); ("fix_teff"%string, VBool false);
     ("fix_logg"%string, VBool false); ("fix_feh"%string, VBool false);
     ("fix_vt"%string, VBool false); ("refine"%string, VBool false);
     ("iterations"%string, VInt 160); ("EPcrit"%string, VFloat 0.001);
     ("RWcrit"%string, VFloat 0.003); ("ABdiffcrit"%string, VFloat 0.01);
     ("MOOGv"%string, VInt 2014); ("outlier"%string, VBool false);
     ("teffrange"%string, VBool false); ("autofixvt"%string, VBool false);
     ("tmcalc"%string, VBool false); ("sigma"%string, VInt 3)].

(** [if option in ['teff', 'logg', 'feh', 'vt']: option = 'fix_%s' % option] *)
Definition fix_name (option : string) : string :=
  if existsb (String.eqb option) ["teff"; "logg"; "feh"; "vt"]%string
  then ("fix_" ++ option)%string else option.

(** One turn of the loop over [options.split(',')]. *)
Definition set_option (defaults : pydict) (option : string) : outcome pydict :=
  if contains ":" option then
    match split option ":" with
    | k :: v :: _ => Returns (<[k := VStr v]> defaults)
    | _ => Raises IndexError
    end
  else
    let option := fix_name option in
    v ← lookup_key defaults option;
    Returns (<[option := VBool (negb (truthy v))]> defaults).

Fixpoint set_options (items : list string) (defaults : pydict) : outcome pydict :=
  match items with
  | [] => Returns defaults
  | option :: rest =>
      defaults ← set_option defaults option; set_options rest defaults
  end.

Definition outlier_policies : list pyval :=
  [VBool false; VStr "1Iter"; VStr "1Once"; VStr "allIter"; VStr "allOnce"].

(** [defaults[k] = int(defaults[k])] and [defaults[k] = float(defaults[k])] *)
Definition to_int (k : string) (d : pydict) : outcome pydict :=
  v ← lookup_key d k; z ← of_res (int_of v); Returns (<[k := VInt z]> d).

Definition to_float (k : string) (d : pydict) : outcome pydict :=
  v ← lookup_key d k; q ← of_res (float_of v); Returns (<[k := VFloat q]> d).

(** The conversions after the loop. *)
Definition convert (d : pydict) : outcome pydict :=
  v ← lookup_key d "model";
  m ← lower_of v;
  let d := <["model" := VStr m]> d in
  d ← to_int "iterations" d;
  d ← to_float "EPcrit" d;
  d ← to_float "RWcrit" d;
  d ← to_float "ABdiffcrit" d;
  d ← to_int "MOOGv" d;
  v ← lookup_key d "outlier";
  if negb (py_in v outlier_policies)
  then Returns (<["outlier" := VBool false]> d)
  else Returns d.

(** [_options(options)]; [None] is the call without an argument. *)
Definition _options (options : option string) : outcome pydict :=
  match options with
  | None => Returns defaults
  | Some options =>
      if String.eqb options EmptyString then Returns defaults
      else d ← set_options (split options ",") defaults; convert d
  end.

(** [_getMic(teff, logg, feh)] *)
Definition _getMic (teff logg feh : Q) : Q :=
  if Qle_bool 3.95 logg
  then py_round (6.932 * teff * (1 # 10000) - 0.348 * logg - 1.437) 2
  else py_round (2.72 - 0.457 * logg + 0.072 * feh) 2.

(** The keys that key:value items of a line set. *)
Definition keys_set (items : list string) : list string :=
  map (fun item => first_item (split item ":"))
      (List.filter (contains ":") items).

(** The keys whose values [_options] converts after the loop. *)
Definition converted_keys : list string :=
  ["model"; "iterations"; "EPcrit"; "RWcrit"; "ABdiffcrit"; "MOOGv"; "outlier"]%string.

End ewDriver_config.

(** ** Invariants of the driver and other notions of the properties *)

(** What the group numbered [n] holds under the key [k] after the step
    for [a]. *)
Definition filed (models : dict) (g1 g2 f1 f2 : Q) (a k : string) (n : nat)
    (old : dict) : option ndarray :=
  if bool_decide (a = k) && (group_of g1 g2 f1 f2 k =? n)%nat
     && bool_decide (is_Some (models !! k))
  then models !! k else old !! k.

(** A program keeps an invariant of the world, however it ends. *)
Definition preserves (J : world -> Prop) {A} (m : prog A) : Prop :=
  forall w, J w -> J (snd (m w)).

(** The collaborators leave every file under [linelist/] alone. *)
Definition hands_off_linelists (ext : collaborators) : Prop :=
  forall n, hands_off ext ("linelist/" ++ n).

(** The solver is started at most [n] times. *)
Definition runs_at_most (n : nat) {A} (m : prog A) : Prop :=
  forall w, (solver_runs w <= solver_runs (snd (m w)) <= solver_runs w + n)%nat.

(** The rows a job adds to [results.csv]. *)
Definition rows_of (r : res (option row)) : list row :=
  match r with Ok (Some r) => [r] | _ => [] end.

(** The working copy holds some of the original's lines, in their order,
    and the original is as it was. *)
Definition copy_shrinks (orig : string) (L : list string) (w : world) : Prop :=
  (exists l, files w !! tmpll = Some l /\ sublist l L) /\
  files w !! orig = Some L.

(** A job's change of [results.csv] is the row it returns. *)
Definition logs (m : prog (option row)) : Prop :=
  forall w, results_csv (snd (m w)) = results_csv w ++ rows_of (fst (m w)).

(** The runs of the outlier runner: one for a policy that removes once,
    one for each round of a policy that iterates. *)
Definition rounds (fuel : nat) (type : string) : nat :=
  if String.eqb type "1Iter" || String.eqb type "allIter" then fuel else 1.

(** The runs of one job: the first solve, the outlier runner, the
    restart of the [teffrange] block with its outlier runner, the restart
    with the microturbulence frozen and the refine pass. *)
Definition job_budget (fuel : nat) (o : options) : nat :=
  let r := match outlier o with Some type => rounds fuel type | None => 0%nat end in
  (1 + r + (1 + r) + 1 + 1)%nat.

(** A value that a flag or a [key:value] item stores. *)
Definition flag_or_text (v : ewDriver_config.pyval) : Prop :=
  match v with ewDriver_config.VBool _ | ewDriver_config.VStr _ => True | _ => False end.

(** ** Concrete inputs for the further properties *)

(** Four lines of which the third is no row of numbers. *)
Definition sample_lines : list string := ["1 2"; "3 4"; "x y"; "5 6"]%string.
Definition sample_table : ndarray := mkarr 2 2 [[1; 2]; [3; 4]].

(** A grid file: 23 header lines, two layers of five columns and a last
    line. *)
Definition atm_file : list string :=
  repeat "header"%string 23 ++ ["1 2 3 4 5"; "2 3 4 5 6"; "end"]%string.
Definition atm_table : ndarray := mkarr 2 5 [[1; 2; 3; 4; 5]; [2; 3; 4; 5; 6]].
Definition atm_tau : list Q := [5; 17 # 2].

(** The same file under the eight names of the cube. *)
Definition atm_fs : fs := list_to_map (map (fun n => (n, atm_file)) cube_names).

(** What the standard interpolator returns on the cube outside and inside
    the bracket. *)
Definition cube_zero_deck : ndarray := mkarr 2 2 [[0; 0]; [0; 0]].
Definition cube_inner_deck : ndarray := mkarr 2 2 [[11 # 5; 1]; [2; 3]].

(** One-cell tables. *)
Definition cell (v : Q) : ndarray := mkarr 1 1 [[v]].

(** The grid of the extended interpolator, sorted at its bracket. *)
Definition sorted_grid : dict * dict * dict * dict :=
  sort_models (loaded by_name grid_names ∅) 4.0 4.5 (-0.5) 0.0.

(** A star of solar temperature. *)
Definition solar : list Q := [5777; 4.44; 0; 1].

(** The run of the outlier runner on the scripted star. *)
Definition once_run : res (string * list Q) * world :=
  _outlierRunner scripted.engine 1 "1Once" "star.moog" cool ewDriver.defaults
    (scripted.start scripted.star_moog).

(** * Properties *)

Lemma bind_Ok {A B} (m : res A) (f : A -> res B) b :
  (m ≫= f) = Ok b -> exists a, m = Ok a /\ f a = Ok b.
Proof. destruct m as [a|e]; simpl; [eauto | discriminate]. Qed.

Lemma for_each_length {A B} (f : A -> res B) l ys :
  for_each f l = Ok ys -> List.length ys = List.length l.
Proof.
  revert ys; induction l as [|x l IH]; simpl; intros ys H.
  - now inversion H.
  - apply bind_Ok in H as (y & Hy & H). apply bind_Ok in H as (ys' & Hys & H).
    inversion H; subst; simpl. f_equal. now apply IH.
Qed.

Lemma for_each_lookup {A B} (f : A -> res B) l ys i x :
  for_each f l = Ok ys -> l !! i = Some x ->
  exists y, ys !! i = Some y /\ f x = Ok y.
Proof.
  revert ys i; induction l as [|a l IH]; simpl; intros ys i H Hi.
  - destruct i; discriminate.
  - apply bind_Ok in H as (y & Hy & H). apply bind_Ok in H as (ys' & Hys & H).
    inversion H; subst. destruct i as [|i]; simpl in *.
    + inversion Hi; subst. eauto.
    + eauto.
Qed.

Lemma for_each_total {A B} (f : A -> res B) l :
  (forall x, In x l -> is_Ok (f x)) -> is_Ok (for_each f l).
Proof.
  induction l as [|a l IH]; simpl; intros H.
  - now exists [].
  - destruct (H a) as [y Hy]; [now left|]. rewrite Hy; simpl.
    destruct IH as [ys Hys]; [intros; apply H; now right|].
    rewrite Hys; simpl. now eexists.
Qed.

Lemma fold_min_le l x : (fold_left Nat.min l x <= x)%nat /\
  forall y, In y l -> (fold_left Nat.min l x <= y)%nat.
Proof.
  revert x; induction l as [|a l IH]; simpl; intros x.
  - split; [lia | tauto].
  - destruct (IH (Nat.min x a)) as [H1 H2]. split; [lia|].
    intros y [->|Hy]; [lia | auto].
Qed.

Lemma py_min_le l m x : py_min l = Ok m -> In x l -> (m <= x)%nat.
Proof.
  destruct l as [|a l]; simpl; [discriminate|]. intros H; inversion H; subst.
  destruct (fold_min_le l a) as [H1 H2]. intros [->|Hx]; auto.
Qed.

Lemma fold_min_In l x : fold_left Nat.min l x = x \/ In (fold_left Nat.min l x) l.
Proof.
  revert x; induction l as [|a l IH]; simpl; intros x; [now left|].
  destruct (IH (Nat.min x a)) as [H|H]; [|now right; right].
  rewrite H. destruct (Nat.min_spec x a) as [[_ ->]|[_ ->]]; auto.
Qed.

Lemma py_min_In l m : py_min l = Ok m -> In m l.
Proof.
  destruct l as [|a l]; simpl; [discriminate|]. intros H; inversion H; subst.
  destruct (fold_min_In l a) as [->|H']; auto.
Qed.

Lemma py_min_total l : l <> [] -> is_Ok (py_min l).
Proof. destruct l; [congruence|]. intros _. simpl. now eexists. Qed.

Lemma getitem_wf a i j :
  wf_array a -> (i < shape0 a)%nat -> (j < shape1 a)%nat -> is_Ok (getitem a i j).
Proof.
  intros [Hr Hc] Hi Hj. unfold getitem.
  apply Nat.ltb_lt in Hi as Hi', Hj as Hj'. rewrite Hi', Hj'. simpl.
  destruct (rows a !! i) as [r|] eqn:Er.
  - assert (List.length r = shape1 a) as Hl.
    { rewrite Forall_forall in Hc. apply Hc. eapply list_elem_of_lookup_2. exact Er. }
    destruct (r !! j) eqn:Ej; [now eexists|].
    apply lookup_ge_None in Ej. lia.
  - apply lookup_ge_None in Er. lia.
Qed.

Lemma seq_lookup s n i : (i < n)%nat -> seq s n !! i = Some (s + i)%nat.
Proof. intros. now apply lookup_seq_lt. Qed.

Lemma fill_array_shape L C cell a :
  fill_array L C cell = Ok a -> shape0 a = L /\ shape1 a = C /\ wf_array a.
Proof.
  unfold fill_array. intros H. apply bind_Ok in H as (dat & Hd & H).
  inversion H; subst; clear H. simpl. split; [reflexivity|]. split; [reflexivity|].
  split; simpl.
  - rewrite (for_each_length _ _ _ Hd). apply length_seq.
  - apply Forall_forall. intros r Hr.
    apply list_elem_of_lookup in Hr as [i Hi].
    assert (i < L)%nat as HiL.
    { apply lookup_lt_Some in Hi. rewrite (for_each_length _ _ _ Hd), length_seq in Hi. exact Hi. }
    destruct (for_each_lookup _ _ _ i (0 + i)%nat Hd (seq_lookup 0 L i HiL)) as (y & Hy & Hrow).
    rewrite Hi in Hy. inversion Hy; subst.
    rewrite (for_each_length _ _ _ Hrow). apply length_seq.
Qed.

Lemma fill_array_getitem L C cell a l c :
  fill_array L C cell = Ok a -> (l < L)%nat -> (c < C)%nat ->
  exists v, getitem a l c = Ok (Qred v) /\ cell l c = Ok v.
Proof.
  unfold fill_array. intros H Hl Hc. apply bind_Ok in H as (dat & Hd & H).
  inversion H; subst; clear H. unfold getitem; simpl.
  apply Nat.ltb_lt in Hl as Hl', Hc as Hc'. rewrite Hl', Hc'. simpl.
  destruct (for_each_lookup _ _ _ l (0 + l)%nat Hd (seq_lookup 0 L l Hl)) as (r & Hr & Hrow).
  rewrite Hr.
  destruct (for_each_lookup _ _ _ c (0 + c)%nat Hrow (seq_lookup 0 C c Hc)) as (v & Hv & Hcell).
  rewrite Hv. apply bind_Ok in Hcell as (v0 & Hv0 & Hcell). inversion Hcell; subst.
  exists v0. split; [reflexivity|]. exact Hv0.
Qed.

Lemma fill_array_total L C cell :
  (forall l c, (l < L)%nat -> (c < C)%nat -> is_Ok (cell l c)) ->
  is_Ok (fill_array L C cell).
Proof.
  intros H. unfold fill_array.
  destruct (for_each_total
    (fun layer => for_each (fun column => v ← cell layer column; Ok (Qred v)) (seq 0 C))
    (seq 0 L)) as [dat Hd].
  - intros l Hl. apply in_seq in Hl. apply for_each_total.
    intros c Hc. apply in_seq in Hc. destruct (H l c) as [v Hv]; [lia|lia|].
    rewrite Hv. simpl. now eexists.
  - rewrite Hd. simpl. now eexists.
Qed.

Lemma py_div_ok a b : ~ b == 0 -> py_div a b = Ok (a / b).
Proof.
  intros H. unfold py_div. destruct (Qeq_bool b 0) eqn:E; [|reflexivity].
  apply Qeq_bool_iff in E. contradiction.
Qed.

Lemma frac_at_bracket t lo hi i :
  (i < 2)%nat -> ~ lo == hi -> t == pick i lo hi ->
  (t - lo) / (hi - lo) == inject_Z (Z.of_nat i).
Proof.
  intros Hi Hne Ht. rewrite Ht.
  destruct i as [|[|i]]; simpl; [| |lia].
  - field. intros H. apply Hne. lra.
  - field. intros H. apply Hne. lra.
Qed.

Lemma inside_bit c i : (i < 2)%nat -> c == inject_Z (Z.of_nat i) -> inside c = true.
Proof.
  intros Hi Hc. unfold inside. apply andb_true_iff; split; apply Qle_bool_iff; rewrite Hc;
  destruct i as [|[|i]]; simpl; try lia; unfold Qle; simpl; lia.
Qed.

Lemma blend_corner c1 c2 c3 i j k v0 v1 v2 v3 v4 v5 v6 v7 :
  (i < 2)%nat -> (j < 2)%nat -> (k < 2)%nat ->
  c1 == inject_Z (Z.of_nat i) -> c2 == inject_Z (Z.of_nat j) ->
  c3 == inject_Z (Z.of_nat k) ->
  blend c1 c2 c3 0 [v0; v1; v2; v3; v4; v5; v6; v7]
  == nth (4 * i + 2 * j + k) [v0; v1; v2; v3; v4; v5; v6; v7] 0.
Proof.
  intros Hi Hj Hk H1 H2 H3.
  unfold blend, corner_term, unravel_index, weight; simpl Nat.div; simpl Nat.modulo.
  cbv iota beta. rewrite H1, H2, H3.
  destruct i as [|[|i]]; try lia; destruct j as [|[|j]]; try lia;
  destruct k as [|[|k]]; try lia; simpl; ring.
Qed.

Lemma for_each_cons_inv {A B} (f : A -> res B) x l ys :
  for_each f (x :: l) = Ok ys ->
  exists y ys', ys = y :: ys' /\ f x = Ok y /\ for_each f l = Ok ys'.
Proof.
  simpl. intros H. apply bind_Ok in H as (y & Hy & H).
  apply bind_Ok in H as (ys' & Hys & H). inversion H; subst. eauto.
Qed.

Lemma for_each_seq8 {B} (f : nat -> res B) ys :
  for_each f (seq 0 8) = Ok ys ->
  exists y0 y1 y2 y3 y4 y5 y6 y7, ys = [y0;y1;y2;y3;y4;y5;y6;y7] /\
    f 0%nat = Ok y0 /\ f 1%nat = Ok y1 /\ f 2%nat = Ok y2 /\ f 3%nat = Ok y3 /\
    f 4%nat = Ok y4 /\ f 5%nat = Ok y5 /\ f 6%nat = Ok y6 /\ f 7%nat = Ok y7.
Proof.
  change (seq 0 8) with [0;1;2;3;4;5;6;7]%nat. intros H.
  apply for_each_cons_inv in H as (y0 & l0 & -> & E0 & H).
  apply for_each_cons_inv in H as (y1 & l1 & -> & E1 & H).
  apply for_each_cons_inv in H as (y2 & l2 & -> & E2 & H).
  apply for_each_cons_inv in H as (y3 & l3 & -> & E3 & H).
  apply for_each_cons_inv in H as (y4 & l4 & -> & E4 & H).
  apply for_each_cons_inv in H as (y5 & l5 & -> & E5 & H).
  apply for_each_cons_inv in H as (y6 & l6 & -> & E6 & H).
  apply for_each_cons_inv in H as (y7 & l7 & -> & E7 & H).
  simpl in H. inversion H; subst.
  exists y0, y1, y2, y3, y4, y5, y6, y7. repeat split; assumption.
Qed.

(** C1: when each of the three requested coordinates (temperature,
    gravity, metallicity) is one of the two grid values that bracket it,
    so that each fractional coordinate is exactly 0 or 1, [interpolator]
    returns a table.  The table is rectangular, it has as many layers
    and columns as the shortest and the narrowest of the grid files (as
    many as the grid file of the corner when the files have one shape),
    and every cell of it has the value of the same cell in the grid file
    of that corner (number [4 i + 2 j + k] of the bracket, with [i],
    [j], [k] saying on each axis whether the low or the high grid value
    was requested). *)
Theorem interpolator_grid_identity
    (read_model : string -> res ndarray) (mnames : list string)
    (models : list ndarray) (t tl th g gl gh f fl fh : Q) (i j k : nat) :
  for_each read_model mnames = Ok models ->
  (8 <= List.length models)%nat ->
  Forall wf_array models ->
  (i < 2)%nat -> (j < 2)%nat -> (k < 2)%nat ->
  ~ tl == th -> ~ gl == gh -> ~ fl == fh ->
  t == pick i tl th -> g == pick j gl gh -> f == pick k fl fh ->
  exists deck corner,
    interpolator read_model mnames (t, (tl, th)) (g, (gl, gh)) (f, (fl, fh))
      = Ok deck /\
    models !! (4 * i + 2 * j + k)%nat = Some corner /\
    wf_array deck /\
    py_min (map shape0 models) = Ok (shape0 deck) /\
    py_min (map shape1 models) = Ok (shape1 deck) /\
    ((forall m, In m models ->
        shape0 m = shape0 corner /\ shape1 m = shape1 corner) ->
     shape0 deck = shape0 corner /\ shape1 deck = shape1 corner) /\
    forall layer column,
      (layer < shape0 deck)%nat -> (column < shape1 deck)%nat ->
      exists v w, getitem deck layer column = Ok v /\
                  getitem corner layer column = Ok w /\ v == w.
Proof.
  intros Hread Hlen Hwf Hi Hj Hk Ht Hg Hf Et Eg Ef.
  assert (Hc1 := frac_at_bracket t tl th i Hi Ht Et).
  assert (Hc2 := frac_at_bracket g gl gh j Hj Hg Eg).
  assert (Hc3 := frac_at_bracket f fl fh k Hk Hf Ef).
  destruct (py_min_total (map shape0 models)) as [layers HL].
  { destruct models; simpl in *; [lia | discriminate]. }
  destruct (py_min_total (map shape1 models)) as [columns HC].
  { destruct models; simpl in *; [lia | discriminate]. }
  assert (Hcorner : exists corner, models !! (4 * i + 2 * j + k)%nat = Some corner).
  { apply lookup_lt_is_Some_2. lia. }
  destruct Hcorner as [corner Hcorner].
  set (cell := fun layer column : nat =>
    tlayer ← for_each (fun cntr =>
      match models !! cntr with
      | Some m => getitem m layer column
      | None => Raise IndexError
      end) (seq 0 (2 * 2 * 2));
    Ok (map_coordinates tlayer ((t - tl) / (th - tl)) ((g - gl) / (gh - gl))
          ((f - fl) / (fh - fl)))).
  assert (Hrun : interpolator read_model mnames (t, (tl, th)) (g, (gl, gh)) (f, (fl, fh))
                 = fill_array layers columns cell).
  { unfold interpolator. rewrite Hread. simpl.
    rewrite !py_div_ok by (intros H; first [apply Ht | apply Hg | apply Hf]; lra).
    simpl. rewrite HL. simpl. rewrite HC. reflexivity. }
  assert (Hin : forall m l c, m ∈ models -> (l < layers)%nat -> (c < columns)%nat ->
                  is_Ok (getitem m l c)).
  { intros m l c Hm Hl Hcc. apply getitem_wf.
    - rewrite Forall_forall in Hwf. now apply Hwf.
    - pose proof (py_min_le _ _ (shape0 m) HL) as H. 
      assert (In (shape0 m) (map shape0 models)) by (apply in_map, list_elem_of_In, Hm).
      specialize (H H0). lia.
    - pose proof (py_min_le _ _ (shape1 m) HC) as H.
      assert (In (shape1 m) (map shape1 models)) by (apply in_map, list_elem_of_In, Hm).
      specialize (H H0). lia. }
  destruct (fill_array_total layers columns cell) as [deck Hdeck].
  { intros l c Hl Hcc. unfold cell.
    destruct (for_each_total (fun cntr => match models !! cntr with
        | Some m => getitem m l c | None => Raise IndexError end) (seq 0 (2*2*2))) as [tl' Htl].
    - intros cntr Hcn. apply in_seq in Hcn.
      destruct (lookup_lt_is_Some_2 models cntr) as [m Hm]; [simpl in Hcn; lia|].
      rewrite Hm. apply Hin; auto. eapply list_elem_of_lookup_2; eauto.
    - rewrite Htl. simpl. now eexists. }
  destruct (fill_array_shape _ _ _ _ Hdeck) as (S0 & S1 & Hwfd).
  exists deck, corner. split; [now rewrite Hrun|]. split; [exact Hcorner|].
  split; [exact Hwfd|]. split; [now rewrite S0|]. split; [now rewrite S1|].
  split.
  { intros Hsame. rewrite S0, S1. split.
    - apply py_min_In, in_map_iff in HL as (m & <- & Hm). now apply Hsame.
    - apply py_min_In, in_map_iff in HC as (m & <- & Hm). now apply Hsame. }
  intros layer column Hl Hcc.
  rewrite S0 in Hl. rewrite S1 in Hcc.
  destruct (fill_array_getitem _ _ _ _ layer column Hdeck Hl Hcc) as (v & Hv & Hcell).
  unfold cell in Hcell. apply bind_Ok in Hcell as (tlayer & Htl & Hcell).
  inversion Hcell as [Hval]; clear Hcell.
  change (2 * 2 * 2)%nat with 8%nat in Htl.
  apply for_each_seq8 in Htl
    as (y0&y1&y2&y3&y4&y5&y6&y7&->&E0&E1&E2&E3&E4&E5&E6&E7).
  exists (Qred v), (nth (4 * i + 2 * j + k) [y0;y1;y2;y3;y4;y5;y6;y7] 0).
  split; [exact Hv|]. split.
  - destruct i as [|[|i]]; try lia; destruct j as [|[|j]]; try lia;
    destruct k as [|[|k]]; try lia; simpl in Hcorner |- *; rewrite Hcorner in *; assumption.
  - rewrite Qred_correct, <- Hval. unfold map_coordinates.
    rewrite (inside_bit _ i Hi Hc1), (inside_bit _ j Hj Hc2), (inside_bit _ k Hk Hc3).
    simpl andb. cbv iota. apply blend_corner; assumption.
Qed.

Lemma _interpol_shape models param kind L C d :
  _interpol models param kind L C = Ok d ->
  exists name arr, d = {[ name := arr ]} /\ shape0 arr = L /\ shape1 arr = C
                   /\ wf_array arr.
Proof.
  unfold _interpol. intros H. apply bind_Ok in H as (arr & Harr & H).
  destruct (fill_array_shape _ _ _ _ Harr) as (H0 & H1 & Hwf).
  destruct (if (0 <? L)%nat && (0 <? C)%nat then _ else _) as [k|];
    [|discriminate].
  inversion H; subst. eauto 10.
Qed.

Lemma first_collapse_shape rm mnames t g f t1 t2 t3 t4 L C :
  first_collapse rm mnames t g f = Ok (t1, t2, t3, t4, L, C) ->
  exists models, load_models rm mnames ∅ = Ok models /\
    py_min (map shape0 (values models)) = Ok L /\
    py_min (map shape1 (values models)) = Ok C.
Proof.
  unfold first_collapse. destruct t as [t ?], g as [g [g1 g2]], f as [f [f1 f2]].
  intros H. apply bind_Ok in H as (models & Hm & H).
  apply bind_Ok in H as (L' & HL & H). apply bind_Ok in H as (C' & HC & H).
  destruct (sort_models models g1 g2 f1 f2) as [[[m1 m2] m3] m4].
  apply bind_Ok in H as (? & _ & H). apply bind_Ok in H as (? & _ & H).
  apply bind_Ok in H as (? & _ & H). apply bind_Ok in H as (? & _ & H).
  inversion H; subst. eauto.
Qed.

Lemma second_collapse_shape rm mnames t g f M L C :
  second_collapse rm mnames t g f = Ok (M, L, C) ->
  exists models, load_models rm mnames ∅ = Ok models /\
    py_min (map shape0 (values models)) = Ok L /\
    py_min (map shape1 (values models)) = Ok C.
Proof.
  unfold second_collapse. intros H.
  apply bind_Ok in H as ([[[[[t1 t2] t3] t4] L'] C'] & H1 & H).
  apply bind_Ok in H as (? & _ & H). apply bind_Ok in H as (? & _ & H).
  apply bind_Ok in H as ([L1 L2] & _ & H).
  apply bind_Ok in H as (? & _ & H). apply bind_Ok in H as (? & _ & H).
  inversion H; subst. eapply first_collapse_shape; eauto.
Qed.

Lemma values_singleton (name : string) (arr : ndarray) :
  values ({[ name := arr ]} : gmap string ndarray) = [arr].
Proof. unfold values. now rewrite map_to_list_singleton. Qed.

Lemma interpolatorN7_shape rm mnames t g f deck :
  interpolatorN7 rm mnames t g f = Ok deck ->
  exists models, load_models rm mnames ∅ = Ok models /\
    py_min (map shape0 (values models)) = Ok (shape0 deck) /\
    py_min (map shape1 (values models)) = Ok (shape1 deck) /\
    wf_array deck.
Proof.
  unfold interpolatorN7. intros H.
  apply bind_Ok in H as ([[M L] C] & H2 & H).
  apply bind_Ok in H as (d & Hd & H).
  apply _interpol_shape in Hd as (name & arr & -> & S0 & S1 & Hwf).
  rewrite values_singleton in H. simpl in H. inversion H; subst.
  destruct (second_collapse_shape _ _ _ _ _ _ _ _ H2) as (models & ? & ? & ?).
  exists models. auto.
Qed.

Lemma interpolator_shape rm mnames t g f deck :
  interpolator rm mnames t g f = Ok deck ->
  exists models, for_each rm mnames = Ok models /\
    py_min (map shape0 models) = Ok (shape0 deck) /\
    py_min (map shape1 models) = Ok (shape1 deck) /\
    wf_array deck.
Proof.
  unfold interpolator. destruct t as [t [tl th]], g as [g [gl gh]], f as [f [fl fh]].
  intros H. apply bind_Ok in H as (models & Hm & H).
  apply bind_Ok in H as (c1 & _ & H). apply bind_Ok in H as (c2 & _ & H).
  apply bind_Ok in H as (c3 & _ & H).
  apply bind_Ok in H as (L & HL & H). apply bind_Ok in H as (C & HC & H).
  destruct (fill_array_shape _ _ _ _ H) as (S0 & S1 & Hwf).
  exists models. rewrite S0, S1. auto.
Qed.

(** C8: whenever the standard or the extended interpolator returns a
    table, the number of its layers is the minimum of the numbers of
    layers of the source models and the number of its columns is the
    minimum of their numbers of columns; the table is rectangular with
    exactly these dimensions, and no source model is shorter or narrower
    than it, so no cell lies beyond the shortest source. *)
Theorem interpolated_shape_is_minimum
    (read_model : string -> res ndarray) (mnames : list string)
    (teff logg feh : Q * (Q * Q)) (teff4 : Q * (Q * Q * Q * Q))
    (sources : list ndarray) (deck : ndarray) :
  (interpolator read_model mnames teff logg feh = Ok deck /\
   for_each read_model mnames = Ok sources) \/
  (interpolatorN7 read_model mnames teff4 logg feh = Ok deck /\
   exists models, load_models read_model mnames ∅ = Ok models /\
                  sources = values models) ->
  py_min (map shape0 sources) = Ok (shape0 deck) /\
  py_min (map shape1 sources) = Ok (shape1 deck) /\
  wf_array deck /\
  forall m, In m sources ->
    (shape0 deck <= shape0 m)%nat /\ (shape1 deck <= shape1 m)%nat.
Proof.
  intros H.
  assert (py_min (map shape0 sources) = Ok (shape0 deck) /\
          py_min (map shape1 sources) = Ok (shape1 deck) /\ wf_array deck)
    as (H0 & H1 & Hwf).
  { destruct H as [[H Hs]|[H (models & Hm & ->)]].
    - apply interpolator_shape in H as (models & Hm & ? & ? & ?).
      rewrite Hs in Hm. inversion Hm; subst. auto.
    - apply interpolatorN7_shape in H as (models' & Hm' & ? & ? & ?).
      rewrite Hm in Hm'. inversion Hm'; subst. auto. }
  split; [exact H0|]. split; [exact H1|]. split; [exact Hwf|].
  intros m Hm. split.
  - eapply py_min_le; [exact H0|]. now apply in_map.
  - eapply py_min_le; [exact H1|]. now apply in_map.
Qed.

Lemma fold_plus_perm (l l' : list Q) :
  Permutation l l' -> fold_right Qplus 0 l == fold_right Qplus 0 l'.
Proof.
  induction 1; simpl.
  - reflexivity.
  - now rewrite IHPermutation.
  - ring.
  - now rewrite IHPermutation1.
Qed.

Lemma qsum_perm (l l' : list Q) : Permutation l l' -> qsum l == qsum l'.
Proof. intros H. unfold qsum. rewrite !Qred_correct. now apply fold_plus_perm. Qed.

Lemma sums_of_perm (l l' : list (Q * Q)) :
  Permutation l l' -> sums_eq (sums_of l) (sums_of l').
Proof.
  intros H. unfold sums_eq, sums_of, moment, cross; simpl.
  repeat split; apply qsum_perm; now apply Permutation_map.
Qed.

Lemma normal_det_proper deg s s' :
  sums_eq s s' -> normal_det deg s == normal_det deg s'.
Proof.
  intros (E0 & E1 & E2 & E3 & E4 & F0 & F1 & F2).
  destruct deg as [|[|[|deg]]]; simpl; try reflexivity;
    unfold det3, det2; rewrite ?E0, ?E1, ?E2, ?E3, ?E4; reflexivity.
Qed.

Lemma polyval_lsq_proper deg s s' :
  sums_eq s s' ->
  polyval (lsq_coeffs deg s) 0 == polyval (lsq_coeffs deg s') 0.
Proof.
  intros Hs. pose proof (normal_det_proper deg s s' Hs) as HD.
  destruct Hs as (E0 & E1 & E2 & E3 & E4 & F0 & F1 & F2).
  destruct deg as [|[|[|deg]]]; try reflexivity.
  - unfold lsq_coeffs, polyval. simpl fold_left. rewrite HD.
    unfold det2. rewrite ?E0, ?E1, ?E2, ?F0, ?F1. reflexivity.
  - unfold lsq_coeffs, polyval. simpl fold_left. rewrite HD.
    unfold det3, det2. rewrite ?E0, ?E1, ?E2, ?E3, ?E4, ?F0, ?F1, ?F2. reflexivity.
Qed.

Lemma insert_by_dist_perm p l : Permutation (p :: l) (insert_by_dist p l).
Proof.
  induction l as [|q l IH]; simpl; [reflexivity|].
  destruct (Qle_bool (fst p) (fst q)); [reflexivity|].
  rewrite perm_swap. now apply perm_skip.
Qed.

Lemma sort_by_dist_perm l : Permutation l (sort_by_dist l).
Proof.
  induction l as [|p l IH]; simpl; [reflexivity|].
  rewrite <- insert_by_dist_perm. now apply perm_skip.
Qed.

Lemma combine_fst_snd {A B} (l : list (A * B)) :
  combine (map fst l) (map snd l) = l.
Proof. induction l as [|[a b] l IH]; simpl; congruence. Qed.

(** What one call of [polyfit]/[polyval] in [_interpol] yields. *)
Lemma polyfit_sorted pts deg :
  pts <> [] -> ~ normal_det deg (sums_of pts) == 0 ->
  exists p, polyfit (map fst (sort_by_dist pts)) (map snd (sort_by_dist pts)) deg = Ok p
            /\ polyval p 0 == fit_at_target deg pts.
Proof.
  intros Hne HD. pose proof (sort_by_dist_perm pts) as HP.
  pose proof (sums_of_perm _ _ HP) as HS.
  unfold polyfit.
  destruct (map fst (sort_by_dist pts)) eqn:E.
  { apply map_eq_nil in E. rewrite E in HP. apply Permutation_sym, Permutation_nil in HP. contradiction. }
  rewrite <- E. rewrite !length_map, Nat.eqb_refl. simpl negb. cbv iota.
  rewrite combine_fst_snd.
  destruct (Qeq_bool (normal_det deg (sums_of (sort_by_dist pts))) 0) eqn:ED.
  { apply Qeq_bool_iff in ED. rewrite <- (normal_det_proper deg _ _ HS) in ED. contradiction. }
  eexists. split; [reflexivity|]. unfold fit_at_target. symmetry.
  now apply polyval_lsq_proper.
Qed.

Lemma moment_fst k (pts : list (Q * Q)) :
  moment k pts = moment k (map (fun x => (x, 0)) (map fst pts)).
Proof. unfold moment. now rewrite !map_map. Qed.

Lemma normal_det_spread deg pts :
  normal_det deg (sums_of pts) = spread deg (map fst pts).
Proof.
  unfold spread. destruct deg as [|[|[|deg]]]; simpl; try reflexivity;
    now rewrite !(moment_fst _ pts).
Qed.

Lemma map_fst_combine {A B} (l : list A) (l' : list B) :
  List.length l = List.length l' -> map fst (combine l l') = l.
Proof.
  revert l'; induction l as [|a l IH]; intros [|b l']; simpl; try discriminate; auto.
  intros H. f_equal. apply IH. congruence.
Qed.

Lemma gather_points kind param l c (items : list (string * ndarray)) kvs ys :
  for_each (fun kv : string * ndarray => key_value kind (fst kv)) items = Ok kvs ->
  for_each (fun kv : string * ndarray => getitem (snd kv) l c) items = Ok ys ->
  for_each (fun kv : string * ndarray =>
              let (k, v) := kv in
              kv ← key_value kind k;
              p ← getitem v l c;
              Ok (kv - param, p)) items
  = Ok (combine (map (fun kv => kv - param) kvs) ys).
Proof.
  revert kvs ys. induction items as [|[k v] items IH]; simpl; intros kvs ys Hk Hy.
  - inversion Hk; inversion Hy; reflexivity.
  - apply bind_Ok in Hk as (kv & Hkv & Hk). apply bind_Ok in Hk as (kvs' & Hkvs & Hk).
    apply bind_Ok in Hy as (y & Hyv & Hy). apply bind_Ok in Hy as (ys' & Hys & Hy).
    inversion Hk; inversion Hy; subst. simpl in Hkv, Hyv. rewrite Hkv. simpl.
    rewrite Hyv. simpl. rewrite (IH _ _ Hkvs Hys). reflexivity.
Qed.

Lemma _interpol_cells (models : gmap string ndarray) param kind L C kvs :
  let items := map_to_list models in
  let deg := if (2 <? List.length items)%nat then 2%nat else 1%nat in
  for_each (fun kv : string * ndarray => key_value kind (fst kv)) items = Ok kvs ->
  (forall kv, In kv items ->
     wf_array (snd kv) /\ (L <= shape0 (snd kv))%nat /\ (C <= shape1 (snd kv))%nat) ->
  (0 < L)%nat -> (0 < C)%nat -> items <> [] ->
  ~ spread deg (map (fun kv => kv - param) kvs) == 0 ->
  exists arr,
    _interpol models param kind L C = Ok {[ result_name kind items := arr ]} /\
    shape0 arr = L /\ shape1 arr = C /\ wf_array arr /\
    forall l c, (l < L)%nat -> (c < C)%nat ->
      exists ys v,
        for_each (fun kv : string * ndarray => getitem (snd kv) l c) items = Ok ys /\
        getitem arr l c = Ok v /\
        v == fit_at_target deg (combine (map (fun kv => kv - param) kvs) ys).
Proof.
  intros items deg Hk Hwf HL HC Hne HD.
  assert (Hys : forall l c, (l < L)%nat -> (c < C)%nat -> exists ys,
    for_each (fun kv : string * ndarray => getitem (snd kv) l c) items = Ok ys).
  { intros l c Hl Hc. apply for_each_total. intros kv Hin.
    destruct (Hwf kv Hin) as (W & W0 & W1). apply getitem_wf; auto; lia. }
  assert (Hlen : List.length kvs = List.length items).
  { now apply for_each_length in Hk. }
  set (cell := fun layer column : nat =>
    pts ← for_each (fun kv : string * ndarray =>
             let (k, v) := kv in
             kv ← key_value kind k;
             p ← getitem v layer column;
             Ok (kv - param, p)) items;
    let pts := sort_by_dist pts in
    p ← polyfit (map fst pts) (map snd pts) deg;
    Ok (polyval p 0)).
  assert (Hcell : forall l c ys,
    for_each (fun kv : string * ndarray => getitem (snd kv) l c) items = Ok ys ->
    exists v, cell l c = Ok v /\
      v == fit_at_target deg (combine (map (fun kv => kv - param) kvs) ys)).
  { intros l c ys Hy. unfold cell. rewrite (gather_points _ _ _ _ _ _ _ Hk Hy). simpl.
    assert (Hl2 : List.length (map (fun kv => kv - param) kvs) = List.length ys).
    { rewrite length_map, Hlen. symmetry. now apply for_each_length in Hy. }
    destruct (polyfit_sorted (combine (map (fun kv => kv - param) kvs) ys) deg)
      as (p & Hp & Hv).
    - intros E. apply (f_equal (@List.length _)) in E. rewrite length_combine in E.
      rewrite <- Hl2, Nat.min_id, length_map, Hlen in E. simpl in E.
      destruct items; [now apply Hne | discriminate].
    - rewrite normal_det_spread, map_fst_combine by exact Hl2. exact HD.
    - rewrite Hp. simpl. eauto. }
  destruct (fill_array_total L C cell) as [arr Harr].
  { intros l c Hl Hc. destruct (Hys l c Hl Hc) as [ys Hy].
    destruct (Hcell l c ys Hy) as (v & Hv & _). now exists v. }
  destruct (fill_array_shape _ _ _ _ Harr) as (A0 & A1 & Awf).
  exists arr. split; [|split; [exact A0|split; [exact A1|split; [exact Awf|]]]].
  - unfold _interpol. fold items. fold deg. fold cell. rewrite Harr. simpl.
    apply Nat.ltb_lt in HL, HC. rewrite HL, HC. simpl.
    unfold result_name.
    destruct (List.last (map Some (map fst items)) None) as [k|] eqn:El; [reflexivity|].
    exfalso. destruct items as [|it items']; [now apply Hne|].
    clear -El. simpl in El. revert it El.
    induction items' as [|b l IH]; intros a El; simpl in *; [discriminate|].
    now apply (IH b).
  - intros l c Hl Hc. destruct (Hys l c Hl Hc) as [ys Hy].
    destruct (Hcell l c ys Hy) as (v & Hv & Ev).
    destruct (fill_array_getitem _ _ _ _ l c Harr Hl Hc) as (v' & G & Hv').
    rewrite Hv in Hv'. inversion Hv'; subst v'.
    exists ys, (Qred v). split; [exact Hy|]. split; [exact G|].
    now rewrite Qred_correct.
Qed.

(** The same with the enumeration of the dictionary, the degree and the
    resulting key given explicitly. *)
Lemma _interpol_on (models : gmap string ndarray) param kind L C
    (items : list (string * ndarray)) kvs deg name :
  map_to_list models = items ->
  deg = (if (2 <? List.length items)%nat then 2%nat else 1%nat) ->
  result_name kind items = name ->
  for_each (fun kv : string * ndarray => key_value kind (fst kv)) items = Ok kvs ->
  (forall kv, In kv items ->
     wf_array (snd kv) /\ (L <= shape0 (snd kv))%nat /\ (C <= shape1 (snd kv))%nat) ->
  (0 < L)%nat -> (0 < C)%nat -> items <> [] ->
  ~ spread deg (map (fun kv => kv - param) kvs) == 0 ->
  exists arr,
    _interpol models param kind L C = Ok {[ name := arr ]} /\
    shape0 arr = L /\ shape1 arr = C /\ wf_array arr /\
    forall l c, (l < L)%nat -> (c < C)%nat ->
      exists ys v,
        for_each (fun kv : string * ndarray => getitem (snd kv) l c) items = Ok ys /\
        getitem arr l c = Ok v /\
        v == fit_at_target deg (combine (map (fun kv => kv - param) kvs) ys).
Proof.
  intros <- -> <-. apply _interpol_cells.
Qed.

Ltac step H := rewrite H; cbv beta iota delta [mbind res_bind].

Lemma first_collapse_steps rm mnames teff tt logg g1 g2 feh f1 f2
    models L C M1 M2 M3 M4 t1 t2 t3 t4 :
  load_models rm mnames ∅ = Ok models ->
  py_min (map shape0 (values models)) = Ok L ->
  py_min (map shape1 (values models)) = Ok C ->
  sort_models models g1 g2 f1 f2 = (M1, M2, M3, M4) ->
  _interpol M1 teff "teff" L C = Ok t1 ->
  _interpol M2 teff "teff" L C = Ok t2 ->
  _interpol M3 teff "teff" L C = Ok t3 ->
  _interpol M4 teff "teff" L C = Ok t4 ->
  first_collapse rm mnames (teff, tt) (logg, (g1, g2)) (feh, (f1, f2))
  = Ok (t1, t2, t3, t4, L, C).
Proof.
  intros H1 H2 H3 H4 H5 H6 H7 H8. unfold first_collapse.
  step H1. step H2. step H3. step H4. step H5. step H6. step H7. step H8.
  reflexivity.
Qed.

Lemma second_collapse_steps rm mnames teff logg feh t1 t2 t3 t4 L C
    La Lb L1 L2 l1 l2 :
  first_collapse rm mnames teff logg feh = Ok (t1, t2, t3, t4, L, C) ->
  file_under (t1, ∅) t2 = Ok La ->
  file_under La t3 = Ok Lb ->
  file_under Lb t4 = Ok (L1, L2) ->
  _interpol L1 (fst logg) "logg" L C = Ok l1 ->
  _interpol L2 (fst logg) "logg" L C = Ok l2 ->
  second_collapse rm mnames teff logg feh = Ok (l2 ∪ l1, L, C).
Proof.
  intros H1 H2 H3 H4 H5 H6. unfold second_collapse.
  step H1. step H2. step H3. step H4. step H5. step H6. reflexivity.
Qed.

Lemma interpolatorN7_steps rm mnames teff logg feh M L C name arr :
  second_collapse rm mnames teff logg feh = Ok (M, L, C) ->
  _interpol M (fst feh) "feh" L C = Ok {[ name := arr ]} ->
  interpolatorN7 rm mnames teff logg feh = Ok arr.
Proof.
  intros H1 H2. unfold interpolatorN7. step H1. step H2.
  now rewrite values_singleton.
Qed.

Lemma for_each_map_ok {A B} (f : A -> res B) (g : A -> B) l :
  (forall x, In x l -> f x = Ok (g x)) -> for_each f l = Ok (map g l).
Proof.
  induction l as [|a l IH]; simpl; intros H; [reflexivity|].
  rewrite (H a) by now left. simpl. rewrite IH; [reflexivity|].
  intros; apply H; now right.
Qed.

Lemma _interpol_values (models : gmap string ndarray) param kind L C
    (items : list (string * ndarray)) kvs deg name :
  map_to_list models = items ->
  deg = (if (2 <? List.length items)%nat then 2%nat else 1%nat) ->
  result_name kind items = name ->
  for_each (fun kv : string * ndarray => key_value kind (fst kv)) items = Ok kvs ->
  (forall kv, In kv items ->
     wf_array (snd kv) /\ (L <= shape0 (snd kv))%nat /\ (C <= shape1 (snd kv))%nat) ->
  (0 < L)%nat -> (0 < C)%nat -> items <> [] ->
  ~ spread deg (map (fun kv => kv - param) kvs) == 0 ->
  exists arr,
    _interpol models param kind L C = Ok {[ name := arr ]} /\
    (wf_array arr /\ (L <= shape0 arr)%nat /\ (C <= shape1 arr)%nat) /\
    shape0 arr = L /\ shape1 arr = C /\
    forall l c, (l < L)%nat -> (c < C)%nat ->
      cell_value arr l c ==
      fit_at_target deg
        (combine (map (fun kv => kv - param) kvs)
                 (map (fun kv : string * ndarray => cell_value (snd kv) l c) items)).
Proof.
  intros Hi Hd Hn Hk Hwf HL HC Hne HD.
  destruct (_interpol_on models param kind L C items kvs deg name Hi Hd Hn Hk Hwf HL HC Hne HD)
    as (arr & Harr & S0 & S1 & W & Hcells).
  exists arr. split; [exact Harr|]. split; [split; [exact W|lia]|].
  split; [exact S0|]. split; [exact S1|].
  intros l c Hl Hc. destruct (Hcells l c Hl Hc) as (ys & v & Hy & Hv & E).
  unfold cell_value at 1. rewrite Hv.
  assert (ys = map (fun kv : string * ndarray => cell_value (snd kv) l c) items) as ->.
  { assert (for_each (fun kv : string * ndarray => getitem (snd kv) l c) items
            = Ok (map (fun kv : string * ndarray => cell_value (snd kv) l c) items)) as Hy'.
    { apply for_each_map_ok. intros kv Hin. unfold cell_value.
      destruct (Hwf kv Hin) as (Wk & W0 & W1).
      destruct (getitem_wf (snd kv) l c Wk) as [x Hx]; [lia|lia|]. now rewrite Hx. }
    rewrite Hy in Hy'. now inversion Hy'. }
  exact E.
Qed.

Lemma qsum_cons x l : qsum (x :: l) == x + qsum l.
Proof. unfold qsum. rewrite !Qred_correct. reflexivity. Qed.

Lemma qsum_nil : qsum [] == 0.
Proof. reflexivity. Qed.

Lemma spread1_two x1 x2 :
  spread 1 [x1; x2] == (x1 - x2) * (x1 - x2).
Proof.
  unfold spread, normal_det, sums_of, moment, det2; simpl.
  rewrite !qsum_cons, !qsum_nil. simpl. ring.
Qed.

Lemma spread1_nonzero x1 x2 : ~ x1 == x2 -> ~ spread 1 [x1; x2] == 0.
Proof.
  intros H E. rewrite spread1_two in E.
  apply Qmult_integral in E. apply H. destruct E; lra.
Qed.

Lemma spread2_four x1 x2 x3 x4 :
  spread 2 [x1; x2; x3; x4] ==
  vdm x1 x2 x3 * vdm x1 x2 x3 + vdm x1 x2 x4 * vdm x1 x2 x4 +
  vdm x1 x3 x4 * vdm x1 x3 x4 + vdm x2 x3 x4 * vdm x2 x3 x4.
Proof.
  unfold spread, normal_det, sums_of, moment, det3, det2, vdm; simpl.
  rewrite !qsum_cons, !qsum_nil. simpl. ring.
Qed.

Lemma square_nonneg (a : Q) : 0 <= a * a.
Proof. nra. Qed.

Lemma spread2_nonzero x1 x2 x3 x4 :
  ~ x1 == x2 -> ~ x1 == x3 -> ~ x2 == x3 ->
  ~ spread 2 [x1; x2; x3; x4] == 0.
Proof.
  intros H12 H13 H23 E. rewrite spread2_four in E.
  assert (~ vdm x1 x2 x3 == 0) as Hv.
  { unfold vdm. intros Hz. apply Qmult_integral in Hz as [Hz|Hz].
    - apply Qmult_integral in Hz as [Hz|Hz]; [apply H12|apply H13]; lra.
    - apply H23; lra. }
  pose proof (square_nonneg (vdm x1 x2 x3)).
  pose proof (square_nonneg (vdm x1 x2 x4)).
  pose proof (square_nonneg (vdm x1 x3 x4)).
  pose proof (square_nonneg (vdm x2 x3 x4)).
  assert (vdm x1 x2 x3 * vdm x1 x2 x3 == 0) as Hz by lra.
  apply Qmult_integral in Hz. tauto.
Qed.

(** The coefficients solve the normal equations, that is, the residual
    of the fitted polynomial is orthogonal to every power up to the
    degree: this is what makes the fit a least-squares fit. *)
Lemma lsq_coeffs_normal_1 (s : sums) :
  ~ normal_det 1 s == 0 ->
  exists c1 c0, lsq_coeffs 1 s = [c1; c0] /\
    S2 s * c1 + S1 s * c0 == T1 s /\
    S1 s * c1 + S0 s * c0 == T0 s.
Proof.
  intros HD. eexists _, _. split; [reflexivity|].
  unfold normal_det, det2 in *. split; field; exact HD.
Qed.

Lemma lsq_coeffs_normal_2 (s : sums) :
  ~ normal_det 2 s == 0 ->
  exists c2 c1 c0, lsq_coeffs 2 s = [c2; c1; c0] /\
    S4 s * c2 + S3 s * c1 + S2 s * c0 == T2 s /\
    S3 s * c2 + S2 s * c1 + S1 s * c0 == T1 s /\
    S2 s * c2 + S1 s * c1 + S0 s * c0 == T0 s.
Proof.
  intros HD. eexists _, _, _. split; [reflexivity|].
  unfold normal_det, det3, det2 in *. repeat split; field; exact HD.
Qed.

(** Two samples: the fit is the line through them, read at distance 0. *)
Lemma fit_two_points x1 y1 x2 y2 :
  ~ x1 == x2 ->
  fit_at_target 1 [(x1, y1); (x2, y2)]
  == y1 + (0 - x1) * ((y2 - y1) / (x2 - x1)).
Proof.
  intros H. unfold fit_at_target, polyval, lsq_coeffs, normal_det, sums_of.
  cbn [fold_left S0 S1 S2 T0 T1]. unfold moment, cross, det2.
  cbn [map fst snd qpow]. rewrite !qsum_cons, !qsum_nil.
  field. split.
  - intros E. apply H. lra.
  - intros E.
    assert ((x1 - x2) * (x1 - x2) == 0) as E' by (rewrite <- E; ring).
    apply Qmult_integral in E'. apply H. destruct E'; lra.
Qed.

Lemma lsq_exact_quadratic (s : sums) (a b c : Q) :
  ~ normal_det 2 s == 0 ->
  T0 s == a * S0 s + b * S1 s + c * S2 s ->
  T1 s == a * S1 s + b * S2 s + c * S3 s ->
  T2 s == a * S2 s + b * S3 s + c * S4 s ->
  polyval (lsq_coeffs 2 s) 0 == a.
Proof.
  intros HD E0 E1 E2. unfold polyval, lsq_coeffs. cbn [fold_left].
  unfold normal_det, det3, det2 in *. rewrite E0, E1, E2. field. exact HD.
Qed.

(** Four samples of a parabola: the degree-2 fit returns the parabola's
    value at distance 0. *)
Lemma fit_four_points_on_parabola (a b c x1 x2 x3 x4 : Q) :
  ~ x1 == x2 -> ~ x1 == x3 -> ~ x2 == x3 ->
  let q := fun x => a + b * x + c * (x * x) in
  fit_at_target 2 [(x1, q x1); (x2, q x2); (x3, q x3); (x4, q x4)] == a.
Proof.
  intros H12 H13 H23 q. unfold fit_at_target.
  apply (lsq_exact_quadratic _ a b c).
  - rewrite normal_det_spread. cbn [map fst]. now apply spread2_nonzero.
  - unfold sums_of, moment, cross, q.
    cbn [S0 S1 S2 S3 S4 T0 T1 T2 map fst snd qpow].
    rewrite !qsum_cons, !qsum_nil. ring.
  - unfold sums_of, moment, cross, q.
    cbn [S0 S1 S2 S3 S4 T0 T1 T2 map fst snd qpow].
    rewrite !qsum_cons, !qsum_nil. ring.
  - unfold sums_of, moment, cross, q.
    cbn [S0 S1 S2 S3 S4 T0 T1 T2 map fst snd qpow].
    rewrite !qsum_cons, !qsum_nil. ring.
Qed.

Lemma load_models_all rm src names d :
  (forall n, In n names -> rm n = Ok (src n)) ->
  load_models rm names d = Ok (loaded src names d).
Proof.
  revert d. induction names as [|n names IH]; intros d H; simpl; [reflexivity|].
  rewrite (H n) by now left. simpl. apply IH. intros; apply H; now right.
Qed.

Lemma mem_sound (x : string) (l : list string) :
  existsb (String.eqb x) l = true -> In x l.
Proof.
  intros H. apply existsb_exists in H as (y & Hy & E).
  apply String.eqb_eq in E. now subst.
Qed.

Lemma incl_sound (l l' : list string) :
  forallb (fun x => existsb (String.eqb x) l') l = true -> incl l l'.
Proof.
  intros H x Hx. rewrite forallb_forall in H. apply mem_sound. now apply H.
Qed.

Lemma dict_eq (m1 m2 : dict) : map_to_list m1 = map_to_list m2 -> m1 = m2.
Proof. intros H. apply map_to_list_inj. now rewrite H. Qed.

Lemma tuple4_eq {A B C D : Type} (x : A * B * C * D) a b c d :
  fst (fst (fst x)) = a -> snd (fst (fst x)) = b -> snd (fst x) = c -> snd x = d ->
  x = (a, b, c, d).
Proof. destruct x as [[[? ?] ?] ?]; simpl; congruence. Qed.

Lemma res_pair_eq (r : res (dict * dict)) (a b : dict) :
  match r with
  | Ok (x, y) => map_to_list x = map_to_list a /\ map_to_list y = map_to_list b
  | Raise _ => False
  end -> r = Ok (a, b).
Proof.
  destruct r as [[x y]|e]; [|intros []].
  intros [Hx Hy]. now rewrite (dict_eq _ _ Hx), (dict_eq _ _ Hy).
Qed.

Ltac in_names := apply mem_sound; vm_compute; reflexivity.

Section Grid.

Variable rm : string -> res ndarray.
Variable src : string -> ndarray.
Variables teff logg feh : Q.
Hypothesis Hrm : forall n, In n grid_names -> rm n = Ok (src n).
Hypothesis Hwf : forall n, In n grid_names ->
  wf_array (src n) /\ (0 < shape0 (src n))%nat /\ (0 < shape1 (src n))%nat.

Lemma grid_shape :
  exists L C,
    py_min (map shape0 (values (loaded src grid_names ∅))) = Ok L /\
    py_min (map shape1 (values (loaded src grid_names ∅))) = Ok C /\
    (0 < L)%nat /\ (0 < C)%nat /\
    forall n, In n grid_names -> well_shaped L C (src n).
Proof.
  assert (Hvals : exists perm, values (loaded src grid_names ∅) = map src perm /\
            incl grid_names perm /\ incl perm grid_names /\ perm <> []).
  { exists (map (fun k => (if String.eqb (slice_last k 6) "m05.gz"
                           then "kurucz95/m05/" else "kurucz95/p00/") ++ k)%string
                (keys (loaded src grid_names ∅))).
    split; [vm_compute; reflexivity|].
    split; [apply incl_sound; vm_compute; reflexivity|].
    split; [apply incl_sound; vm_compute; reflexivity|].
    vm_compute; discriminate. }
  destruct Hvals as (perm & Hvals & Hin1 & Hin2 & Hne).
  rewrite Hvals. clear Hvals.
  destruct (py_min_total (map shape0 (map src perm))) as [L HLmin].
  { destruct perm; [congruence | discriminate]. }
  destruct (py_min_total (map shape1 (map src perm))) as [C HCmin].
  { destruct perm; [congruence | discriminate]. }
  exists L, C. split; [exact HLmin|]. split; [exact HCmin|].
  split; [|split].
  - apply py_min_In in HLmin. apply in_map_iff in HLmin as (m & <- & Hm).
    apply in_map_iff in Hm as (n & <- & Hn). apply Hwf. now apply Hin2.
  - apply py_min_In in HCmin. apply in_map_iff in HCmin as (m & <- & Hm).
    apply in_map_iff in Hm as (n & <- & Hn). apply Hwf. now apply Hin2.
  - intros n Hn. split; [now apply Hwf|].
    assert (In (src n) (map src perm)) as Hv by (apply in_map; now apply Hin1).
    split.
    + eapply py_min_le; [exact HLmin|]. now apply in_map.
    + eapply py_min_le; [exact HCmin|]. now apply in_map.
Qed.

Ltac teff_column :=
  intros HL HC Hsrc;
  apply (_interpol_values _ teff "teff" _ _ _ [5750; 5500; 5250; 5000] 2%nat);
  [ vm_compute; reflexivity
  | reflexivity
  | vm_compute; reflexivity
  | vm_compute; reflexivity
  | let kv := fresh "kv" in let Hin := fresh "Hin" in
    intros kv Hin; simpl in Hin;
    repeat (destruct Hin as [<-|Hin]; [apply Hsrc; in_names|]); destruct Hin
  | exact HL | exact HC
  | discriminate
  | apply spread2_nonzero; intros E; lra ].

Lemma teff_column_g40_m05 L C :
  (0 < L)%nat -> (0 < C)%nat ->
  (forall n, In n grid_names -> well_shaped L C (src n)) ->
  exists arr,
    _interpol (list_to_map (column_items src "kurucz95/m05/" "g40.m05.gz"))
      teff "teff" L C = Ok {[ "40.m05"%string := arr ]} /\
    well_shaped L C arr /\ shape0 arr = L /\ shape1 arr = C /\
    forall l c, (l < L)%nat -> (c < C)%nat ->
      cell_value arr l c == teff_fit teff src l c "kurucz95/m05/" "g40.m05.gz".
Proof. teff_column. Qed.

Lemma teff_column_g40_p00 L C :
  (0 < L)%nat -> (0 < C)%nat ->
  (forall n, In n grid_names -> well_shaped L C (src n)) ->
  exists arr,
    _interpol (list_to_map (column_items src "kurucz95/p00/" "g40.p00.gz"))
      teff "teff" L C = Ok {[ "40.p00"%string := arr ]} /\
    well_shaped L C arr /\ shape0 arr = L /\ shape1 arr = C /\
    forall l c, (l < L)%nat -> (c < C)%nat ->
      cell_value arr l c == teff_fit teff src l c "kurucz95/p00/" "g40.p00.gz".
Proof. teff_column. Qed.

Lemma teff_column_g45_m05 L C :
  (0 < L)%nat -> (0 < C)%nat ->
  (forall n, In n grid_names -> well_shaped L C (src n)) ->
  exists arr,
    _interpol (list_to_map (column_items src "kurucz95/m05/" "g45.m05.gz"))
      teff "teff" L C = Ok {[ "45.m05"%string := arr ]} /\
    well_shaped L C arr /\ shape0 arr = L /\ shape1 arr = C /\
    forall l c, (l < L)%nat -> (c < C)%nat ->
      cell_value arr l c == teff_fit teff src l c "kurucz95/m05/" "g45.m05.gz".
Proof. teff_column. Qed.

Lemma teff_column_g45_p00 L C :
  (0 < L)%nat -> (0 < C)%nat ->
  (forall n, In n grid_names -> well_shaped L C (src n)) ->
  exists arr,
    _interpol (list_to_map (column_items src "kurucz95/p00/" "g45.p00.gz"))
      teff "teff" L C = Ok {[ "45.p00"%string := arr ]} /\
    well_shaped L C arr /\ shape0 arr = L /\ shape1 arr = C /\
    forall l c, (l < L)%nat -> (c < C)%nat ->
      cell_value arr l c == teff_fit teff src l c "kurucz95/p00/" "g45.p00.gz".
Proof. teff_column. Qed.

Ltac pair_fit t W1 W2 :=
  destruct t as (arr & E & W & S0 & S1 & V);
  [ vm_compute; reflexivity
  | reflexivity
  | vm_compute; reflexivity
  | vm_compute; reflexivity
  | let kv := fresh "kv" in let Hin := fresh "Hin" in
    intros kv Hin; simpl in Hin;
    destruct Hin as [<-|[<-|[]]]; [exact W1 | exact W2]
  | assumption | assumption
  | discriminate
  | apply spread1_nonzero; intros E; lra
  | ].

Lemma logg_pair_m05 L C B11 B21 :
  (0 < L)%nat -> (0 < C)%nat -> well_shaped L C B11 -> well_shaped L C B21 ->
  exists arr,
    _interpol (<["45.m05"%string := B21]> {[ "40.m05"%string := B11 ]})
      logg "logg" L C = Ok {[ "40.m05"%string := arr ]} /\
    well_shaped L C arr /\ shape0 arr = L /\ shape1 arr = C /\
    forall l c, (l < L)%nat -> (c < C)%nat ->
      cell_value arr l c == logg_fit logg (cell_value B11 l c) (cell_value B21 l c).
Proof.
  intros HL HC W1 W2.
  pair_fit (_interpol_values (<["45.m05"%string := B21]> {[ "40.m05"%string := B11 ]})
              logg "logg" L C [("45.m05"%string, B21); ("40.m05"%string, B11)]
              [4.5; 4.0] 1%nat "40.m05")
    W2 W1.
  exists arr. split; [exact E|]. split; [exact W|]. split; [exact S0|].
  split; [exact S1|]. exact V.
Qed.

Lemma logg_pair_p00 L C B12 B22 :
  (0 < L)%nat -> (0 < C)%nat -> well_shaped L C B12 -> well_shaped L C B22 ->
  exists arr,
    _interpol (<["45.p00"%string := B22]> {[ "40.p00"%string := B12 ]})
      logg "logg" L C = Ok {[ "40.p00"%string := arr ]} /\
    well_shaped L C arr /\ shape0 arr = L /\ shape1 arr = C /\
    forall l c, (l < L)%nat -> (c < C)%nat ->
      cell_value arr l c == logg_fit logg (cell_value B12 l c) (cell_value B22 l c).
Proof.
  intros HL HC W1 W2.
  pair_fit (_interpol_values (<["45.p00"%string := B22]> {[ "40.p00"%string := B12 ]})
              logg "logg" L C [("45.p00"%string, B22); ("40.p00"%string, B12)]
              [4.5; 4.0] 1%nat "40.p00")
    W2 W1.
  exists arr. split; [exact E|]. split; [exact W|]. split; [exact S0|].
  split; [exact S1|]. exact V.
Qed.

Lemma feh_pair L C A1 A2 :
  (0 < L)%nat -> (0 < C)%nat -> well_shaped L C A1 -> well_shaped L C A2 ->
  exists arr,
    _interpol ({[ "40.p00"%string := A2 ]} ∪ {[ "40.m05"%string := A1 ]})
      feh "feh" L C = Ok {[ "40.p00"%string := arr ]} /\
    well_shaped L C arr /\ shape0 arr = L /\ shape1 arr = C /\
    forall l c, (l < L)%nat -> (c < C)%nat ->
      cell_value arr l c == feh_fit feh (cell_value A1 l c) (cell_value A2 l c).
Proof.
  intros HL HC W1 W2.
  pair_fit (_interpol_values ({[ "40.p00"%string := A2 ]} ∪ {[ "40.m05"%string := A1 ]})
              feh "feh" L C [("40.m05"%string, A1); ("40.p00"%string, A2)]
              [-0.5; 0.0] 1%nat "40.p00")
    W1 W2.
  exists arr. split; [exact E|]. split; [exact W|]. split; [exact S0|].
  split; [exact S1|]. exact V.
Qed.

Lemma grid_sorted :
  sort_models (loaded src grid_names ∅) 4.0 4.5 (-0.5) 0.0
  = (list_to_map (column_items src "kurucz95/m05/" "g40.m05.gz"),
     list_to_map (column_items src "kurucz95/p00/" "g40.p00.gz"),
     list_to_map (column_items src "kurucz95/m05/" "g45.m05.gz"),
     list_to_map (column_items src "kurucz95/p00/" "g45.p00.gz")).
Proof. apply tuple4_eq; apply dict_eq; vm_compute; reflexivity. Qed.

Lemma grid_filing (B11 B12 B21 B22 : ndarray) :
  (La ← file_under ({[ "40.m05"%string := B11 ]}, ∅) {[ "40.p00"%string := B12 ]};
   Lb ← file_under La {[ "45.m05"%string := B21 ]};
   file_under Lb {[ "45.p00"%string := B22 ]})
  = Ok (<["45.m05"%string := B21]> {[ "40.m05"%string := B11 ]},
        <["45.p00"%string := B22]> {[ "40.p00"%string := B12 ]}).
Proof. apply res_pair_eq. vm_compute. split; reflexivity. Qed.

Lemma grid_interpolatorN7 :
  exists deck L C,
    interpolatorN7 rm grid_names (teff, grid_teff) (logg, grid_logg) (feh, grid_feh)
      = Ok deck /\
    shape0 deck = L /\ shape1 deck = C /\ (0 < L)%nat /\ (0 < C)%nat /\
    forall l c, (l < L)%nat -> (c < C)%nat ->
      exists b11 b12 b21 b22 a1 a2,
        b11 == teff_fit teff src l c "kurucz95/m05/" "g40.m05.gz" /\
        b12 == teff_fit teff src l c "kurucz95/p00/" "g40.p00.gz" /\
        b21 == teff_fit teff src l c "kurucz95/m05/" "g45.m05.gz" /\
        b22 == teff_fit teff src l c "kurucz95/p00/" "g45.p00.gz" /\
        a1 == logg_fit logg b11 b21 /\
        a2 == logg_fit logg b12 b22 /\
        cell_value deck l c == feh_fit feh a1 a2.
Proof.
  destruct grid_shape as (L & C & HLmin & HCmin & HL & HC & Hsrc).
  destruct (teff_column_g40_m05 L C HL HC Hsrc) as (B11 & E11 & W11 & _ & _ & V11).
  destruct (teff_column_g40_p00 L C HL HC Hsrc) as (B12 & E12 & W12 & _ & _ & V12).
  destruct (teff_column_g45_m05 L C HL HC Hsrc) as (B21 & E21 & W21 & _ & _ & V21).
  destruct (teff_column_g45_p00 L C HL HC Hsrc) as (B22 & E22 & W22 & _ & _ & V22).
  destruct (logg_pair_m05 L C B11 B21 HL HC W11 W21) as (A1 & EA1 & WA1 & _ & _ & VA1).
  destruct (logg_pair_p00 L C B12 B22 HL HC W12 W22) as (A2 & EA2 & WA2 & _ & _ & VA2).
  destruct (feh_pair L C A1 A2 HL HC WA1 WA2) as (deck & ED & _ & S0 & S1 & VD).
  pose proof (first_collapse_steps rm grid_names teff grid_teff logg 4.0 4.5 feh (-0.5) 0.0
                _ L C _ _ _ _ _ _ _ _
                (load_models_all rm src grid_names ∅ Hrm) HLmin HCmin grid_sorted
                E11 E12 E21 E22) as H1.
  pose proof (grid_filing B11 B12 B21 B22) as HF.
  destruct (file_under ({[ "40.m05"%string := B11 ]}, ∅) {[ "40.p00"%string := B12 ]})
    as [La|] eqn:Ea; [|discriminate].
  cbv beta iota delta [mbind res_bind] in HF.
  destruct (file_under La {[ "45.m05"%string := B21 ]}) as [Lb|] eqn:Eb; [|discriminate].
  cbv beta iota delta [mbind res_bind] in HF.
  pose proof (second_collapse_steps rm grid_names (teff, grid_teff) (logg, grid_logg)
                (feh, grid_feh) _ _ _ _ L C La Lb _ _ _ _ H1 Ea Eb HF EA1 EA2) as H2.
  pose proof (interpolatorN7_steps rm grid_names (teff, grid_teff) (logg, grid_logg)
                (feh, grid_feh) _ L C _ deck H2 ED) as H3.
  exists deck, L, C. split; [exact H3|]. split; [exact S0|]. split; [exact S1|].
  split; [exact HL|]. split; [exact HC|].
  intros l c Hl Hc.
  exists (cell_value B11 l c), (cell_value B12 l c), (cell_value B21 l c),
         (cell_value B22 l c), (cell_value A1 l c), (cell_value A2 l c).
  repeat split; auto.
Qed.

End Grid.

(** The second collapse of [interpolatorN7] is over gravity: on grid
    files whose cells only depend on the gravity, the tables it leaves
    hold 2/5, the gravity fit at logg 4.2, whatever metallicity is
    requested, whereas a collapse over metallicity leaves the values 0
    and 1 of the two gravities. *)
Lemma second_collapse_is_over_gravity :
  let run := fun logg feh =>
    table_values (second_collapse gravity_only grid_names
                    (5300, grid_teff) (logg, grid_logg) (feh, grid_feh)) in
  run 4.2 (-0.2) = Ok [[[2 # 5]]; [[2 # 5]]] /\
  run 4.2 (-0.4) = run 4.2 (-0.2) /\
  run 4.4 (-0.2) <> run 4.2 (-0.2) /\
  exists v v',
    table_values (as_specified.second_collapse gravity_only grid_names
                    (5300, grid_teff) (4.2, grid_logg) (-0.2, grid_feh))
      = Ok [v; v'] /\
    ((v = [[0]] /\ v' = [[1]]) \/ (v = [[1]] /\ v' = [[0]])).
Proof.
  cbv zeta.
  split; [vm_compute; reflexivity|]. split; [vm_compute; reflexivity|].
  split; [vm_compute; intros H; inversion H|].
  eexists _, _. split; [vm_compute; reflexivity|]. right. split; reflexivity.
Qed.

(** The two orders end in the same model all the same: on this input the
    final tables agree. *)
Lemma orders_agree_in_the_end :
  interpolatorN7 gravity_only grid_names
    (5300, grid_teff) (4.2, grid_logg) (-0.2, grid_feh)
  = as_specified.interpolatorN7 gravity_only grid_names
      (5300, grid_teff) (4.2, grid_logg) (-0.2, grid_feh).
Proof. vm_compute. reflexivity. Qed.

Lemma Qeq_bool_sym a b : Qeq_bool a b = Qeq_bool b a.
Proof.
  destruct (Qeq_bool a b) eqn:E1, (Qeq_bool b a) eqn:E2; auto.
  - apply Qeq_bool_iff in E1. apply Qeq_bool_neq in E2. exfalso; apply E2; now symmetry.
  - apply Qeq_bool_iff in E2. apply Qeq_bool_neq in E1. exfalso; apply E1; now symmetry.
Qed.

Lemma Qeq_bool_trans_l a b c : a == b -> Qeq_bool a c = Qeq_bool b c.
Proof.
  intros H. destruct (Qeq_bool a c) eqn:E1, (Qeq_bool b c) eqn:E2; auto.
  - apply Qeq_bool_iff in E1. apply Qeq_bool_neq in E2. exfalso; apply E2.
    now rewrite <- H.
  - apply Qeq_bool_iff in E2. apply Qeq_bool_neq in E1. exfalso; apply E1.
    now rewrite H.
Qed.

Lemma getitem_setitem d k v q :
  getitem_report (setitem d k v) q
  = if Qeq_bool k q then Ok v else getitem_report d q.
Proof.
  induction d as [|[k' v'] d IH]; simpl.
  - reflexivity.
  - destruct (Qeq_bool k' k) eqn:E; simpl.
    + apply Qeq_bool_iff in E. rewrite (Qeq_bool_trans_l k' k q E).
      destruct (Qeq_bool k q); reflexivity.
    + destruct (Qeq_bool k' q) eqn:E'; [|exact IH].
      destruct (Qeq_bool k q) eqn:E''; [|reflexivity].
      apply Qeq_bool_iff in E', E''. apply Qeq_bool_neq in E. exfalso. apply E.
      now rewrite E', E''.
Qed.

Lemma has_key_setitem d k v q :
  has_key (setitem d k v) q <-> k == q \/ has_key d q.
Proof.
  unfold has_key. rewrite getitem_setitem.
  destruct (Qeq_bool k q) eqn:E.
  - apply Qeq_bool_iff in E. split; eauto.
  - apply Qeq_bool_neq in E. split; [eauto|]. intros [H|H]; [contradiction|exact H].
Qed.

Lemma In_setitem d k v e :
  In e (setitem d k v) -> In e d \/ (fst e == k /\ snd e = v).
Proof.
  induction d as [|[k' v'] d IH]; simpl.
  - intros [<-|[]]. right. simpl. split; reflexivity.
  - destruct (Qeq_bool k' k) eqn:E; simpl.
    + intros [<-|H]; [|auto]. right. simpl. apply Qeq_bool_iff in E. auto.
    + intros [<-|H]; [auto|]. destruct (IH H); auto.
Qed.

Lemma has_key_In d q : has_key d q <-> exists e, In e d /\ fst e == q.
Proof.
  unfold has_key. induction d as [|[k v] d IH]; simpl.
  - split; [intros [w H]; discriminate | intros (e & [] & _)].
  - destruct (Qeq_bool k q) eqn:E.
    + apply Qeq_bool_iff in E. split; [|eauto]. intros _. exists (k, v). auto.
    + apply Qeq_bool_neq in E. rewrite IH. split.
      * intros (e & He & Hq). eauto.
      * intros (e & [<-|He] & Hq); [contradiction|eauto].
Qed.

Lemma distinct_keys_setitem d k v :
  distinct_keys d -> distinct_keys (setitem d k v).
Proof.
  induction d as [|[k' v'] d IH]; simpl; intros Hd.
  - intros [|i] [|j] e1 e2; simpl; try discriminate; auto.
  - assert (Hd' : distinct_keys d).
    { intros i j e1 e2 H1 H2 H. specialize (Hd (S i) (S j) e1 e2 H1 H2 H). lia. }
    assert (Hhd : forall j e, d !! j = Some e -> ~ k' == fst e).
    { intros j e Hj H. specialize (Hd 0%nat (S j) (k', v') e eq_refl Hj H). lia. }
    destruct (Qeq_bool k' k) eqn:E.
    + intros [|i] [|j] e1 e2; simpl; intros H1 H2 H; auto.
      * inversion H1; subst. exfalso. eapply Hhd; eauto.
      * inversion H2; subst. exfalso. eapply Hhd; eauto. now symmetry.
      * f_equal. eapply Hd'; eauto.
    + apply Qeq_bool_neq in E.
      assert (Hhd' : forall j e, setitem d k v !! j = Some e -> ~ k' == fst e).
      { intros j e Hj H. apply list_elem_of_lookup_2, list_elem_of_In, In_setitem in Hj.
        destruct Hj as [Hj|[Hj _]].
        - apply list_elem_of_In, list_elem_of_lookup in Hj as [j' Hj']. eapply Hhd; eauto.
        - apply E. now rewrite H, Hj. }
      intros [|i] [|j] e1 e2; simpl; intros H1 H2 H; auto.
      * inversion H1; subst. exfalso. eapply Hhd'; eauto.
      * inversion H2; subst. exfalso. eapply Hhd'; eauto. now symmetry.
      * f_equal. eapply (IH Hd'); eauto.
Qed.

Lemma distinct_keys_nil : distinct_keys [].
Proof. intros i j e1 e2 H. destruct i; discriminate. Qed.

Lemma collect_cons fe col m n i x xs d :
  collect fe col m n i (x :: xs) d
  = if ge_n_std (Qabs (x - m)) n col
    then wl ← getitem fe i 0; collect fe col m n (S i) xs (setitem d (Qabs (x - m)) wl)
    else collect fe col m n (S i) xs d.
Proof. reflexivity. Qed.

(** What the loop over one stage adds to the dict. *)
Lemma collect_spec fe col n xs : forall i d d',
  (forall j x, xs !! j = Some x -> col !! (i + j)%nat = Some x) ->
  collect fe col (np_mean col) n i xs d = Ok d' ->
  (distinct_keys d -> distinct_keys d') /\
  (forall q, has_key d q -> has_key d' q) /\
  (forall j x, xs !! j = Some x ->
     ge_n_std (Qabs (x - np_mean col)) n col = true ->
     has_key d' (Qabs (x - np_mean col))) /\
  (forall e, In e d' ->
     In e d \/ exists j dev, (j < List.length xs)%nat /\
                flagged_line fe col n (i + j) dev (snd e) /\ fst e == dev).
Proof.
  induction xs as [|x xs IH]; intros i d d' Hcol H.
  - simpl in H. inversion H; subst. repeat split; auto.
    intros j x Hj. destruct j; discriminate.
  - assert (Hcol' : forall j y, xs !! j = Some y -> col !! (S i + j)%nat = Some y).
    { intros j y Hj. specialize (Hcol (S j) y Hj).
      replace (S i + j)%nat with (i + S j)%nat by lia. exact Hcol. }
    assert (Hx : col !! i = Some x).
    { specialize (Hcol 0%nat x eq_refl). now rewrite Nat.add_0_r in Hcol. }
    rewrite collect_cons in H.
    destruct (ge_n_std (Qabs (x - np_mean col)) n col) eqn:Eg.
    + apply bind_Ok in H as (wl & Hwl & H).
      destruct (IH (S i) _ _ Hcol' H) as (I1 & I2 & I3 & I4).
      split; [|split; [|split]].
      * intros Hd. apply I1. now apply distinct_keys_setitem.
      * intros q Hq. apply I2. apply has_key_setitem. auto.
      * intros [|j] y Hy Hg.
        -- simpl in Hy. inversion Hy; subst. apply I2. apply has_key_setitem.
           left. reflexivity.
        -- now apply (I3 j y).
      * intros e He. destruct (I4 e He) as [Hin|(j & dev & Hj & Hf & Hk)].
        -- apply In_setitem in Hin as [Hin|[Hk Hv]]; [auto|].
           right. exists 0%nat, (Qabs (x - np_mean col)). split; [simpl; lia|].
           split; [|exact Hk]. rewrite Nat.add_0_r. exists x. rewrite Hv. auto.
        -- right. exists (S j), dev. split; [simpl; lia|]. split; [|exact Hk].
           replace (i + S j)%nat with (S i + j)%nat by lia. exact Hf.
    + destruct (IH (S i) _ _ Hcol' H) as (I1 & I2 & I3 & I4).
      split; [exact I1|]. split; [exact I2|]. split.
      * intros [|j] y Hy Hg.
        -- simpl in Hy. inversion Hy; subst. congruence.
        -- now apply (I3 j y).
      * intros e He. destruct (I4 e He) as [Hin|(j & dev & Hj & Hf & Hk)]; [auto|].
        right. exists (S j), dev. split; [simpl; lia|]. split; [|exact Hk].
        replace (i + S j)%nat with (S i + j)%nat by lia. exact Hf.
Qed.

Lemma hasOutlier_of_inv fe1 fe2 MOOGv n d :
  hasOutlier_of fe1 fe2 MOOGv n = Ok d ->
  exists c1 c2 d1,
    column fe1 (abundance_column MOOGv) = Ok c1 /\
    column fe2 (abundance_column MOOGv) = Ok c2 /\
    collect fe1 c1 (np_mean c1) n 0 c1 [] = Ok d1 /\
    (if (10 <? shape0 fe2)%nat then collect fe2 c2 (np_mean c2) n 0 c2 d1 else Ok d1)
    = Ok d.
Proof.
  unfold hasOutlier_of, abundance_column. intros H.
  apply bind_Ok in H as (c1 & H1 & H). apply bind_Ok in H as (c2 & H2 & H).
  apply bind_Ok in H as (d1 & H3 & H). eauto 10.
Qed.

(** C7: the default number of standard deviations is 3, and whenever
    [hasOutlier] returns, its report maps deviations to wavelengths such
    that (i) every line of the first stage whose absolute deviation from
    the stage mean is at least [n] standard deviations of the stage has
    its deviation as a key, (ii) so has every such line of the second
    stage provided that stage has strictly more than 10 lines, (iii)
    every entry of the report is the deviation and the wavelength of
    such a line of the first stage, or of the second stage when it has
    more than 10 lines, and (iv) the report is empty exactly when no
    line qualifies. *)
Theorem hasOutlier_flags_beyond_n_sigma
    (fe1 fe2 : ndarray) (MOOGv : Z) (n : Q) (d : report) :
  hasOutlier_of fe1 fe2 MOOGv n = Ok d ->
  sigma defaults = 3 /\
  exists c1 c2,
    column fe1 (abundance_column MOOGv) = Ok c1 /\
    column fe2 (abundance_column MOOGv) = Ok c2 /\
    (forall x, In x c1 -> exceeds c1 n x -> has_key d (Qabs (x - np_mean c1))) /\
    ((10 < shape0 fe2)%nat ->
     forall x, In x c2 -> exceeds c2 n x -> has_key d (Qabs (x - np_mean c2))) /\
    (forall e, In e d ->
       (exists i dev, flagged_line fe1 c1 n i dev (snd e) /\ fst e == dev) \/
       ((10 < shape0 fe2)%nat /\
        exists i dev, flagged_line fe2 c2 n i dev (snd e) /\ fst e == dev)) /\
    (d = [] <->
       (forall x, In x c1 -> ~ exceeds c1 n x) /\
       ((10 < shape0 fe2)%nat -> forall x, In x c2 -> ~ exceeds c2 n x)).
Proof.
  intros H. split; [reflexivity|].
  apply hasOutlier_of_inv in H as (c1 & c2 & d1 & H1 & H2 & H3 & H4).
  exists c1, c2. split; [exact H1|]. split; [exact H2|].
  destruct (collect_spec fe1 c1 n c1 0 [] d1 (fun j x Hj => Hj) H3)
    as (_ & _ & A3 & A4).
  assert (Hfrom1 : forall e, In e d1 ->
            exists i dev, flagged_line fe1 c1 n i dev (snd e) /\ fst e == dev).
  { intros e He. destruct (A4 e He) as [[]|(j & dev & _ & Hf & Hk)]. eauto. }
  assert (Hall : (forall x, In x c1 -> exceeds c1 n x -> has_key d (Qabs (x - np_mean c1))) /\
    ((10 < shape0 fe2)%nat ->
     forall x, In x c2 -> exceeds c2 n x -> has_key d (Qabs (x - np_mean c2))) /\
    (forall e, In e d ->
       (exists i dev, flagged_line fe1 c1 n i dev (snd e) /\ fst e == dev) \/
       ((10 < shape0 fe2)%nat /\
        exists i dev, flagged_line fe2 c2 n i dev (snd e) /\ fst e == dev))).
  { destruct (10 <? shape0 fe2)%nat eqn:E10.
    - apply Nat.ltb_lt in E10.
      destruct (collect_spec fe2 c2 n c2 0 d1 d (fun j x Hj => Hj) H4)
        as (_ & B2 & B3 & B4).
      split; [|split].
      + intros x Hx Hg. apply B2. apply list_elem_of_In, list_elem_of_lookup in Hx as [j Hj].
        now apply (A3 j x).
      + intros _ x Hx Hg. apply list_elem_of_In, list_elem_of_lookup in Hx as [j Hj].
        now apply (B3 j x).
      + intros e He. destruct (B4 e He) as [Hin|(j & dev & _ & Hf & Hk)].
        * left. now apply Hfrom1.
        * right. split; [exact E10|]. eauto.
    - apply Nat.ltb_ge in E10. inversion H4; subst d1.
      split; [|split].
      + intros x Hx Hg. apply list_elem_of_In, list_elem_of_lookup in Hx as [j Hj].
        now apply (A3 j x).
      + intros Hlt. lia.
      + intros e He. left. now apply Hfrom1. }
  destruct Hall as (F1 & F2 & F3). split; [exact F1|]. split; [exact F2|].
  split; [exact F3|]. split.
  - intros ->. split.
    + intros x Hx Hg. destruct (F1 x Hx Hg) as [w Hw]. discriminate.
    + intros Hlt x Hx Hg. destruct (F2 Hlt x Hx Hg) as [w Hw]. discriminate.
  - intros [N1 N2]. destruct d as [|e d]; [reflexivity|]. exfalso.
    destruct (F3 e (or_introl eq_refl)) as [(i & dev & Hf & _)|(Hlt & i & dev & Hf & _)].
    + destruct Hf as (x & Hx & -> & Hg & _). apply (N1 x); [|exact Hg].
      apply list_elem_of_In. eapply list_elem_of_lookup_2; eauto.
    + destruct Hf as (x & Hx & -> & Hg & _). apply (N2 Hlt x); [|exact Hg].
      apply list_elem_of_In. eapply list_elem_of_lookup_2; eauto.
Qed.

(** Two flagged lines with equal deviations share one entry. *)
Lemma hasOutlier_of_distinct fe1 fe2 MOOGv n d :
  hasOutlier_of fe1 fe2 MOOGv n = Ok d -> distinct_keys d.
Proof.
  intros H. apply hasOutlier_of_inv in H as (c1 & c2 & d1 & H1 & H2 & H3 & H4).
  destruct (collect_spec fe1 c1 n c1 0 [] d1 (fun j x Hj => Hj) H3) as (A1 & _).
  specialize (A1 distinct_keys_nil).
  destruct (10 <? shape0 fe2)%nat.
  - destruct (collect_spec fe2 c2 n c2 0 d1 d (fun j x Hj => Hj) H4) as (B1 & _). auto.
  - now inversion H4; subst.
Qed.

Lemma qsum_nonneg (l : list Q) : (forall x, In x l -> 0 <= x) -> 0 <= qsum l.
Proof.
  induction l as [|a l IH]; intros H.
  - rewrite qsum_nil. apply Qle_refl.
  - rewrite qsum_cons.
    assert (0 <= a) by (apply H; now left).
    assert (0 <= qsum l) by (apply IH; intros; apply H; now right).
    lra.
Qed.

Lemma np_mean_nonneg (l : list Q) : (forall x, In x l -> 0 <= x) -> 0 <= np_mean l.
Proof.
  intros H. unfold np_mean. destruct l as [|a l]; [apply Qle_refl|].
  apply Qle_shift_div_l.
  - change 0 with (inject_Z 0). rewrite <- Zlt_Qlt. simpl List.length. lia.
  - rewrite Qmult_0_l. now apply qsum_nonneg.
Qed.

Lemma np_var_nonneg (v : list Q) : 0 <= np_var v.
Proof.
  unfold np_var. apply np_mean_nonneg. intros x Hx.
  apply in_map_iff in Hx as (y & <- & _). cbn [qpow].
  rewrite Qmult_1_r. apply square_nonneg.
Qed.

Section StandardDeviation.

Import Reals Qreals.

(** [ge_n_std] decides the comparison with the standard deviation, the
    square root of the variance over the reals. *)
Lemma ge_n_std_is_comparison_with_std (dev n : Q) (v : list Q) :
  0 <= dev ->
  ge_n_std dev n v = true <->
  (Q2R n * sqrt (Q2R (np_var v)) <= Q2R dev)%R.
Proof.
  intros Hdev. unfold ge_n_std.
  pose proof (np_var_nonneg v) as Hvar.
  apply Qle_Rle in Hdev, Hvar. rewrite RMicromega.Q2R_0 in Hdev, Hvar.
  pose proof (sqrt_pos (Q2R (np_var v))) as Hs.
  pose proof (sqrt_sqrt _ Hvar) as Hss.
  set (s := sqrt (Q2R (np_var v))) in *.
  destruct (Qle_bool 0 n) eqn:En.
  - apply Qle_bool_iff in En. apply Qle_Rle in En. rewrite RMicromega.Q2R_0 in En.
    rewrite Qle_bool_iff. split.
    + intros H. apply Qle_Rle in H. rewrite !Q2R_mult in H. rewrite <- Hss in H.
      apply Rsqr_incr_0; [unfold Rsqr; Lra.nra | Lra.nra | exact Hdev].
    + intros H. apply Rle_Qle. rewrite !Q2R_mult. rewrite <- Hss.
      apply Rsqr_incr_1 in H; [unfold Rsqr in H; Lra.nra | Lra.nra | exact Hdev].
  - assert (n < 0)%Q as Hn.
    { apply Qnot_le_lt. intros H. apply Qle_bool_iff in H. congruence. }
    apply Qlt_Rlt in Hn. rewrite RMicromega.Q2R_0 in Hn.
    split; [intros _; Lra.nra | reflexivity].
Qed.

End StandardDeviation.

(** *** Rounding *)
Lemma floor_half_close (y : Q) :
  Qabs (inject_Z (Qfloor (y + (1 # 2))) - y) <= 1 # 2.
Proof.
  pose proof (Qfloor_le (y + (1 # 2))) as H1.
  pose proof (Qlt_floor (y + (1 # 2))) as H2.
  rewrite inject_Z_plus in H2. change (inject_Z 1) with 1 in H2.
  apply Qabs_case; intros; lra.
Qed.

Lemma py_round_close (x : Q) (n : nat) :
  Qabs (py_round x n - x) <= (1 # 2) / inject_Z (10 ^ Z.of_nat n).
Proof.
  unfold py_round.
  set (s := inject_Z (10 ^ Z.of_nat n)).
  assert (Hs : 0 < s).
  { unfold s. change 0 with (inject_Z 0). rewrite <- Zlt_Qlt.
    apply Z.pow_pos_nonneg; lia. }
  pose proof (floor_half_close (Qabs x * s)) as Hc.
  set (m := inject_Z (Qfloor (Qabs x * s + (1 # 2)))) in *.
  assert (Hdiv : forall a, Qabs a <= 1 # 2 -> Qabs (a / s) <= (1 # 2) / s).
  { intros a Ha. unfold Qdiv. rewrite Qabs_Qmult.
    rewrite (Qabs_pos (/ s)) by (apply Qlt_le_weak, Qinv_lt_0_compat, Hs).
    apply Qmult_le_r; [now apply Qinv_lt_0_compat | exact Ha]. }
  destruct (Qle_bool 0 x) eqn:E.
  - apply Qle_bool_iff in E. rewrite (Qabs_pos x E) in Hc.
    assert (m / s - x == (m - x * s) / s) as -> by (field; lra).
    now apply Hdiv.
  - assert (x < 0) as Hneg.
    { apply Qnot_le_lt. intros H. apply Qle_bool_iff in H. congruence. }
    rewrite (Qabs_neg x) in Hc by lra.
    assert (- m / s - x == - (m - - x * s) / s) as -> by (field; lra).
    apply Hdiv. now rewrite Qabs_opp.
Qed.

Lemma py_round4_close (x : Q) : Qabs (py_round x 4 - x) <= 1 # 20000.
Proof.
  eapply Qle_trans; [apply (py_round_close x 4)|].
  vm_compute. discriminate.
Qed.

Lemma prog_bind_Ok {A B} (m : prog A) (f : A -> prog B) w b w' :
  (m ≫= f) w = (Ok b, w') ->
  exists a w1, m w = (Ok a, w1) /\ f a w1 = (Ok b, w').
Proof.
  unfold mbind, prog_bind. destruct (m w) as [[a|e] w1]; [eauto | discriminate].
Qed.

Lemma py_round_decimals (x : Q) (n : nat) : has_decimals n (py_round x n).
Proof.
  unfold has_decimals, py_round.
  destruct (Qle_bool 0 x).
  - eexists. reflexivity.
  - exists (- Qfloor (Qabs x * inject_Z (10 ^ Z.of_nat n) + (1 # 2)))%Z.
    now rewrite inject_Z_opp.
Qed.

(** C3, with the rounding of the code: when the solver has converged and
    the refine option is set, each of the three thresholds (EPcrit,
    RWcrit, ABdiffcrit) after the refine pass is the threshold before
    the pass divided by 3 and rounded to four decimals: a number with
    four decimals within 0.00005 of the third, not in general equal to
    it.  Which of the two neighbours comes out when the third lies
    half-way between them is left open. *)
Theorem refine_thresholds_are_rounded_thirds
    (ext : collaborators) (parameters : list Q) (converged : bool)
    (o : options) (w : world) (p' : list Q) (o' : options) (w' : world) :
  converged = true -> refine o = true ->
  refine_block ext parameters converged o w = (Ok (p', o'), w') ->
  (has_decimals 4 (EPcrit o') /\
   Qabs (EPcrit o' - EPcrit o / 3) <= 1 # 20000) /\
  (has_decimals 4 (RWcrit o') /\
   Qabs (RWcrit o' - RWcrit o / 3) <= 1 # 20000) /\
  (has_decimals 4 (ABdiffcrit o') /\
   Qabs (ABdiffcrit o' - ABdiffcrit o / 3) <= 1 # 20000).
Proof.
  intros -> Hr H. unfold refine_block in H. rewrite Hr in H.
  change (true && true) with true in H. cbv iota in H.
  apply prog_bind_Ok in H as ([p1 c] & w1 & _ & H).
  assert (o' = set_crit o (py_round (EPcrit o / 3) 4) (py_round (RWcrit o / 3) 4)
                 (py_round (ABdiffcrit o / 3) 4)) as ->.
  { destruct c; inversion H; reflexivity. }
  cbn [EPcrit RWcrit ABdiffcrit set_crit].
  repeat split; first [apply py_round_decimals | apply py_round4_close].
Qed.

(** C3, counterexample: with the default thresholds the refine pass
    leaves EPcrit at 0.0003, which is not 0.001 / 3. *)
Lemma refine_threshold_not_exact_third :
  exists p o' w',
    refine_block scripted.engine cool true (with_refine defaults true) (scripted.start scripted.star_moog)
      = (Ok (p, o'), w') /\
    EPcrit o' = 0.0003 /\
    ~ EPcrit o' == EPcrit (with_refine defaults true) / 3.
Proof.
  eexists _, _, _. split; [vm_compute; reflexivity|].
  split; [reflexivity|]. vm_compute. discriminate.
Qed.

(** C4: the single-once policy on a list with exactly one line beyond
    three sigma (5000.10) and a neighbour at 5000.15 removes both: the
    text of the line is matched against the prefix '5000.1'. *)
Lemma single_once_removes_a_neighbour :
  let w := scripted.start scripted.star_moog in
  let r := _outlierRunner scripted.engine 1 "1Once" "star.moog" cool defaults w in
  fst (hasOutlier scripted.engine 2014 3 w) = Ok [(32500 # 26000, 5000.100)] /\
  fst r = Ok ("star_outlier.moog"%string, cool) /\
  solver_runs (snd r) = 1%nat /\
  file_after r "linelist/star_outlier.moog" = Some (scripted.header :: scripted.quiet_lines) /\
  In (scripted.moog_line "5000.150" "26.0" "7.50") scripted.star_moog /\
  ~ In (scripted.moog_line "5000.150" "26.0" "7.50") (scripted.header :: scripted.quiet_lines).
Proof.
  cbv zeta. split; [vm_compute; reflexivity|]. split; [vm_compute; reflexivity|].
  split; [vm_compute; reflexivity|]. split; [vm_compute; reflexivity|].
  split; [right; right; left; reflexivity|].
  intros H. apply list_elem_of_In in H. revert H.
  apply (bool_decide_eq_false_1
           (scripted.moog_line "5000.150" "26.0" "7.50" ∈ scripted.header :: scripted.quiet_lines)).
  vm_compute. reflexivity.
Qed.

(** C5: with the temperature-range check on and no outlier policy, a
    converged temperature below 5200 K makes [ewdriver] prune the
    original line list in place. *)
Lemma teffrange_rewrites_the_original :
  let w := scripted.start scripted.star_moog in
  let r := job scripted.engine 1 true "star.moog" cool (with_teffrange defaults true) w in
  (exists row, fst r = Ok (Some row) /\ row_linelist row = "star.moog"%string) /\
  file_after r "linelist/star.moog"
    = Some (List.filter (fun l => negb (String.eqb l (scripted.moog_line "5010.100" "26.0" "7.50")))
              scripted.star_moog) /\
  file_after r "linelist/star.moog" <> files w !! "linelist/star.moog".
Proof.
  cbv zeta. split; [eexists; split; [vm_compute; reflexivity|reflexivity]|].
  split; [vm_compute; reflexivity|].
  vm_compute. intros H. inversion H.
Qed.

(** C9: the report of [hasOutlier] is keyed by deviation, so no two of
    its entries have equal keys; and on a line list with two lines at
    the same distance on either side of the mean, both beyond three
    standard deviations, the report holds the later wavelength only and
    one all-once pass leaves the other line in the list. *)
Theorem outlier_report_one_wavelength_per_deviation :
  (forall fe1 fe2 MOOGv n d,
     hasOutlier_of fe1 fe2 MOOGv n = Ok d -> distinct_keys d) /\
  (let w := scripted.start pair_moog in
   let r := _outlierRunner scripted.engine 1 "allOnce" "star.moog" cool defaults w in
   exists fe1 fe2 c1,
     scripted.fe_statistics 2014 (files w) = Ok (fe1, fe2) /\
     column fe1 (abundance_column 2014) = Ok c1 /\
     c1 !! 0%nat = Some 8.50 /\ c1 !! 1%nat = Some 6.50 /\
     exceeds c1 3 8.50 /\ exceeds c1 3 6.50 /\
     Qabs (8.50 - np_mean c1) == Qabs (6.50 - np_mean c1) /\
     fst (hasOutlier scripted.engine 2014 3 w) = Ok [(2600 # 2600, 5003.100)] /\
     fst r = Ok ("star_outlier.moog"%string, cool) /\
     exists lines,
       file_after r "linelist/star_outlier.moog" = Some lines /\
       lines !! 1%nat = Some (scripted.moog_line "5000.100" "26.0" "8.50")).
Proof.
  split.
  - intros fe1 fe2 MOOGv n d. apply hasOutlier_of_distinct.
  - cbv zeta. eexists _, _, _.
    split; [vm_compute; reflexivity|]. split; [vm_compute; reflexivity|].
    split; [reflexivity|]. split; [reflexivity|].
    split; [vm_compute; reflexivity|]. split; [vm_compute; reflexivity|].
    split; [vm_compute; reflexivity|]. split; [vm_compute; reflexivity|].
    split; [vm_compute; reflexivity|].
    eexists. split; [vm_compute; reflexivity|]. reflexivity.
Qed.

(** *** One job of the batch *)
Lemma prog_bind_eq {A B} (m : prog A) (f : A -> prog B) w a w1 :
  m w = (Ok a, w1) -> (m ≫= f) w = f a w1.
Proof. intros H. unfold mbind, prog_bind. now rewrite H. Qed.

Lemma job_skips_on_ValueError ext fuel as_main line0 initial o w f1 f2 :
  existsb (String.eqb (model o)) known_models = true ->
  ewDriver.initial_model ext initial (model o) (files w) = (Ok tt, f1) ->
  ewDriver.minimize ext initial (set_GUI o (negb as_main)) f1 = (Raise ValueError, f2) ->
  job ext fuel as_main line0 initial o w
  = (Ok None, mkworld f2 (results_csv w) (S (solver_runs w))).
Proof.
  intros Hm Hi Hs. unfold job. rewrite Hm. change (negb true) with false. cbv iota.
  rewrite (prog_bind_eq _ _ w tt (mkworld f1 (results_csv w) (solver_runs w)))
    by (unfold with_files; rewrite Hi; reflexivity).
  rewrite (prog_bind_eq _ _ _ None (mkworld f2 (results_csv w) (S (solver_runs w))))
    by (unfold try_ValueError, run_minimize, with_files; cbn [files results_csv solver_runs];
        rewrite Hs; reflexivity).
  reflexivity.
Qed.

Lemma minimize_one_abundance evaluate update parameters o w EPs RWs a w' :
  evaluate parameters w = (Ok (EPs, RWs, [a]), w') ->
  minimization.minimize evaluate update parameters o w = (Raise ValueError, w').
Proof.
  intros H. unfold minimization.minimize.
  destruct (Z.to_nat (iterations o)); simpl; rewrite H; reflexivity.
Qed.

(** C6: a report with one average abundance ends the job without a
    row only at the first solve.  On a cool star whose only Fe II line
    is one of the lines that the temperature-range block prunes, the
    report holds both abundances before the pruning and one after it;
    the restart of the solver then raises [ValueError], which the block
    catches without leaving the loop body: the job goes on with the
    parameters of the first solve and appends a row marked as converged.
    The same report at the first solve (a list without Fe II lines) ends
    the job with no row and one start of the solver. *)
Theorem failed_restart_still_writes_a_row :
  let o := with_teffrange defaults true in
  let w := scripted.start ionized_moog in
  let r := job staged_engine 1 true "star.moog" cool o w in
  let first := job staged_engine 1 true "star.moog" cool o
                 (scripted.start scripted.star_moog) in
  fst (staged_report cool (files w)) = Ok ([0], [0], [7.50; 7.50]) /\
  fst (staged_report cool (files (snd r))) = Ok ([0], [0], [7.50]) /\
  fst (run_minimize staged_engine cool o (snd r)) = Raise ValueError /\
  (exists row, fst r = Ok (Some row) /\ results_csv (snd r) = [row] /\
               row_linelist row = "star.moog"%string /\
               row_converged row = true) /\
  solver_runs (snd r) = 2%nat /\
  fst first = Ok None /\ results_csv (snd first) = [] /\
  solver_runs (snd first) = 1%nat.
Proof.
  cbv zeta.
  split; [vm_compute; reflexivity|]. split; [vm_compute; reflexivity|].
  split; [vm_compute; reflexivity|].
  split; [eexists; split; [vm_compute; reflexivity|]; split; [vm_compute; reflexivity|];
          split; [vm_compute; reflexivity|reflexivity]|].
  split; [vm_compute; reflexivity|]. split; [vm_compute; reflexivity|].
  split; vm_compute; reflexivity.
Qed.

Lemma abundance_line_is_no_slope line :
  startswith line "average abundance" = true ->
  startswith line "E.P" = false /\ startswith line "R.W" = false.
Proof.
  unfold startswith. destruct line as [|c line]; [intros H; discriminate H|].
  cbn [String.prefix].
  destruct (ascii_dec "a" c) as [<-|]; [|intros H; discriminate H]. intros _.
  split; reflexivity.
Qed.

Lemma scan_report_abundances lines : forall E R A E' R' A',
  scan_report lines E R A = Ok (E', R', A') ->
  List.length A' = (List.length A + List.length (abundance_lines lines))%nat.
Proof.
  induction lines as [|line lines IH]; intros E R A E' R' A' H.
  - simpl in H. inversion H; subst. simpl. lia.
  - simpl in H. unfold abundance_lines. simpl List.filter. fold (abundance_lines lines).
    destruct (startswith line "average abundance") eqn:Ea.
    + destruct (abundance_line_is_no_slope line Ea) as [-> ->] in H.
      apply bind_Ok in H as (v & _ & H). apply IH in H.
      rewrite length_app in H. simpl in *. lia.
    + destruct (startswith line "E.P").
      { apply bind_Ok in H as (v & _ & H). apply IH in H. exact H. }
      destruct (startswith line "R.W").
      { apply bind_Ok in H as (v & _ & H). apply IH in H. exact H. }
      apply IH in H. exact H.
Qed.

(** C10: given the report the engine wrote, [fun_moog] returns [None]
    without raising when the number of average abundances is not two,
    returns a value only when it is two, and does return a value when it
    is two and the report has both slopes. *)
Theorem fun_moog_returns_a_value_only_for_two_abundances
    (_get_model : Q -> Q -> Q -> res (list string * (Q * Q) * (Q * Q) * (Q * Q)))
    (read_model : string -> res ndarray)
    (save_model : ndarray -> Q * Q * Q * Q -> fs -> res fs)
    (MOOGSILENT : fs -> fs)
    (x : Q * Q * Q * Q) (par results : string) (fix_logg : bool) (w : fs)
    (EPs RWs abundances : list Q) :
  engine_report _get_model read_model save_model MOOGSILENT x par results w
    = Ok (EPs, RWs, abundances) ->
  let r := fun_moog _get_model read_model save_model MOOGSILENT
             x par results fix_logg w in
  (List.length abundances <> 2%nat -> r = Ok None) /\
  (forall v, r = Ok (Some v) -> List.length abundances = 2%nat) /\
  (List.length abundances = 2%nat -> EPs <> [] -> RWs <> [] ->
   exists v, r = Ok (Some v)).
Proof.
  intros H r. unfold r, fun_moog. rewrite H. cbv beta iota delta [mbind res_bind].
  destruct (Nat.eqb_spec (List.length abundances) 2) as [E|E].
  - split; [intros; contradiction|]. split; [auto|].
    intros _ HE HR. destruct EPs as [|EP EPs]; [congruence|].
    destruct RWs as [|RW RWs]; [congruence|].
    destruct abundances as [|a0 [|a1 [|]]]; try discriminate.
    unfold item. simpl. destruct fix_logg; eexists; reflexivity.
  - split; [reflexivity|]. split; [discriminate|]. intros; contradiction.
Qed.

(** The count is that of the report's "average abundance" lines. *)
Lemma engine_report_counts_abundance_lines
    _get_model read_model save_model MOOGSILENT x par results w EPs RWs abundances :
  engine_report _get_model read_model save_model MOOGSILENT x par results w
    = Ok (EPs, RWs, abundances) ->
  exists w' lines,
    read_lines results (MOOGSILENT w') = Ok lines /\
    List.length abundances = List.length (abundance_lines lines).
Proof.
  unfold engine_report. destruct x as [[[teff logg] feh] vt]. intros H.
  apply bind_Ok in H as ([[[models nt] nl] nf] & _ & H).
  apply bind_Ok in H as (model & _ & H).
  apply bind_Ok in H as (w' & _ & H).
  unfold _read_moog, _run_moog in H.
  apply bind_Ok in H as (lines & Hl & H).
  exists w', lines. split; [exact Hl|].
  apply scan_report_abundances in H. simpl in H. exact H.
Qed.

Lemma keeps_ret name {A} (a : A) : keeps name (mret a : prog A).
Proof. intros w. reflexivity. Qed.

Lemma keeps_bind name {A B} (m : prog A) (f : A -> prog B) :
  keeps name m -> (forall a, keeps name (f a)) -> keeps name (m ≫= f).
Proof.
  intros Hm Hf w. unfold mbind, prog_bind. specialize (Hm w).
  destruct (m w) as [[a|e] w1]; simpl in *.
  - now rewrite (Hf a w1).
  - exact Hm.
Qed.

Lemma keeps_from_files name {A} (f : fs -> res A) : keeps name (from_files f).
Proof. intros w. reflexivity. Qed.

Lemma keeps_on_files name (f : fs -> res fs) :
  (forall w w', f w = Ok w' -> w' !! name = w !! name) ->
  keeps name (on_files f).
Proof.
  intros H w. unfold on_files. destruct (f (files w)) eqn:E; simpl; auto.
Qed.

Lemma copyfile_other name src dst w w' :
  dst <> name -> copyfile src dst w = Ok w' -> w' !! name = w !! name.
Proof.
  intros Hne H. unfold copyfile in H. apply bind_Ok in H as (lines & _ & H).
  inversion H; subst. now apply lookup_insert_ne.
Qed.

Lemma os_remove_other name f w w' :
  f <> name -> os_remove f w = Ok w' -> w' !! name = w !! name.
Proof.
  intros Hne H. unfold os_remove in H. destruct (w !! f); [|discriminate].
  inversion H; subst. now apply lookup_delete_ne.
Qed.

Lemma removeOutlier_other name f wl w w' :
  f <> name -> removeOutlier f wl w = Ok w' -> w' !! name = w !! name.
Proof.
  intros Hne H. unfold removeOutlier in H. apply bind_Ok in H as (lines & _ & H).
  inversion H; subst. now apply lookup_insert_ne.
Qed.

Section Keeps.

Variable ext : collaborators.
Variable name : string.
Hypothesis Hext : hands_off ext name.
Hypothesis Htmp : tmpll <> name.

Lemma keeps_run_minimize p o : keeps name (run_minimize ext p o).
Proof.
  intros w. unfold run_minimize, with_files. cbn [files].
  destruct Hext as [H _]. specialize (H p o (files w)).
  destruct (ewDriver.minimize ext p o (files w)) as [r f']. exact H.
Qed.

Lemma keeps_update_par l : keeps name (update_par ext l).
Proof.
  apply keeps_on_files. intros w w' H. inversion H; subst. apply Hext.
Qed.

Lemma keeps_hasOutlier v n : keeps name (hasOutlier ext v n).
Proof. apply keeps_from_files. Qed.

Lemma keeps_remove_each wls : keeps name (remove_each tmpll wls).
Proof.
  induction wls as [|wl wls IH]; simpl.
  - apply keeps_ret.
  - apply keeps_bind; [|intros _; exact IH].
    apply keeps_on_files. intros w w'. now apply removeOutlier_other.
Qed.

Lemma keeps_drop_worst d p o : keeps name (drop_worst ext d p o).
Proof.
  unfold drop_worst.
  apply keeps_bind; [apply keeps_from_files|intros k].
  apply keeps_bind; [apply keeps_from_files|intros wl].
  apply keeps_bind.
  { apply keeps_on_files. intros w w'. now apply removeOutlier_other. }
  intros _. apply keeps_bind; [apply keeps_run_minimize|intros [p' c]].
  apply keeps_bind; [apply keeps_hasOutlier|intros d']. apply keeps_ret.
Qed.

Lemma keeps_drop_all d p o : keeps name (drop_all ext d p o).
Proof.
  unfold drop_all.
  apply keeps_bind; [apply keeps_remove_each|intros _].
  apply keeps_bind; [apply keeps_run_minimize|intros [p' c]].
  apply keeps_bind; [apply keeps_hasOutlier|intros d']. apply keeps_ret.
Qed.

Lemma keeps_while fuel body d p ran :
  (forall d p, keeps name (body d p)) ->
  keeps name (while_outliers fuel body d p ran).
Proof.
  intros Hb. revert d p ran. induction fuel as [|fuel IH]; intros d p ran.
  - destruct d; simpl; [apply keeps_ret | intros w; reflexivity].
  - destruct d as [|e d]; simpl; [apply keeps_ret|].
    apply keeps_bind; [apply Hb|]. intros [p' d']. apply IH.
Qed.

End Keeps.

(** The outlier runner works on a copy: when its result is filed under a
    new name, the list it was given is still what it was. *)
Lemma outlierRunner_keeps_the_original ext fuel type linelist p o :
  hands_off ext ("linelist/" ++ linelist) ->
  linelist <> "tmplinelist.moog"%string ->
  replace linelist ".moog" "_outlier.moog" <> linelist ->
  keeps ("linelist/" ++ linelist) (_outlierRunner ext fuel type linelist p o).
Proof.
  intros Hext Hl Hnew.
  assert (Htmp : tmpll <> ("linelist/" ++ linelist)%string).
  { unfold tmpll. intros E. apply Hl. simpl in E. now inversion E. }
  assert (Hnew' : ("linelist/" ++ replace linelist ".moog" "_outlier.moog")%string
                  <> ("linelist/" ++ linelist)%string).
  { intros E. apply Hnew. simpl in E. now inversion E. }
  unfold _outlierRunner.
  apply keeps_bind.
  { apply keeps_on_files. intros w w'. now apply copyfile_other. }
  intros _. apply keeps_bind; [now apply keeps_update_par|intros _].
  apply keeps_bind; [apply keeps_hasOutlier|intros d].
  apply keeps_bind.
  { destruct (String.eqb type "1Iter").
    { apply keeps_while; auto. intros; now apply keeps_drop_worst. }
    destruct (String.eqb type "1Once").
    { destruct d; [apply keeps_ret|].
      apply keeps_bind; [now apply keeps_drop_worst|]. intros [? ?]. apply keeps_ret. }
    destruct (String.eqb type "allIter").
    { apply keeps_while; auto. intros; now apply keeps_drop_all. }
    destruct (String.eqb type "allOnce").
    { destruct d; [apply keeps_ret|].
      apply keeps_bind; [now apply keeps_drop_all|]. intros [? ?]. apply keeps_ret. }
    apply keeps_ret. }
  intros [p' [|]].
  - apply keeps_bind.
    { apply keeps_on_files. intros w w'. now apply copyfile_other. }
    intros _. apply keeps_bind.
    { apply keeps_on_files. intros w w'. now apply os_remove_other. }
    intros _. apply keeps_bind; [now apply keeps_update_par|intros _]. apply keeps_ret.
  - apply keeps_bind; [now apply keeps_update_par|intros _].
    apply keeps_bind.
    { apply keeps_on_files. intros w w'. now apply os_remove_other. }
    intros _. apply keeps_ret.
Qed.

(** What the code does on the bracket 5000 to 5750 K, logg 4.0 and 4.5,
    [Fe/H] -0.5 and 0.0, whose sixteen files are readable:
    [interpolatorN7] returns a table of the common shape, and every cell
    of it is obtained by collapsing one axis at a time, temperature
    first, then gravity, then metallicity: the four temperature fits
    (degree 2, four points each) of the cell give one value per (gravity,
    metallicity) pair, the two gravity fits (degree 1, two points each)
    of those give one value per metallicity, and the metallicity fit
    (degree 1, two points) of those two is the cell.  Every fit is the
    least-squares polynomial of the values against the signed distance
    of the grid value from the requested value, evaluated at
    distance 0. *)
Theorem interpolatorN7_collapses_teff_logg_feh
    (read_model : string -> res ndarray) (src : string -> ndarray)
    (teff logg feh : Q) :
  (forall n, In n grid_names -> read_model n = Ok (src n)) ->
  (forall n, In n grid_names ->
     wf_array (src n) /\ (0 < shape0 (src n))%nat /\ (0 < shape1 (src n))%nat) ->
  exists deck L C,
    interpolatorN7 read_model grid_names
      (teff, grid_teff) (logg, grid_logg) (feh, grid_feh) = Ok deck /\
    shape0 deck = L /\ shape1 deck = C /\ (0 < L)%nat /\ (0 < C)%nat /\
    forall l c, (l < L)%nat -> (c < C)%nat ->
      exists b11 b12 b21 b22 a1 a2,
        b11 == teff_fit teff src l c "kurucz95/m05/" "g40.m05.gz" /\
        b12 == teff_fit teff src l c "kurucz95/p00/" "g40.p00.gz" /\
        b21 == teff_fit teff src l c "kurucz95/m05/" "g45.m05.gz" /\
        b22 == teff_fit teff src l c "kurucz95/p00/" "g45.p00.gz" /\
        a1 == logg_fit logg b11 b21 /\
        a2 == logg_fit logg b12 b22 /\
        cell_value deck l c == feh_fit feh a1 a2.
Proof. intros Hrm Hwf. now apply grid_interpolatorN7. Qed.

(** C2: on a bracket of giants with the gravities 0.5 and 1.0 and the
    metallicities -0.5 and 0.0 the extended interpolator does not
    collapse anything.  The test for the metallicity -0.5 looks for the
    text '05.' in the file name, which the gravity tag of 'g05.p00' holds
    as well: the eight files of gravity 0.5 are all filed in the first
    group, the second group stays empty, and the temperature fit of the
    empty group raises [TypeError]. *)
Theorem interpolatorN7_raises_on_a_bracket_of_giants :
  has_feh (-0.5) "3750g05.p00.gz" = true /\
  load_models (fun n => Ok (temperature_file n)) giant_names ∅
    = Ok (loaded temperature_file giant_names ∅) /\
  List.length (keys (giant_groups.1.1.1)) = 8%nat /\
  List.length (keys (giant_groups.1.1.2)) = 0%nat /\
  List.length (keys (giant_groups.1.2)) = 4%nat /\
  List.length (keys (giant_groups.2)) = 4%nat /\
  interpolatorN7 (fun n => Ok (temperature_file n)) giant_names
    (4100, giant_teff) (0.7, (0.5, 1.0)) (-0.2, (-0.5, 0.0))
  = Raise TypeError.
Proof.
  split; [vm_compute; reflexivity|].
  split; [apply load_models_all; intros n _; reflexivity|].
  split; [vm_compute; reflexivity|]. split; [vm_compute; reflexivity|].
  split; [vm_compute; reflexivity|]. split; [vm_compute; reflexivity|].
  vm_compute. reflexivity.
Qed.

(** The identity at a grid point, on the cube of eight 2 x 2 tables: the
    corner (5500, 4.0, 0.0) is file number 5, and the table returned has
    its two layers and two columns. *)
Lemma interpolator_grid_identity_witness :
  exists deck corner,
    interpolator cube_reader cube_names
      (5500, (5250, 5500)) (4.0, (4.0, 4.5)) (0.0, (-0.5, 0.0)) = Ok deck /\
    cube_models !! (4 * 1 + 2 * 0 + 1)%nat = Some corner /\
    wf_array deck /\
    py_min (map shape0 cube_models) = Ok (shape0 deck) /\
    py_min (map shape1 cube_models) = Ok (shape1 deck) /\
    ((forall m, In m cube_models ->
        shape0 m = shape0 corner /\ shape1 m = shape1 corner) ->
     shape0 deck = shape0 corner /\ shape1 deck = shape1 corner) /\
    forall layer column,
      (layer < shape0 deck)%nat -> (column < shape1 deck)%nat ->
      exists v w, getitem deck layer column = Ok v /\
                  getitem corner layer column = Ok w /\ v == w.
Proof.
  apply (interpolator_grid_identity cube_reader cube_names cube_models
           5500 5250 5500 4.0 4.0 4.5 0.0 (-0.5) 0.0 1 0 1).
  - vm_compute. reflexivity.
  - simpl. lia.
  - repeat constructor.
  - lia.
  - lia.
  - lia.
  - vm_compute. discriminate.
  - vm_compute. discriminate.
  - vm_compute. discriminate.
  - reflexivity.
  - reflexivity.
  - reflexivity.
Defined.

(** The shape of the table interpolated on the cube. *)
Lemma interpolated_shape_is_minimum_witness :
  py_min (map shape0 cube_models) = Ok (shape0 cube_deck) /\
  py_min (map shape1 cube_models) = Ok (shape1 cube_deck) /\
  wf_array cube_deck /\
  forall m, In m cube_models ->
    (shape0 cube_deck <= shape0 m)%nat /\
    (shape1 cube_deck <= shape1 m)%nat.
Proof.
  apply (interpolated_shape_is_minimum cube_reader cube_names
           (5500, (5250, 5500)) (4.0, (4.0, 4.5)) (0.0, (-0.5, 0.0))
           (5500, grid_teff) cube_models cube_deck).
  left. split; vm_compute; reflexivity.
Defined.

(** The refine pass with the default thresholds. *)
Lemma refine_thresholds_are_rounded_thirds_witness :
  let o := with_refine defaults true in
  let o' := set_crit o (py_round (EPcrit o / 3) 4) (py_round (RWcrit o / 3) 4)
              (py_round (ABdiffcrit o / 3) 4) in
  (has_decimals 4 (EPcrit o') /\
   Qabs (EPcrit o' - EPcrit o / 3) <= 1 # 20000) /\
  (has_decimals 4 (RWcrit o') /\
   Qabs (RWcrit o' - RWcrit o / 3) <= 1 # 20000) /\
  (has_decimals 4 (ABdiffcrit o') /\
   Qabs (ABdiffcrit o' - ABdiffcrit o / 3) <= 1 # 20000).
Proof.
  intros o o'.
  apply (refine_thresholds_are_rounded_thirds scripted.engine cool true o
           (scripted.start scripted.star_moog) cool o'
           (mkworld (files (scripted.start scripted.star_moog)) [] 1)).
  - reflexivity.
  - reflexivity.
  - vm_compute. reflexivity.
Defined.

(** The report on the list with one line at five sigma. *)
Lemma hasOutlier_flags_beyond_n_sigma_witness :
  sigma defaults = 3 /\
  exists c1 c2,
    column (fst star_tables) (abundance_column 2014) = Ok c1 /\
    column (snd star_tables) (abundance_column 2014) = Ok c2 /\
    (forall x, In x c1 -> exceeds c1 3 x ->
       has_key [(32500 # 26000, 5000.100)] (Qabs (x - np_mean c1))) /\
    ((10 < shape0 (snd star_tables))%nat ->
     forall x, In x c2 -> exceeds c2 3 x ->
       has_key [(32500 # 26000, 5000.100)] (Qabs (x - np_mean c2))) /\
    (forall e, In e [(32500 # 26000, 5000.100)] ->
       (exists i dev, flagged_line (fst star_tables) c1 3 i dev (snd e) /\ fst e == dev) \/
       ((10 < shape0 (snd star_tables))%nat /\
        exists i dev, flagged_line (snd star_tables) c2 3 i dev (snd e) /\ fst e == dev)) /\
    ([(32500 # 26000, 5000.100)] = [] <->
       (forall x, In x c1 -> ~ exceeds c1 3 x) /\
       ((10 < shape0 (snd star_tables))%nat -> forall x, In x c2 -> ~ exceeds c2 3 x)).
Proof.
  apply (hasOutlier_flags_beyond_n_sigma (fst star_tables) (snd star_tables) 2014 3
           [(32500 # 26000, 5000.100)]).
  vm_compute. reflexivity.
Defined.

(** The keys of that report are distinct. *)
Lemma outlier_report_one_wavelength_per_deviation_witness :
  distinct_keys [(32500 # 26000, 5000.100)].
Proof.
  apply (proj1 outlier_report_one_wavelength_per_deviation
           (fst star_tables) (snd star_tables) 2014%Z 3).
  vm_compute. reflexivity.
Defined.

(** [fun_moog] on a report with both ionization stages. *)
Lemma fun_moog_returns_a_value_only_for_two_abundances_witness :
  let r := fun_moog cube_bracket cube_reader (fun _ _ w => Ok w) writes_full_report
             (530, 4.2, -0.2, 1) "batch.par" "summary.out" false ∅ in
  (List.length [7.47; 7.45] <> 2%nat -> r = Ok None) /\
  (forall v, r = Ok (Some v) -> List.length [7.47; 7.45] = 2%nat) /\
  (List.length [7.47; 7.45] = 2%nat -> [0.0012] <> [] -> [-0.0031] <> [] ->
   exists v, r = Ok (Some v)).
Proof.
  apply (fun_moog_returns_a_value_only_for_two_abundances
           cube_bracket cube_reader (fun _ _ w => Ok w) writes_full_report
           (530, 4.2, -0.2, 1) "batch.par" "summary.out" false ∅
           [0.0012] [-0.0031] [7.47; 7.45]).
  vm_compute. reflexivity.
Defined.

(** * Further properties *)

Import interpolation_io.

Lemma assign_row_length col vals r :
  assign_row col vals = Ok r -> List.length r = col.
Proof.
  unfold assign_row. destruct (Nat.eqb_spec (List.length vals) col) as [E|E].
  - intros H; inversion H; subst; reflexivity.
  - destruct vals as [|v [|? ?]]; try discriminate.
    intros H; inversion H. apply repeat_length.
Qed.

Lemma parse_row_length col line r :
  parse_row col line = Ok r -> List.length r = col.
Proof.
  unfold parse_row. intros H. apply bind_Ok in H as (vals & _ & H).
  now apply assign_row_length in H.
Qed.

Lemma filled_rows_spec col lines : forall rs,
  filled_rows col lines = Ok rs ->
  (List.length rs <= List.length lines)%nat /\
  (forall i r, rs !! i = Some r ->
     exists line, lines !! i = Some line /\ parse_row col line = Ok r) /\
  ((List.length rs < List.length lines)%nat ->
     exists line, lines !! List.length rs = Some line /\
                  parse_row col line = Raise ValueError).
Proof.
  induction lines as [|line rest IH]; intros rs H; simpl in H.
  - inversion H; subst. simpl. split; [lia|]. split; [|lia].
    intros i r Hi. destruct i; discriminate.
  - destruct (parse_row col line) as [r0|e] eqn:Er.
    + apply bind_Ok in H as (rs' & Hrs & H). inversion H; subst. clear H.
      destruct (IH rs' Hrs) as (A & B & C). simpl. split; [lia|]. split.
      * intros [|i] r Hi; simpl in Hi.
        -- inversion Hi; subst. exists line. split; [reflexivity|exact Er].
        -- destruct (B i r Hi) as (l & Hl & Hp). exists l. split; assumption.
      * intros Hlt. destruct C as (l & Hl & Hp); [lia|]. exists l. split; assumption.
    + destruct e; try discriminate. inversion H; subst. simpl.
      split; [lia|]. split.
      * intros i r Hi. destruct i; discriminate.
      * intros _. exists line. split; [reflexivity|exact Er].
Qed.

Lemma _loadtxt_inv (lines : list string) (a : ndarray) :
  _loadtxt lines = Ok a ->
  wf_array a /\
  (exists line0, lines !! 0%nat = Some line0 /\
                 shape1 a = List.length (words line0)) /\
  (shape0 a <= List.length lines)%nat /\
  (forall i r, rows a !! i = Some r ->
     exists line, lines !! i = Some line /\ parse_row (shape1 a) line = Ok r) /\
  ((shape0 a < List.length lines)%nat ->
     exists line, lines !! shape0 a = Some line /\
                  parse_row (shape1 a) line = Raise ValueError).
Proof.
  unfold _loadtxt. intros H.
  apply bind_Ok in H as (line0 & H0 & H).
  apply bind_Ok in H as (rs & Hrs & H). inversion H; subst; clear H.
  destruct (filled_rows_spec _ _ _ Hrs) as (A & B & C).
  cbn [shape0 shape1 rows].
  split; [split; [reflexivity|]|].
  - cbn [rows shape1]. apply Forall_forall. intros r Hr.
    apply list_elem_of_lookup_1 in Hr as [i Hi].
    destruct (B i r Hi) as (l & _ & Hp). now apply parse_row_length in Hp.
  - split.
    + exists line0. split; [|reflexivity].
      unfold item in H0. destruct (lines !! 0%nat); [now inversion H0|discriminate].
    + split; [exact A|]. split; [exact B|exact C].
Qed.

(** X1: whenever [_loadtxt] returns, the table is rectangular, it has as
    many columns as the first line has fields, and its rows are exactly the
    lines before the first one that does not fill a row (a field that is
    no number, or a number of fields that is neither that of the first
    line nor one): every row is the parse of the line at its index, and
    when the table is shorter than the input the line at the next index
    is one that fails.  Lines after that one are never looked at. *)
Theorem _loadtxt_keeps_the_rows_before_the_first_bad_line
    (lines : list string) (a : ndarray) :
  _loadtxt lines = Ok a ->
  wf_array a /\
  (exists line0, lines !! 0%nat = Some line0 /\
                 shape1 a = List.length (words line0)) /\
  (shape0 a <= List.length lines)%nat /\
  (forall i r, rows a !! i = Some r ->
     exists line, lines !! i = Some line /\ parse_row (shape1 a) line = Ok r) /\
  ((shape0 a < List.length lines)%nat ->
     exists line, lines !! shape0 a = Some line /\
                  parse_row (shape1 a) line = Raise ValueError).
Proof. apply _loadtxt_inv. Qed.

Lemma accumulate_length acc v : List.length (accumulate acc v) = List.length v.
Proof. revert acc; induction v as [|x v IH]; intros acc; simpl; [reflexivity|]. now rewrite IH. Qed.

Lemma accumulate_step v : forall acc i t t' x,
  accumulate acc v !! i = Some t -> accumulate acc v !! S i = Some t' ->
  v !! S i = Some x -> t' = t + x.
Proof.
  induction v as [|x0 v IH]; intros acc i t t' x Ht Ht' Hx; [discriminate|].
  destruct i as [|i].
  - simpl in *. inversion Ht; subst. destruct v as [|x1 v]; [discriminate|].
    simpl in *. inversion Ht'; inversion Hx; subst. reflexivity.
  - simpl in Ht, Ht', Hx. exact (IH _ _ _ _ _ Ht Ht' Hx).
Qed.

Lemma accumulate_first acc v t x :
  accumulate acc v !! 0%nat = Some t -> v !! 0%nat = Some x -> t = acc + x.
Proof. destruct v; simpl; intros H1 H2; inversion H1; inversion H2; subst; reflexivity. Qed.

Lemma trapezes_length y : List.length (trapezes y) = (List.length y - 1)%nat.
Proof.
  unfold trapezes.
  rewrite length_map, length_combine, length_skipn, removelast_firstn_len, length_firstn.
  lia.
Qed.

Lemma removelast_lookup {A} (l : list A) i :
  (S i < List.length l)%nat -> removelast l !! i = l !! i.
Proof.
  revert i; induction l as [|a l IH]; intros i Hi; [simpl in Hi; lia|].
  destruct l as [|b l]; [simpl in Hi; lia|].
  change (removelast (a :: b :: l)) with (a :: removelast (b :: l)).
  destruct i as [|i]; [reflexivity|]. simpl in Hi.
  change ((a :: removelast (b :: l)) !! S i) with (removelast (b :: l) !! i).
  change ((a :: b :: l) !! S i) with ((b :: l) !! i).
  apply IH. simpl. lia.
Qed.

Lemma trapezes_lookup y i a b :
  y !! i = Some a -> y !! S i = Some b ->
  trapezes y !! i = Some (1 * (b + a) / 2).
Proof.
  intros Ha Hb. unfold trapezes.
  assert (Hlen : (S i < List.length y)%nat) by (apply lookup_lt_is_Some; eauto).
  rewrite list_lookup_fmap.
  assert (combine (skipn 1 y) (removelast y) !! i = Some (b, a)) as ->; [|reflexivity].
  apply lookup_zip_with_Some. exists b, a. split; [reflexivity|]. split.
  - rewrite lookup_drop. exact Hb.
  - rewrite removelast_lookup by exact Hlen. exact Ha.
Qed.

(** X2: on two columns of equal positive length [tauross_scale] returns a
    scale of that length.  With [y] the products [rhox * abross], its
    first entry is [y[0]], its second entry is the first trapeze
    [(y[1] + y[0]) / 2] alone, and from there on each entry exceeds the
    one before by the next trapeze, so that the scale is non-decreasing
    from its second entry on when no product is negative.  The first
    entry is put in front of the running sums, it is not added to them:
    the scale falls from its first to its second entry whenever
    [y[1] < y[0]]. *)
Theorem tauross_scale_is_running_trapezes_behind_the_first_product
    (abross rhox : list Q) :
  List.length abross = List.length rhox -> rhox <> [] ->
  let y := map (fun p => fst p * snd p) (combine rhox abross) in
  exists tau,
    tauross_scale abross rhox = Ok tau /\
    List.length tau = List.length rhox /\
    tau !! 0%nat = y !! 0%nat /\
    (forall y0 y1, y !! 0%nat = Some y0 -> y !! 1%nat = Some y1 ->
       tau !! 1%nat = Some (0 + 1 * (y1 + y0) / 2)) /\
    (forall i t t' a b,
       tau !! S i = Some t -> tau !! S (S i) = Some t' ->
       y !! S i = Some a -> y !! S (S i) = Some b ->
       t' - t == (b + a) / 2) /\
    (forall i t t' a b,
       tau !! S i = Some t -> tau !! S (S i) = Some t' ->
       y !! S i = Some a -> y !! S (S i) = Some b ->
       0 <= a -> 0 <= b -> t <= t') /\
    (forall y0 y1 t0 t1, y !! 0%nat = Some y0 -> y !! 1%nat = Some y1 ->
       tau !! 0%nat = Some t0 -> tau !! 1%nat = Some t1 -> y1 < y0 -> t1 < t0).
Proof.
  intros Hlen Hne y.
  unfold tauross_scale, mul_arrays.
  rewrite (proj2 (Nat.eqb_eq _ _)) by (symmetry; exact Hlen).
  cbv beta iota delta [mbind res_bind].
  destruct rhox as [|r0 rhox]; [congruence|].
  destruct abross as [|a0 abross]; [discriminate|].
  unfold item. cbn [lookup list_lookup]. cbv beta iota.
  fold y.
  exists (r0 * a0 :: accumulate 0 (trapezes y)).
  assert (Hy : List.length y = S (List.length rhox)).
  { unfold y. rewrite length_map, length_combine. simpl in *. lia. }
  split; [reflexivity|]. split.
  { simpl. rewrite accumulate_length, trapezes_length. lia. }
  split; [reflexivity|].
  assert (H1 : forall y0 y1, y !! 0%nat = Some y0 -> y !! 1%nat = Some y1 ->
            (r0 * a0 :: accumulate 0 (trapezes y)) !! 1%nat
            = Some (0 + 1 * (y1 + y0) / 2)).
  { intros y0 y1 H0 H1'. pose proof (trapezes_lookup y 0 y0 y1 H0 H1') as Ht.
    change ((r0 * a0 :: accumulate 0 (trapezes y)) !! 1%nat)
      with (accumulate 0 (trapezes y) !! 0%nat).
    destruct (trapezes y) as [|x v]; [discriminate|].
    simpl in Ht. inversion Ht; subst. reflexivity. }
  assert (H2 : forall i t t' a b,
       (r0 * a0 :: accumulate 0 (trapezes y)) !! S i = Some t ->
       (r0 * a0 :: accumulate 0 (trapezes y)) !! S (S i) = Some t' ->
       y !! S i = Some a -> y !! S (S i) = Some b ->
       t' - t == (b + a) / 2).
  { intros i t t' a b Ht Ht' Ha Hb.
    change (accumulate 0 (trapezes y) !! i = Some t) in Ht.
    change (accumulate 0 (trapezes y) !! S i = Some t') in Ht'.
    pose proof (trapezes_lookup y (S i) a b Ha Hb) as Hx.
    rewrite (accumulate_step _ _ _ _ _ _ Ht Ht' Hx). field. }
  split; [exact H1|]. split; [exact H2|]. split.
  - intros i t t' a b Ht Ht' Ha Hb Ha0 Hb0.
    pose proof (H2 i t t' a b Ht Ht' Ha Hb) as E.
    assert (E2 : 2 * (t' - t) == b + a) by (rewrite E; field).
    lra.
  - intros y0 y1 t0 t1 H0 H1' Ht0 Ht1 Hlt.
    rewrite (H1 y0 y1 H0 H1') in Ht1. inversion Ht1; subst. clear Ht1.
    assert (t0 = y0) as ->.
    { change (Some (r0 * a0) = Some t0) in Ht0. unfold y in H0. simpl in H0.
      inversion Ht0; inversion H0; subst. reflexivity. }
    assert (E2 : 2 * (0 + 1 * (y1 + y0) / 2) == y1 + y0) by field.
    lra.
Qed.

Lemma column_length a j c : column a j = Ok c -> List.length c = List.length (rows a).
Proof.
  unfold column. destruct (j <? shape1 a)%nat; [|discriminate].
  apply for_each_length.
Qed.

Lemma column_in_range a j c : column a j = Ok c -> (j < shape1 a)%nat.
Proof.
  unfold column. destruct (Nat.ltb_spec j (shape1 a)); [auto|discriminate].
Qed.

Lemma read_model_inv fname w model tau :
  read_model fname w = Ok (model, tau) ->
  wf_array model /\ (1 <= shape0 model)%nat /\ (5 <= shape1 model)%nat /\
  List.length tau = shape0 model /\
  exists data, w !! fname = Some data /\ (25 <= List.length data)%nat.
Proof.
  unfold read_model. intros H.
  apply bind_Ok in H as (data & Hd & H).
  apply bind_Ok in H as (m & Hm & H).
  apply bind_Ok in H as (abross & Ha & H).
  apply bind_Ok in H as (rhox & Hr & H).
  apply bind_Ok in H as (t & Ht & H). inversion H; subst; clear H.
  destruct (_loadtxt_inv _ _ Hm)
    as ((W0 & W1) & (line0 & Hl0 & _) & _).
  pose proof (column_length _ _ _ Ha) as La.
  pose proof (column_length _ _ _ Hr) as Lr.
  pose proof (column_in_range _ _ _ Ha) as Ca.
  unfold tauross_scale in Ht.
  apply bind_Ok in Ht as (y & Hy & Ht).
  apply bind_Ok in Ht as (r0 & Hr0 & Ht).
  apply bind_Ok in Ht as (a0 & Ha0 & Ht). inversion Ht; subst; clear Ht.
  assert (Hrne : (1 <= List.length rhox)%nat).
  { unfold item in Hr0. destruct rhox; [discriminate|simpl; lia]. }
  assert (Ly : List.length y = List.length rhox).
  { unfold mul_arrays in Hy.
    rewrite (proj2 (Nat.eqb_eq _ _)) in Hy by congruence.
    inversion Hy; subst. rewrite length_map, length_combine. lia. }
  split; [split; assumption|]. split; [lia|]. split; [lia|]. split.
  { simpl. rewrite accumulate_length, trapezes_length. lia. }
  exists data. unfold read_lines in Hd.
  destruct (w !! fname) as [d|] eqn:E; [|discriminate]. inversion Hd; subst.
  split; [reflexivity|].
  assert (body_lines data <> []) as Hb.
  { intros E0. rewrite E0 in Hl0. discriminate. }
  unfold body_lines in Hb.
  assert ((2 <= List.length (skipn 23 data))%nat).
  { destruct (skipn 23 data) as [|x [|x' l]]; simpl in *; try congruence. lia. }
  rewrite length_skipn in H. lia.
Qed.

(** X3: [read_model] never returns an empty model.  Whenever it returns,
    the file has at least 25 lines (23 header lines, one line of data and
    a last line that is dropped), the table is rectangular with at least
    one layer and at least five columns, and the optical-depth scale has
    one entry per layer. *)
Theorem read_model_returns_a_layer_and_five_columns
    (fname : string) (w : fs) (model : ndarray) (tau : list Q) :
  read_model fname w = Ok (model, tau) ->
  wf_array model /\ (1 <= shape0 model)%nat /\ (5 <= shape1 model)%nat /\
  List.length tau = shape0 model /\
  exists data, w !! fname = Some data /\ (25 <= List.length data)%nat.
Proof. apply read_model_inv. Qed.

Lemma model_of_inv w fname m :
  model_of w fname = Ok m ->
  wf_array m /\ (1 <= shape0 m)%nat /\ (5 <= shape1 m)%nat.
Proof.
  unfold model_of. intros H. apply bind_Ok in H as ([m' tau] & Hr & H).
  inversion H; subst. apply read_model_inv in Hr as (? & ? & ? & _). auto.
Qed.

Lemma for_each_In {A B} (f : A -> res B) l ys y :
  for_each f l = Ok ys -> In y ys -> exists x, In x l /\ f x = Ok y.
Proof.
  revert ys; induction l as [|a l IH]; intros ys H Hy; simpl in H.
  - inversion H; subst. destruct Hy.
  - apply bind_Ok in H as (b & Hb & H). apply bind_Ok in H as (bs & Hbs & H).
    inversion H; subst. destruct Hy as [<-|Hy].
    + exists a. split; [now left|exact Hb].
    + destruct (IH _ Hbs Hy) as (x & Hx & Hfx). exists x. split; [now right|exact Hfx].
Qed.

Lemma load_models_values rm (P : ndarray -> Prop) mnames : forall d models,
  (forall n m, rm n = Ok m -> P m) ->
  (forall k v, d !! k = Some v -> P v) ->
  load_models rm mnames d = Ok models ->
  forall k v, models !! k = Some v -> P v.
Proof.
  induction mnames as [|n rest IH]; intros d models Hrm Hd H; simpl in H.
  - inversion H; subst. exact Hd.
  - apply bind_Ok in H as (tatm & Ht & H).
    apply (IH _ models Hrm) with (2 := H).
    intros k v Hk. destruct (decide (k = rpartition_tail n "/")) as [->|Hne].
    + rewrite lookup_insert_eq in Hk. inversion Hk; subst. eapply Hrm; eauto.
    + rewrite lookup_insert_ne in Hk by congruence. eapply Hd; eauto.
Qed.

(** X4: a model interpolated from grid files, by the standard or by the
    extended interpolator, has at least one layer and at least five
    columns, whatever the files and the requested parameters are. *)
Theorem interpolated_model_has_a_layer_and_five_columns
    (w : fs) (mnames : list string) (teff logg feh : Q * (Q * Q))
    (teff4 : Q * (Q * Q * Q * Q)) (deck : ndarray) :
  interpolator (model_of w) mnames teff logg feh = Ok deck \/
  interpolatorN7 (model_of w) mnames teff4 logg feh = Ok deck ->
  wf_array deck /\ (1 <= shape0 deck)%nat /\ (5 <= shape1 deck)%nat.
Proof.
  intros [H|H].
  - apply interpolator_shape in H as (models & Hm & H0 & H1 & Hwf).
    split; [exact Hwf|].
    apply py_min_In in H0, H1.
    apply in_map_iff in H0 as (m0 & E0 & In0). apply in_map_iff in H1 as (m1 & E1 & In1).
    destruct (for_each_In _ _ _ _ Hm In0) as (n0 & _ & R0).
    destruct (for_each_In _ _ _ _ Hm In1) as (n1 & _ & R1).
    apply model_of_inv in R0 as (_ & ? & _). apply model_of_inv in R1 as (_ & _ & ?).
    lia.
  - apply interpolatorN7_shape in H as (models & Hm & H0 & H1 & Hwf).
    split; [exact Hwf|].
    assert (Hall : forall k v, models !! k = Some v ->
              (1 <= shape0 v)%nat /\ (5 <= shape1 v)%nat).
    { apply (load_models_values (model_of w) _ mnames ∅ models); [| |exact Hm].
      - intros n m Hn. apply model_of_inv in Hn as (_ & ? & ?). auto.
      - intros k v Hk. rewrite lookup_empty in Hk. discriminate. }
    assert (Hval : forall v, In v (values models) ->
              (1 <= shape0 v)%nat /\ (5 <= shape1 v)%nat).
    { intros v Hv. unfold values in Hv. apply in_map_iff in Hv as ([k v'] & <- & Hin).
      apply (proj2 (list_elem_of_In _ _)) in Hin.
      apply elem_of_map_to_list in Hin. exact (Hall _ _ Hin). }
    apply py_min_In in H0, H1.
    apply in_map_iff in H0 as (m0 & E0 & In0). apply in_map_iff in H1 as (m1 & E1 & In1).
    destruct (Hval _ In0) as (? & _). destruct (Hval _ In1) as (_ & ?). lia.
Qed.

Lemma beyond_not_inside x lo hi :
  beyond x lo hi -> inside ((x - lo) / (hi - lo)) = false.
Proof.
  intros [Hlt Hx]. unfold inside.
  assert (Hd : 0 < hi - lo) by lra.
  destruct Hx as [Hx|Hx].
  - assert ((x - lo) / (hi - lo) < 0).
    { apply Qlt_shift_div_r; [exact Hd|]. lra. }
    destruct (Qle_bool 0 ((x - lo) / (hi - lo))) eqn:E; [|reflexivity].
    apply Qle_bool_iff in E. lra.
  - assert (1 < (x - lo) / (hi - lo)).
    { apply Qlt_shift_div_l; [exact Hd|]. lra. }
    destruct (Qle_bool ((x - lo) / (hi - lo)) 1) eqn:E; [|apply andb_false_r].
    apply Qle_bool_iff in E. lra.
Qed.

Lemma within_inside x lo hi :
  within x lo hi ->
  inside ((x - lo) / (hi - lo)) = true /\
  0 <= (x - lo) / (hi - lo) /\ (x - lo) / (hi - lo) <= 1.
Proof.
  intros (Hlt & H0 & H1).
  assert (Hd : 0 < hi - lo) by lra.
  assert (A : 0 <= (x - lo) / (hi - lo)).
  { apply Qle_shift_div_l; [exact Hd|]. lra. }
  assert (B : (x - lo) / (hi - lo) <= 1).
  { apply Qle_shift_div_r; [exact Hd|]. lra. }
  split; [|split; assumption].
  unfold inside. apply andb_true_iff. split; apply Qle_bool_iff; assumption.
Qed.

Lemma bracket_div x lo hi : lo < hi -> py_div (x - lo) (hi - lo) = Ok ((x - lo) / (hi - lo)).
Proof. intros H. apply py_div_ok. lra. Qed.

(** What [interpolator] computes for one cell, once the files are read and
    the brackets are not degenerate. *)
Lemma interpolator_cell rm mnames models t tl th g gl gh f fl fh deck l c :
  for_each rm mnames = Ok models ->
  ~ th - tl == 0 -> ~ gh - gl == 0 -> ~ fh - fl == 0 ->
  interpolator rm mnames (t, (tl, th)) (g, (gl, gh)) (f, (fl, fh)) = Ok deck ->
  (l < shape0 deck)%nat -> (c < shape1 deck)%nat ->
  exists tlayer,
    for_each (fun cntr => match models !! cntr with
                          | Some m => getitem m l c
                          | None => Raise IndexError
                          end) (seq 0 8) = Ok tlayer /\
    getitem deck l c
    = Ok (Qred (map_coordinates tlayer ((t - tl) / (th - tl))
                  ((g - gl) / (gh - gl)) ((f - fl) / (fh - fl)))).
Proof.
  intros Hm Dt Dg Df H Hl Hc. unfold interpolator in H. rewrite Hm in H.
  cbv beta iota delta [mbind res_bind] in H.
  rewrite !py_div_ok in H by assumption.
  cbv beta iota delta [mbind res_bind] in H.
  destruct (py_min (map shape0 models)) as [L|] eqn:EL; [|discriminate].
  destruct (py_min (map shape1 models)) as [C|] eqn:EC; [|discriminate].
  cbv beta iota in H.
  destruct (fill_array_shape _ _ _ _ H) as (S0 & S1 & _).
  rewrite S0 in Hl. rewrite S1 in Hc.
  destruct (fill_array_getitem _ _ _ _ _ _ H Hl Hc) as (v & Hv & Hcell).
  apply bind_Ok in Hcell as (tlayer & Ht & Hcell). inversion Hcell; subst.
  exists tlayer. split; [exact Ht|exact Hv].
Qed.

Lemma interpolator_brackets rm mnames t tl th g gl gh f fl fh deck :
  interpolator rm mnames (t, (tl, th)) (g, (gl, gh)) (f, (fl, fh)) = Ok deck ->
  exists models, for_each rm mnames = Ok models /\
    ~ th - tl == 0 /\ ~ gh - gl == 0 /\ ~ fh - fl == 0.
Proof.
  intros H. unfold interpolator in H.
  apply bind_Ok in H as (models & Hm & H). exists models. split; [exact Hm|].
  apply bind_Ok in H as (c1 & H1 & H). apply bind_Ok in H as (c2 & H2 & H).
  apply bind_Ok in H as (c3 & H3 & _).
  unfold py_div in H1, H2, H3.
  repeat split; intros E; apply Qeq_bool_iff in E.
  - rewrite E in H1; discriminate.
  - rewrite E in H2; discriminate.
  - rewrite E in H3; discriminate.
Qed.

(** X5: the standard interpolator does not extrapolate.  When the
    requested temperature, gravity or metallicity lies outside its
    bracket, every cell of the table it returns is 0. *)
Theorem interpolator_beyond_the_bracket_is_zero
    (read_model : string -> res ndarray) (mnames : list string)
    (t tl th g gl gh f fl fh : Q) (deck : ndarray) :
  interpolator read_model mnames (t, (tl, th)) (g, (gl, gh)) (f, (fl, fh))
    = Ok deck ->
  beyond t tl th \/ beyond g gl gh \/ beyond f fl fh ->
  forall layer column,
    (layer < shape0 deck)%nat -> (column < shape1 deck)%nat ->
    getitem deck layer column = Ok 0.
Proof.
  intros H Hb l c Hl Hc.
  destruct (interpolator_brackets _ _ _ _ _ _ _ _ _ _ _ _ H)
    as (models & Hm & Dt & Dg & Df).
  destruct (interpolator_cell _ _ _ _ _ _ _ _ _ _ _ _ _ _ _ Hm Dt Dg Df H Hl Hc)
    as (tlayer & _ & Hv).
  rewrite Hv. unfold map_coordinates.
  destruct Hb as [Hb|[Hb|Hb]]; apply beyond_not_inside in Hb; rewrite Hb.
  - reflexivity.
  - rewrite andb_false_r. reflexivity.
  - rewrite andb_false_r. reflexivity.
Qed.

Lemma blend_nested c1 c2 c3 v0 v1 v2 v3 v4 v5 v6 v7 :
  blend c1 c2 c3 0 [v0; v1; v2; v3; v4; v5; v6; v7]
  == lerp c1 (lerp c2 (lerp c3 v0 v1) (lerp c3 v2 v3))
             (lerp c2 (lerp c3 v4 v5) (lerp c3 v6 v7)).
Proof.
  unfold blend, corner_term, unravel_index, weight, lerp. simpl. ring.
Qed.

Lemma lerp_bounds c a b lo hi :
  0 <= c -> c <= 1 -> lo <= a -> a <= hi -> lo <= b -> b <= hi ->
  lo <= lerp c a b /\ lerp c a b <= hi.
Proof. unfold lerp. intros. split; nra. Qed.

Lemma tlayer_values (models : list ndarray) l c tlayer :
  for_each (fun cntr => match models !! cntr with
                        | Some m => getitem m l c
                        | None => Raise IndexError
                        end) (seq 0 8) = Ok tlayer ->
  exists v0 v1 v2 v3 v4 v5 v6 v7, tlayer = [v0; v1; v2; v3; v4; v5; v6; v7] /\
    forall cntr, (cntr < 8)%nat ->
      exists m, models !! cntr = Some m /\
                getitem m l c = Ok (nth cntr tlayer 0).
Proof.
  intros H. apply for_each_seq8 in H
    as (y0&y1&y2&y3&y4&y5&y6&y7&->&E0&E1&E2&E3&E4&E5&E6&E7).
  exists y0,y1,y2,y3,y4,y5,y6,y7. split; [reflexivity|].
  intros cntr Hc.
  do 8 (destruct cntr as [|cntr];
        [match goal with
         | E : match models !! ?n with _ => _ end = Ok ?y |- exists m, models !! ?n = _ /\ _ =>
             destruct (models !! n) as [m|]; [|discriminate];
             exists m; split; [reflexivity|exact E]
         end|]).
  lia.
Qed.

(** X6: inside the bracket the standard interpolator never overshoots:
    when the three requested values lie within their brackets, every cell
    of the table lies between any two bounds that hold for that cell in
    the eight grid models. *)
Theorem interpolator_stays_between_the_grid_values
    (read_model : string -> res ndarray) (mnames : list string)
    (models : list ndarray)
    (t tl th g gl gh f fl fh : Q) (deck : ndarray) (layer column : nat)
    (lo hi : Q) :
  for_each read_model mnames = Ok models ->
  interpolator read_model mnames (t, (tl, th)) (g, (gl, gh)) (f, (fl, fh))
    = Ok deck ->
  within t tl th -> within g gl gh -> within f fl fh ->
  (layer < shape0 deck)%nat -> (column < shape1 deck)%nat ->
  (forall cntr m v, (cntr < 8)%nat -> models !! cntr = Some m ->
     getitem m layer column = Ok v -> lo <= v /\ v <= hi) ->
  exists v, getitem deck layer column = Ok v /\ lo <= v /\ v <= hi.
Proof.
  intros Hm H Wt Wg Wf Hl Hc Hb.
  destruct (interpolator_brackets _ _ _ _ _ _ _ _ _ _ _ _ H)
    as (models' & Hm' & Dt & Dg & Df).
  rewrite Hm in Hm'. inversion Hm'; subst models'. clear Hm'.
  destruct (interpolator_cell _ _ _ _ _ _ _ _ _ _ _ _ _ _ _ Hm Dt Dg Df H Hl Hc)
    as (tlayer & Ht & Hv).
  eexists. split; [exact Hv|]. rewrite Qred_correct.
  destruct (within_inside _ _ _ Wt) as (I1 & A1 & B1).
  destruct (within_inside _ _ _ Wg) as (I2 & A2 & B2).
  destruct (within_inside _ _ _ Wf) as (I3 & A3 & B3).
  unfold map_coordinates. rewrite I1, I2, I3. cbn [andb].
  destruct (tlayer_values _ _ _ _ Ht) as (v0&v1&v2&v3&v4&v5&v6&v7&->&Hv8).
  assert (Hk : forall cntr, (cntr < 8)%nat ->
            lo <= nth cntr [v0;v1;v2;v3;v4;v5;v6;v7] 0 /\
            nth cntr [v0;v1;v2;v3;v4;v5;v6;v7] 0 <= hi).
  { intros cntr Hlt. destruct (Hv8 cntr Hlt) as (m & Hmm & Hg). eapply Hb; eauto. }
  pose proof (Hk 0%nat ltac:(lia)) as [L0 U0]. pose proof (Hk 1%nat ltac:(lia)) as [L1 U1].
  pose proof (Hk 2%nat ltac:(lia)) as [L2 U2]. pose proof (Hk 3%nat ltac:(lia)) as [L3 U3].
  pose proof (Hk 4%nat ltac:(lia)) as [L4 U4]. pose proof (Hk 5%nat ltac:(lia)) as [L5 U5].
  pose proof (Hk 6%nat ltac:(lia)) as [L6 U6]. pose proof (Hk 7%nat ltac:(lia)) as [L7 U7].
  cbn [nth] in *.
  rewrite blend_nested.
  destruct (lerp_bounds _ v0 v1 lo hi A3 B3 L0 U0 L1 U1).
  destruct (lerp_bounds _ v2 v3 lo hi A3 B3 L2 U2 L3 U3).
  destruct (lerp_bounds _ v4 v5 lo hi A3 B3 L4 U4 L5 U5).
  destruct (lerp_bounds _ v6 v7 lo hi A3 B3 L6 U6 L7 U7).
  destruct (lerp_bounds ((g - gl) / (gh - gl)) (lerp ((f - fl) / (fh - fl)) v0 v1)
              (lerp ((f - fl) / (fh - fl)) v2 v3) lo hi); try assumption.
  destruct (lerp_bounds ((g - gl) / (gh - gl)) (lerp ((f - fl) / (fh - fl)) v4 v5)
              (lerp ((f - fl) / (fh - fl)) v6 v7) lo hi); try assumption.
  apply lerp_bounds; assumption.
Qed.

(** X7: the standard interpolator is exact on tables that depend linearly
    on the three parameters.  When, in some cell, the eight grid models
    hold [a + b * Teff + c * logg + d * feh] at their own grid values,
    the interpolated table holds the same expression at the requested
    values, provided these lie within their brackets. *)
Theorem interpolator_is_exact_on_linear_tables
    (read_model : string -> res ndarray) (mnames : list string)
    (models : list ndarray)
    (t tl th g gl gh f fl fh : Q) (deck : ndarray) (layer column : nat)
    (a b c d : Q) :
  for_each read_model mnames = Ok models ->
  interpolator read_model mnames (t, (tl, th)) (g, (gl, gh)) (f, (fl, fh))
    = Ok deck ->
  within t tl th -> within g gl gh -> within f fl fh ->
  (layer < shape0 deck)%nat -> (column < shape1 deck)%nat ->
  (forall i j k m v, (i < 2)%nat -> (j < 2)%nat -> (k < 2)%nat ->
     models !! (4 * i + 2 * j + k)%nat = Some m ->
     getitem m layer column = Ok v ->
     v == a + b * pick i tl th + c * pick j gl gh + d * pick k fl fh) ->
  exists v, getitem deck layer column = Ok v /\
            v == a + b * t + c * g + d * f.
Proof.
  intros Hm H Wt Wg Wf Hl Hc Hlin.
  destruct (interpolator_brackets _ _ _ _ _ _ _ _ _ _ _ _ H)
    as (models' & Hm' & Dt & Dg & Df).
  rewrite Hm in Hm'. inversion Hm'; subst models'. clear Hm'.
  destruct (interpolator_cell _ _ _ _ _ _ _ _ _ _ _ _ _ _ _ Hm Dt Dg Df H Hl Hc)
    as (tlayer & Ht & Hv).
  eexists. split; [exact Hv|]. rewrite Qred_correct.
  destruct (within_inside _ _ _ Wt) as (I1 & _).
  destruct (within_inside _ _ _ Wg) as (I2 & _).
  destruct (within_inside _ _ _ Wf) as (I3 & _).
  unfold map_coordinates. rewrite I1, I2, I3. cbn [andb].
  destruct (tlayer_values _ _ _ _ Ht) as (v0&v1&v2&v3&v4&v5&v6&v7&->&Hv8).
  assert (Hk : forall i j k, (i < 2)%nat -> (j < 2)%nat -> (k < 2)%nat ->
            nth (4 * i + 2 * j + k) [v0;v1;v2;v3;v4;v5;v6;v7] 0
            == a + b * pick i tl th + c * pick j gl gh + d * pick k fl fh).
  { intros i j k Hi Hj Hk.
    destruct (Hv8 (4 * i + 2 * j + k)%nat ltac:(lia)) as (m & Hmm & Hg).
    eapply Hlin; eauto. }
  pose proof (Hk 0 0 0 ltac:(lia) ltac:(lia) ltac:(lia))%nat as E0.
  pose proof (Hk 0 0 1 ltac:(lia) ltac:(lia) ltac:(lia))%nat as E1.
  pose proof (Hk 0 1 0 ltac:(lia) ltac:(lia) ltac:(lia))%nat as E2.
  pose proof (Hk 0 1 1 ltac:(lia) ltac:(lia) ltac:(lia))%nat as E3.
  pose proof (Hk 1 0 0 ltac:(lia) ltac:(lia) ltac:(lia))%nat as E4.
  pose proof (Hk 1 0 1 ltac:(lia) ltac:(lia) ltac:(lia))%nat as E5.
  pose proof (Hk 1 1 0 ltac:(lia) ltac:(lia) ltac:(lia))%nat as E6.
  pose proof (Hk 1 1 1 ltac:(lia) ltac:(lia) ltac:(lia))%nat as E7.
  cbn [nth Nat.mul Nat.add pick] in E0, E1, E2, E3, E4, E5, E6, E7.
  rewrite blend_nested. unfold lerp.
  rewrite E0, E1, E2, E3, E4, E5, E6, E7.
  field. repeat split; assumption.
Qed.

Lemma for_each_raises {A B} (f : A -> res B) l1 x l2 e :
  (forall y, In y l1 -> is_Ok (f y)) -> f x = Raise e ->
  for_each f (l1 ++ x :: l2) = Raise e.
Proof.
  induction l1 as [|a l1 IH]; intros Hok Hx; simpl.
  - rewrite Hx. reflexivity.
  - destruct (Hok a (or_introl eq_refl)) as [b Hb]. rewrite Hb. simpl.
    rewrite IH; [reflexivity| |exact Hx]. intros; apply Hok; now right.
Qed.

Lemma fill_array_raises L C cell e :
  (0 < L)%nat -> (0 < C)%nat -> cell 0%nat 0%nat = Raise e ->
  fill_array L C cell = Raise e.
Proof.
  intros HL HC H. unfold fill_array.
  destruct L as [|L]; [lia|]. destruct C as [|C]; [lia|].
  simpl. rewrite H. reflexivity.
Qed.

Lemma seq_split8 n : (n < 8)%nat -> seq 0 8 = seq 0 n ++ n :: seq (S n) (7 - n).
Proof.
  intros H. do 8 (destruct n as [|n]; [reflexivity|]). lia.
Qed.

(** X8: the standard interpolator needs eight models.  With no model at
    all it raises [ValueError] (the minimum of an empty list), and with
    one to seven non-empty models it raises [IndexError] at the first
    cell, whatever is requested. *)
Theorem interpolator_with_fewer_than_eight_models_raises
    (read_model : string -> res ndarray) (mnames : list string)
    (models : list ndarray) (t tl th g gl gh f fl fh : Q) :
  for_each read_model mnames = Ok models ->
  ~ tl == th -> ~ gl == gh -> ~ fl == fh ->
  (List.length models < 8)%nat ->
  Forall (fun m => wf_array m /\ (0 < shape0 m)%nat /\ (0 < shape1 m)%nat) models ->
  interpolator read_model mnames (t, (tl, th)) (g, (gl, gh)) (f, (fl, fh))
  = Raise (if (List.length models =? 0)%nat then ValueError else IndexError).
Proof.
  intros Hm Dt Dg Df Hlen Hall. unfold interpolator. rewrite Hm.
  cbv beta iota delta [mbind res_bind].
  rewrite !py_div_ok by (intros E; lra).
  cbv beta iota delta [mbind res_bind].
  destruct models as [|m0 models]; [reflexivity|].
  destruct (py_min_total (map shape0 (m0 :: models))) as [L HL]; [discriminate|].
  destruct (py_min_total (map shape1 (m0 :: models))) as [C HC]; [discriminate|].
  rewrite HL, HC. cbv beta iota.
  change (List.length (m0 :: models) =? 0)%nat with false. cbv iota.
  rewrite Forall_forall in Hall.
  assert (HLpos : (0 < L)%nat).
  { apply py_min_In in HL. apply in_map_iff in HL as (m & <- & Hin).
    apply (proj2 (list_elem_of_In _ _)) in Hin. now apply Hall in Hin. }
  assert (HCpos : (0 < C)%nat).
  { apply py_min_In in HC. apply in_map_iff in HC as (m & <- & Hin).
    apply (proj2 (list_elem_of_In _ _)) in Hin. now apply Hall in Hin. }
  apply fill_array_raises; [exact HLpos|exact HCpos|].
  change (2 * 2 * 2)%nat with 8%nat.
  rewrite (seq_split8 _ Hlen).
  rewrite (for_each_raises _ _ _ _ IndexError); [reflexivity| |].
  - intros y Hy. apply in_seq in Hy.
    destruct ((m0 :: models) !! y) as [m|] eqn:Ey.
    + assert (m ∈ m0 :: models) as Hin by (eapply list_elem_of_lookup_2; eauto).
      apply Hall in Hin as (W & S0 & S1). apply getitem_wf; assumption.
    + apply lookup_ge_None in Ey. lia.
  - rewrite (proj2 (lookup_ge_None _ _)) by lia. reflexivity.
Qed.

Lemma two_items (k1 k2 : string) (v1 v2 : ndarray) :
  k1 <> k2 ->
  map_to_list (<[k2 := v2]> ({[ k1 := v1 ]} : gmap string ndarray)) = [(k1, v1); (k2, v2)] \/
  map_to_list (<[k2 := v2]> ({[ k1 := v1 ]} : gmap string ndarray)) = [(k2, v2); (k1, v1)].
Proof.
  intros Hne.
  assert (P : Permutation [(k2, v2); (k1, v1)]
                (map_to_list (<[k2 := v2]> ({[ k1 := v1 ]} : gmap string ndarray)))).
  { symmetry. rewrite map_to_list_insert by (rewrite lookup_singleton_ne; congruence).
    rewrite map_to_list_singleton. reflexivity. }
  apply Permutation_length_2_inv in P as [->| ->]; [right|left]; reflexivity.
Qed.

(** X9: with two models the extended interpolator's collapse of one axis
    is the straight line through the two values, followed beyond the
    models as well as between them: every cell is
    [y1 + (param - x1) * (y2 - y1) / (x2 - x1)], where [x1], [x2] are the
    grid values read off the two keys and [y1], [y2] the cells of the two
    models. *)
Theorem _interpol_of_two_models_is_the_line_through_them
    (k1 k2 : string) (v1 v2 : ndarray) (kind : string) (x1 x2 param : Q)
    (L C : nat) :
  k1 <> k2 ->
  key_value kind k1 = Ok x1 -> key_value kind k2 = Ok x2 -> ~ x1 == x2 ->
  well_shaped L C v1 -> well_shaped L C v2 -> (0 < L)%nat -> (0 < C)%nat ->
  exists name arr,
    _interpol (<[k2 := v2]> {[ k1 := v1 ]}) param kind L C
      = Ok {[ name := arr ]} /\
    shape0 arr = L /\ shape1 arr = C /\
    forall l c, (l < L)%nat -> (c < C)%nat ->
      cell_value arr l c ==
      cell_value v1 l c
      + (param - x1) * ((cell_value v2 l c - cell_value v1 l c) / (x2 - x1)).
Proof.
  intros Hne K1 K2 Hx W1 W2 HL HC.
  destruct (two_items k1 k2 v1 v2 Hne) as [E|E].
  - destruct (_interpol_values (<[k2 := v2]> {[ k1 := v1 ]}) param kind L C
                [(k1, v1); (k2, v2)] [x1; x2] 1%nat
                (result_name kind [(k1, v1); (k2, v2)]))
      as (arr & Harr & _ & S0 & S1 & V); try assumption; try reflexivity.
    + simpl. rewrite K1, K2. reflexivity.
    + intros kv [<-|[<-|[]]]; assumption.
    + discriminate.
    + apply spread1_nonzero. intros E'. apply Hx. simpl in E'. lra.
    + exists (result_name kind [(k1, v1); (k2, v2)]), arr.
      split; [exact Harr|]. split; [exact S0|]. split; [exact S1|].
      intros l c Hl Hc. rewrite (V l c Hl Hc). cbn [map combine fst snd].
      rewrite fit_two_points by (intros E'; apply Hx; lra).
      field. intros E'. apply Hx. lra.
  - destruct (_interpol_values (<[k2 := v2]> {[ k1 := v1 ]}) param kind L C
                [(k2, v2); (k1, v1)] [x2; x1] 1%nat
                (result_name kind [(k2, v2); (k1, v1)]))
      as (arr & Harr & _ & S0 & S1 & V); try assumption; try reflexivity.
    + simpl. rewrite K1, K2. reflexivity.
    + intros kv [<-|[<-|[]]]; assumption.
    + discriminate.
    + apply spread1_nonzero. intros E'. apply Hx. simpl in E'. lra.
    + exists (result_name kind [(k2, v2); (k1, v1)]), arr.
      split; [exact Harr|]. split; [exact S0|]. split; [exact S1|].
      intros l c Hl Hc. rewrite (V l c Hl Hc). cbn [map combine fst snd].
      rewrite fit_two_points by (intros E'; apply Hx; lra).
      field. split; intros E'; apply Hx; lra.
Qed.

Lemma cross_of_parabola (A B C' : Q) (pts : list (Q * Q)) (k : nat) :
  (forall p, In p pts -> snd p == A + B * fst p + C' * (fst p * fst p)) ->
  cross k pts == A * moment k pts + B * moment (S k) pts + C' * moment (S (S k)) pts.
Proof.
  unfold cross, moment. induction pts as [|p pts IH]; intros H.
  - cbn [map]. rewrite !qsum_nil. ring.
  - cbn [map]. rewrite !qsum_cons. rewrite IH by (intros; apply H; now right).
    rewrite (H p) by now left. cbn [qpow]. ring.
Qed.

Lemma fit_exact_on_parabola (A B C' : Q) (pts : list (Q * Q)) :
  (forall p, In p pts -> snd p == A + B * fst p + C' * (fst p * fst p)) ->
  ~ normal_det 2 (sums_of pts) == 0 ->
  fit_at_target 2 pts == A.
Proof.
  intros H HD. unfold fit_at_target. apply (lsq_exact_quadratic _ A B C' HD).
  - exact (cross_of_parabola A B C' pts 0 H).
  - exact (cross_of_parabola A B C' pts 1 H).
  - exact (cross_of_parabola A B C' pts 2 H).
Qed.

Lemma fit_at_target_perm deg pts pts' :
  Permutation pts pts' -> fit_at_target deg pts == fit_at_target deg pts'.
Proof.
  intros P. unfold fit_at_target. apply polyval_lsq_proper. now apply sums_of_perm.
Qed.

Lemma spread_perm deg xs xs' :
  Permutation xs xs' -> spread deg xs == spread deg xs'.
Proof.
  intros P. unfold spread. apply normal_det_proper, sums_of_perm.
  now apply Permutation_map.
Qed.

Lemma combine_map {A B C} (f : A -> B) (g : A -> C) (l : list A) :
  combine (map f l) (map g l) = map (fun x => (f x, g x)) l.
Proof. induction l as [|a l IH]; simpl; [reflexivity|now rewrite IH]. Qed.

(** X10: with four models the collapse of an axis reproduces parabolas,
    as soon as three of the grid values differ (here the first three):
    in a cell where the four models hold [a + b * x + c * x^2] at their
    grid values [x], the collapsed table holds the same expression at the
    requested value. *)
Theorem _interpol_of_four_models_is_exact_on_parabolas
    (k1 k2 k3 k4 : string) (v1 v2 v3 v4 : ndarray) (kind : string)
    (x1 x2 x3 x4 param : Q) (L C : nat) (a b c : Q) :
  NoDup [k1; k2; k3; k4] ->
  key_value kind k1 = Ok x1 -> key_value kind k2 = Ok x2 ->
  key_value kind k3 = Ok x3 -> key_value kind k4 = Ok x4 ->
  ~ x1 == x2 -> ~ x1 == x3 -> ~ x2 == x3 ->
  well_shaped L C v1 -> well_shaped L C v2 ->
  well_shaped L C v3 -> well_shaped L C v4 ->
  (0 < L)%nat -> (0 < C)%nat ->
  exists name arr,
    _interpol (list_to_map [(k1, v1); (k2, v2); (k3, v3); (k4, v4)])
      param kind L C = Ok {[ name := arr ]} /\
    shape0 arr = L /\ shape1 arr = C /\
    forall l col, (l < L)%nat -> (col < C)%nat ->
      cell_value v1 l col == a + b * x1 + c * (x1 * x1) ->
      cell_value v2 l col == a + b * x2 + c * (x2 * x2) ->
      cell_value v3 l col == a + b * x3 + c * (x3 * x3) ->
      cell_value v4 l col == a + b * x4 + c * (x4 * x4) ->
      cell_value arr l col == a + b * param + c * (param * param).
Proof.
  intros Hnd K1 K2 K3 K4 D12 D13 D23 W1 W2 W3 W4 HL HC.
  set (items := [(k1, v1); (k2, v2); (k3, v3); (k4, v4)]).
  set (models := list_to_map items : gmap string ndarray).
  assert (P : Permutation (map_to_list models) items).
  { apply map_to_list_to_map. exact Hnd. }
  assert (Hin : forall kv, In kv (map_to_list models) -> In kv items).
  { intros kv Hkv. eapply Permutation_in; eauto. }
  assert (Hkey : forall kv, In kv items -> key_value kind (fst kv) = Ok (grid_value kind kv)).
  { intros kv [<-|[<-|[<-|[<-|[]]]]]; unfold grid_value; cbn [fst];
      rewrite ?K1, ?K2, ?K3, ?K4; reflexivity. }
  assert (Hlen : List.length (map_to_list models) = 4%nat).
  { rewrite (Permutation_length P). reflexivity. }
  destruct (_interpol_values models param kind L C (map_to_list models)
              (map (grid_value kind) (map_to_list models)) 2%nat
              (result_name kind (map_to_list models)))
    as (arr & Harr & _ & S0 & S1 & V); try assumption; try reflexivity.
  - rewrite Hlen. reflexivity.
  - apply for_each_map_ok. intros kv Hkv. apply Hkey. now apply Hin.
  - intros kv Hkv. apply Hin in Hkv.
    destruct Hkv as [<-|[<-|[<-|[<-|[]]]]]; assumption.
  - intros E. rewrite E in Hlen. discriminate.
  - rewrite map_map.
    rewrite (spread_perm 2 _ (map (fun kv => grid_value kind kv - param) items))
      by (apply Permutation_map; exact P).
    cbn [map items]. unfold grid_value. cbn [fst]. rewrite K1, K2, K3, K4.
    apply spread2_nonzero; intros E; [apply D12|apply D13|apply D23]; lra.
  - exists (result_name kind (map_to_list models)), arr.
    split; [exact Harr|]. split; [exact S0|]. split; [exact S1|].
    intros l col Hl Hc E1 E2 E3 E4. rewrite (V l col Hl Hc).
    rewrite map_map, combine_map.
    rewrite (fit_at_target_perm 2 _
               (map (fun kv => (grid_value kind kv - param, cell_value (snd kv) l col)) items))
      by (apply Permutation_map; exact P).
    cbn [map items]. unfold grid_value. cbn [fst snd]. rewrite K1, K2, K3, K4.
    apply (fit_exact_on_parabola (a + b * param + c * (param * param))
             (b + 2 * c * param) c).
    + intros p [<-|[<-|[<-|[<-|[]]]]]; cbn [fst snd];
        rewrite ?E1, ?E2, ?E3, ?E4; ring.
    + rewrite normal_det_spread. cbn [map fst].
      apply spread2_nonzero; intros E; [apply D12|apply D13|apply D23]; lra.
Qed.

Lemma Qabs_opp_eq (x : Q) : Qabs (- x) = Qabs x.
Proof. destruct x as [n d]. unfold Qabs, Qopp. simpl. now rewrite Z.abs_opp. Qed.

Lemma Qopp_opp_eq (x : Q) : - - x = x.
Proof. destruct x as [n d]. unfold Qopp. simpl. now rewrite Z.opp_involutive. Qed.

Lemma str_float_opp (x : Q) :
  0 < x -> str_float (- x) = String "-" (str_float x).
Proof.
  intros Hx. unfold str_float.
  assert (Qeq_bool x 0 = false) as ->.
  { apply not_true_is_false. intros E. apply Qeq_bool_iff in E. lra. }
  assert (Qeq_bool (- x) 0 = false) as ->.
  { apply not_true_is_false. intros E. apply Qeq_bool_iff in E. lra. }
  assert (Qle_bool 0 x = true) as -> by (apply Qle_bool_iff; lra).
  assert (Qle_bool 0 (- x) = false) as ->.
  { apply not_true_is_false. intros E. apply Qle_bool_iff in E. lra. }
  rewrite Qabs_opp_eq.
  destruct (round_half_even (Qabs x * pow10 (11 - floor_log10 (Qabs x)))
            =? 10 ^ 12)%Z;
    cbv zeta beta iota;
    repeat match goal with
           | |- context [if ?b then _ else _] => destruct b
           end; reflexivity.
Qed.

Lemma unsigned_text (s : string) :
  replace (replace (String "-" s) "." EmptyString) "-" EmptyString
  = replace (replace s "." EmptyString) "-" EmptyString.
Proof.
  unfold replace at 2 4. cbn [replace_from String.prefix String.length].
  destruct (ascii_dec "." "-") as [E|_]; [discriminate E|].
  unfold replace. cbn [replace_from String.prefix String.length].
  destruct (ascii_dec "-" "-") as [_|N]; [|congruence].
  assert (P : forall t, String.prefix EmptyString t = true) by (intros [|? ?]; reflexivity).
  rewrite P. reflexivity.
Qed.

(** X11: the test that sorts a grid file under a metallicity does not see
    the sign of the metallicity: [has_feh] gives the same answer for
    [feh] and [-feh], on every file name. *)
Theorem has_feh_ignores_the_sign (feh : Q) (model : string) :
  has_feh (- feh) model = has_feh feh model.
Proof.
  unfold has_feh.
  destruct (Qlt_le_dec 0 feh) as [Hpos|Hle].
  - rewrite (str_float_opp feh Hpos), unsigned_text. reflexivity.
  - destruct (Qlt_le_dec feh 0) as [Hneg|Hge].
    + assert (0 < - feh) as Hpos by lra.
      rewrite <- (Qopp_opp_eq feh) at 2.
      rewrite (str_float_opp (- feh) Hpos), unsigned_text. reflexivity.
    + assert (E : feh == 0) by lra.
      unfold str_float.
      assert (Qeq_bool feh 0 = true) as -> by (apply Qeq_bool_iff; exact E).
      assert (Qeq_bool (- feh) 0 = true) as -> by (apply Qeq_bool_iff; lra).
      reflexivity.
Qed.

Lemma sort_step_lookup (models : dict) g1 g2 f1 f2 (acc : dict * dict * dict * dict) a k :
  let r := sort_step models g1 g2 f1 f2 acc a in
  r.1.1.1 !! k = filed models g1 g2 f1 f2 a k 1 acc.1.1.1 /\
  r.1.1.2 !! k = filed models g1 g2 f1 f2 a k 2 acc.1.1.2 /\
  r.1.2 !! k = filed models g1 g2 f1 f2 a k 3 acc.1.2 /\
  r.2 !! k = filed models g1 g2 f1 f2 a k 4 acc.2.
Proof.
  destruct acc as [[[m1 m2] m3] m4]. cbv zeta. unfold filed, sort_step.
  destruct (decide (a = k)) as [->|Hne].
  - rewrite bool_decide_eq_true_2 by reflexivity. cbn [andb].
    unfold group_of, names_grid_point.
    destruct (models !! k) as [v|] eqn:Ev.
    + rewrite bool_decide_eq_true_2 by eauto. rewrite !andb_true_r.
      destruct (has_logg g1 k && has_feh f1 k);
        [cbn [fst snd Nat.eqb]; rewrite lookup_insert_eq; auto|].
      destruct (has_logg g1 k && has_feh f2 k);
        [cbn [fst snd Nat.eqb]; rewrite lookup_insert_eq; auto|].
      destruct (has_logg g2 k && has_feh f1 k);
        [cbn [fst snd Nat.eqb]; rewrite lookup_insert_eq; auto|].
      destruct (has_logg g2 k && has_feh f2 k);
        [cbn [fst snd Nat.eqb]; rewrite lookup_insert_eq; auto|].
      cbn [fst snd Nat.eqb]. auto.
    + rewrite bool_decide_eq_false_2 by (intros [? ?]; discriminate).
      rewrite !andb_false_r. cbn [fst snd]. auto.
  - rewrite bool_decide_eq_false_2 by exact Hne. cbn [andb].
    destruct (models !! a) as [v|]; [|cbn [fst snd]; auto].
    destruct (has_logg g1 a && has_feh f1 a);
      [cbn [fst snd]; rewrite lookup_insert_ne by exact Hne; auto|].
    destruct (has_logg g1 a && has_feh f2 a);
      [cbn [fst snd]; rewrite lookup_insert_ne by exact Hne; auto|].
    destruct (has_logg g2 a && has_feh f1 a);
      [cbn [fst snd]; rewrite lookup_insert_ne by exact Hne; auto|].
    destruct (has_logg g2 a && has_feh f2 a);
      [cbn [fst snd]; rewrite lookup_insert_ne by exact Hne; auto|].
    cbn [fst snd]. auto.
Qed.

Lemma sort_step_spec (models : dict) g1 g2 f1 f2 (ks : list string) :
  forall (acc : dict * dict * dict * dict) (k : string),
  let r := fold_left (sort_step models g1 g2 f1 f2) ks acc in
  let pick (n : nat) (old : dict) :=
    if bool_decide (k ∈ ks) && (group_of g1 g2 f1 f2 k =? n)%nat
       && bool_decide (is_Some (models !! k))
    then models !! k else old !! k in
  r.1.1.1 !! k = pick 1%nat acc.1.1.1 /\
  r.1.1.2 !! k = pick 2%nat acc.1.1.2 /\
  r.1.2 !! k = pick 3%nat acc.1.2 /\
  r.2 !! k = pick 4%nat acc.2.
Proof.
  induction ks as [|a ks IH]; intros acc k; cbv zeta.
  - cbn [fold_left]. rewrite bool_decide_eq_false_2 by (apply not_elem_of_nil).
    cbn [andb]. auto.
  - cbn [fold_left].
    specialize (IH (sort_step models g1 g2 f1 f2 acc a) k). cbv zeta in IH.
    destruct IH as (I1 & I2 & I3 & I4). rewrite I1, I2, I3, I4. clear I1 I2 I3 I4.
    destruct (sort_step_lookup models g1 g2 f1 f2 acc a k) as (S1 & S2 & S3 & S4).
    rewrite S1, S2, S3, S4. clear S1 S2 S3 S4. unfold filed.
    assert (Hin : bool_decide (k ∈ a :: ks)
                  = bool_decide (a = k) || bool_decide (k ∈ ks)).
    { destruct (decide (a = k)) as [->|Hne].
      - rewrite (bool_decide_eq_true_2 (k ∈ k :: ks)) by apply list_elem_of_here.
        rewrite (bool_decide_eq_true_2 (k = k)) by reflexivity. reflexivity.
      - rewrite (bool_decide_eq_false_2 (a = k)) by exact Hne. cbn [orb].
        apply bool_decide_ext. rewrite elem_of_cons. split; [|now right].
        intros [E|H]; [congruence|exact H]. }
    rewrite Hin. clear Hin.
    destruct (bool_decide (k ∈ ks)), (bool_decide (a = k)),
      (bool_decide (is_Some (models !! k)));
      cbn [andb orb]; rewrite ?andb_false_r;
      repeat split;
      match goal with
      | |- context [(?x =? ?n)%nat] => destruct (x =? n)%nat; reflexivity
      | |- _ => reflexivity
      end.
Qed.

Lemma In_keys (models : dict) k : k ∈ keys models <-> is_Some (models !! k).
Proof.
  unfold keys. rewrite list_elem_of_fmap. split.
  - intros ([k' v] & -> & H). apply elem_of_map_to_list in H. eauto.
  - intros [v H]. exists (k, v). split; [reflexivity|].
    now apply elem_of_map_to_list.
Qed.

Lemma sort_models_spec (models : dict) g1 g2 f1 f2 M1 M2 M3 M4 :
  sort_models models g1 g2 f1 f2 = (M1, M2, M3, M4) ->
  forall k v,
    (M1 !! k = Some v <-> models !! k = Some v /\ group_of g1 g2 f1 f2 k = 1%nat) /\
    (M2 !! k = Some v <-> models !! k = Some v /\ group_of g1 g2 f1 f2 k = 2%nat) /\
    (M3 !! k = Some v <-> models !! k = Some v /\ group_of g1 g2 f1 f2 k = 3%nat) /\
    (M4 !! k = Some v <-> models !! k = Some v /\ group_of g1 g2 f1 f2 k = 4%nat).
Proof.
  intros H k v.
  pose proof (sort_step_spec models g1 g2 f1 f2 (keys models) (∅, ∅, ∅, ∅) k) as S.
  cbv zeta in S.
  change (fold_left (sort_step models g1 g2 f1 f2) (keys models) (∅, ∅, ∅, ∅))
    with (sort_models models g1 g2 f1 f2) in S.
  rewrite H in S.
  cbn [fst snd] in S. destruct S as (S1 & S2 & S3 & S4).
  rewrite S1, S2, S3, S4. clear S1 S2 S3 S4.
  rewrite !lookup_empty.
  assert (Hk : bool_decide (k ∈ keys models) = bool_decide (is_Some (models !! k))).
  { apply bool_decide_ext. apply In_keys. }
  rewrite Hk. clear Hk.
  destruct (models !! k) as [v'|] eqn:Ev.
  - rewrite bool_decide_eq_true_2 by eauto. cbn [andb]. rewrite !andb_true_r.
    repeat split; intros; 
      repeat match goal with
      | H : _ /\ _ |- _ => destruct H
      | H : (if ?c then _ else _) = Some _ |- _ =>
          destruct c eqn:?; [|discriminate]
      | H : (_ =? _)%nat = true |- _ => apply Nat.eqb_eq in H
      | H : ?x = ?n |- context [(?x =? ?n)%nat] => rewrite H; cbn [Nat.eqb]
      end; auto.
  - rewrite bool_decide_eq_false_2 by (intros [? ?]; discriminate). cbn [andb].
    repeat split; intros; 
      repeat match goal with
      | H : _ /\ _ |- _ => destruct H
      end; try discriminate.
Qed.

(** X12: [interpolatorN7] files every model it read in at most one of its
    four groups, namely the first of the four (gravity, metallicity)
    tests, in the order of the code, that the file name passes; a model
    whose name passes none is left out.  Each group holds exactly the
    models filed in it, with their own tables. *)
Theorem sort_models_files_each_model_under_its_first_match
    (models : dict) (logg1 logg2 feh1 feh2 : Q) (M1 M2 M3 M4 : dict) :
  sort_models models logg1 logg2 feh1 feh2 = (M1, M2, M3, M4) ->
  forall k v,
    (M1 !! k = Some v <->
       models !! k = Some v /\ group_of logg1 logg2 feh1 feh2 k = 1%nat) /\
    (M2 !! k = Some v <->
       models !! k = Some v /\ group_of logg1 logg2 feh1 feh2 k = 2%nat) /\
    (M3 !! k = Some v <->
       models !! k = Some v /\ group_of logg1 logg2 feh1 feh2 k = 3%nat) /\
    (M4 !! k = Some v <->
       models !! k = Some v /\ group_of logg1 logg2 feh1 feh2 k = 4%nat).
Proof. apply sort_models_spec. Qed.

Lemma _interpol_empty param kind L C :
  _interpol ∅ param kind L C
  = Raise (if (0 <? L)%nat && (0 <? C)%nat then TypeError else NameError).
Proof.
  unfold _interpol. rewrite map_to_list_empty. cbn [for_each List.length map].
  destruct (Nat.ltb_spec 0 L) as [HL|HL], (Nat.ltb_spec 0 C) as [HC|HC]; cbn [andb].
  - rewrite (fill_array_raises L C _ TypeError HL HC); reflexivity.
  - assert (C = 0%nat) as -> by lia.
    destruct (fill_array_total L 0 (fun _ _ =>
                pts ← Ok []; let pts0 := sort_by_dist pts in
                p ← polyfit (map fst pts0) (map snd pts0) (if (2 <? 0)%nat then 2%nat else 1%nat);
                Ok (polyval p 0))) as [a Ha]; [intros; lia|].
    cbv beta iota delta [mbind res_bind] in Ha |- *.
    unfold mbind in Ha. rewrite Ha. reflexivity.
  - assert (L = 0%nat) as -> by lia. reflexivity.
  - assert (L = 0%nat) as -> by lia. reflexivity.
Qed.

(** X13: when no file name passes the test of the first gravity and the
    first metallicity, [interpolatorN7] does not interpolate: it raises
    [TypeError] (the fit of an empty sample), or [NameError] when the
    models have no layer or no column. *)
Theorem interpolatorN7_without_a_file_of_the_first_grid_point_raises
    (read_model : string -> res ndarray) (mnames : list string)
    (teff : Q) (grid : Q * Q * Q * Q) (logg logg1 logg2 feh feh1 feh2 : Q)
    (models : dict) (L C : nat) :
  load_models read_model mnames ∅ = Ok models ->
  py_min (map shape0 (values models)) = Ok L ->
  py_min (map shape1 (values models)) = Ok C ->
  (forall k, is_Some (models !! k) -> names_grid_point logg1 feh1 k = false) ->
  interpolatorN7 read_model mnames (teff, grid) (logg, (logg1, logg2))
    (feh, (feh1, feh2))
  = Raise (if (0 <? L)%nat && (0 <? C)%nat then TypeError else NameError).
Proof.
  intros Hm HL HC Hno.
  unfold interpolatorN7, second_collapse, first_collapse.
  rewrite Hm. cbv beta iota delta [mbind res_bind]. rewrite HL, HC. cbv beta iota.
  destruct (sort_models models logg1 logg2 feh1 feh2) as [[[M1 M2] M3] M4] eqn:Es.
  assert (M1 = ∅) as ->.
  { apply map_empty. intros k. destruct (M1 !! k) as [v|] eqn:Ek; [|reflexivity].
    destruct (sort_models_spec _ _ _ _ _ _ _ _ _ Es k v) as (S1 & _).
    apply S1 in Ek as (Hk & Hg). unfold group_of in Hg.
    rewrite (Hno k) in Hg by eauto.
    repeat match type of Hg with
           | (if ?c then _ else _) = _ => destruct c
           end; discriminate. }
  rewrite _interpol_empty. reflexivity.
Qed.

Import runmoog_fortran.

Lemma sq_zero (x : Q) : x * x == 0 -> x == 0.
Proof. intros H. nra. Qed.

(** X14: the residual of [fun_moog] is never negative.  With the gravity
    fixed it is zero exactly when both slopes are zero.  Otherwise it is
    zero exactly when the abundance of the first stage exceeds that of
    the second by [(3.5 * EP)^2 + (1.3 * RW)^2]: the abundance difference
    enters unsquared, so the residual can vanish while the slopes do
    not, and it is positive at zero difference unless both slopes are
    zero. *)
Theorem fun_moog_vanishes_where_the_difference_offsets_the_slopes
    (_get_model : Q -> Q -> Q -> res (list string * (Q * Q) * (Q * Q) * (Q * Q)))
    (read_model : string -> res ndarray)
    (save_model : ndarray -> Q * Q * Q * Q -> fs -> res fs)
    (MOOGSILENT : fs -> fs)
    (x : Q * Q * Q * Q) (par results : string) (fix_logg : bool) (w : fs)
    (EP RW a0 a1 : Q) (EPs RWs : list Q) :
  engine_report _get_model read_model save_model MOOGSILENT x par results w
    = Ok (EP :: EPs, RW :: RWs, [a0; a1]) ->
  exists v,
    fun_moog _get_model read_model save_model MOOGSILENT x par results fix_logg w
      = Ok (Some v) /\
    0 <= v /\
    (v == 0 <->
       if fix_logg then EP == 0 /\ RW == 0
       else a0 - a1 == 3.5 * EP * (3.5 * EP) + 1.3 * RW * (1.3 * RW)).
Proof.
  intros H. unfold fun_moog. rewrite H.
  cbv beta iota delta [mbind res_bind]. cbn [List.length Nat.eqb item lookup list_lookup].
  destruct fix_logg.
  - eexists. split; [reflexivity|]. cbn [qpow].
    set (s := 3.5 * EP * (3.5 * EP * 1) + 1.3 * RW * (1.3 * RW * 1)).
    assert (Hs : 0 <= s) by (unfold s; nra).
    split; [nra|]. split.
    + intros E. assert (s == 0) by nra. unfold s in *. split; nra.
    + intros [E1 E2]. unfold s. rewrite E1, E2. ring.
  - eexists. split; [reflexivity|]. cbn [qpow].
    set (s := 3.5 * EP * (3.5 * EP * 1) + 1.3 * RW * (1.3 * RW * 1) + (a1 - a0)).
    split; [nra|]. split.
    + intros E. assert (s == 0) by nra. unfold s in *. nra.
    + intros E. assert (s == 0) by (unfold s; nra). nra.
Qed.

(** X15: the residual of [fun_moog_fortran] is a sum of squares: it is
    never negative, it is zero exactly when both slopes are zero and the
    two abundances agree, and it does not depend on [fix_logg]. *)
Theorem fun_moog_fortran_is_a_sum_of_squares
    (os_system : string -> fs -> fs) (MOOGSILENT : fs -> fs)
    (teff logg feh vt : Q) (par results : string) (fix_logg : bool) (w : fs)
    (EP RW a0 a1 : Q) (EPs RWs : list Q) :
  let w' := os_system ("echo " ++ str_float vt ++ " | " ++ specpar ++ "transform.e")%string
              (os_system ("echo " ++ str_Z (py_trunc (teff * 100)) ++ " "
                          ++ str_float logg ++ " " ++ str_float feh ++ " | "
                          ++ specpar ++ "intermod.e")%string w) in
  _read_moog results (MOOGSILENT w') = Ok (EP :: EPs, RW :: RWs, [a0; a1]) ->
  exists v,
    fun_moog_fortran os_system MOOGSILENT (teff, logg, feh, vt) par results
      fix_logg w = Ok (Some v) /\
    fun_moog_fortran os_system MOOGSILENT (teff, logg, feh, vt) par results
      (negb fix_logg) w = Ok (Some v) /\
    0 <= v /\
    (v == 0 <-> EP == 0 /\ RW == 0 /\ a0 == a1).
Proof.
  intros w' H. unfold fun_moog_fortran, _run_moog. fold w'. rewrite H.
  cbv beta iota delta [mbind res_bind]. cbn [List.length Nat.eqb item lookup list_lookup].
  eexists. split; [reflexivity|]. split; [reflexivity|]. cbn [qpow].
  rewrite !Qmult_1_r.
  pose proof (square_nonneg EP) as S1. pose proof (square_nonneg RW) as S2.
  pose proof (square_nonneg (a1 - a0)) as S3.
  split; [lra|]. split.
  - intros E. assert (Z1 : EP * EP == 0) by lra. assert (Z2 : RW * RW == 0) by lra.
    assert (Z3 : (a1 - a0) * (a1 - a0) == 0) by lra.
    apply sq_zero in Z1, Z2, Z3. repeat split; lra.
  - intros (E1 & E2 & E3). rewrite E1, E2, E3. ring.
Qed.

Lemma scan_report_skips lines : forall E R A,
  scan_report lines E R A
  = scan_report (List.filter read_by_read_moog lines) E R A.
Proof.
  induction lines as [|line rest IH]; intros E R A; [reflexivity|].
  cbn [List.filter]. unfold read_by_read_moog at 1.
  destruct (startswith line "E.P") eqn:E1.
  { cbn [orb scan_report]. rewrite E1. destruct (number_after line "slope ="); [|reflexivity].
    cbv beta iota delta [mbind res_bind]. apply IH. }
  destruct (startswith line "R.W") eqn:E2.
  { cbn [orb scan_report]. rewrite E1, E2.
    destruct (number_after line "slope ="); [|reflexivity].
    cbv beta iota delta [mbind res_bind]. apply IH. }
  destruct (startswith line "average abundance") eqn:E3.
  { cbn [orb scan_report]. rewrite E1, E2, E3.
    destruct (number_after line "abundance ="); [|reflexivity].
    cbv beta iota delta [mbind res_bind]. apply IH. }
  cbn [orb scan_report]. rewrite E1, E2, E3. apply IH.
Qed.

Lemma scan_report_counts lines : forall E R A E' R' A',
  scan_report lines E R A = Ok (E', R', A') ->
  List.length E' = (List.length E
     + List.length (List.filter (fun l => startswith l "E.P") lines))%nat /\
  List.length R' = (List.length R
     + List.length (List.filter (fun l => startswith l "R.W") lines))%nat /\
  List.length A' = (List.length A
     + List.length (List.filter (fun l => startswith l "average abundance") lines))%nat.
Proof.
  induction lines as [|line rest IH]; intros E R A E' R' A' H.
  - simpl in H. inversion H; subst. simpl. lia.
  - cbn [scan_report] in H. cbn [List.filter].
    assert (Hex : forall p q : string, startswith line p = true ->
              startswith line q = true ->
              forall c d p' q', p = String c p' -> q = String d q' -> c = d).
    { intros p q Hp Hq c d p' q' -> ->. unfold startswith in *.
      destruct line as [|c0 line]; [discriminate Hp|].
      cbn [String.prefix] in Hp, Hq.
      destruct (ascii_dec c c0); [|discriminate Hp].
      destruct (ascii_dec d c0); [|discriminate Hq]. congruence. }
    destruct (startswith line "E.P") eqn:E1.
    { assert (startswith line "R.W" = false) as ->.
      { apply not_true_is_false. intros E2.
        specialize (Hex _ _ E1 E2 _ _ _ _ eq_refl eq_refl). discriminate Hex. }
      assert (startswith line "average abundance" = false) as ->.
      { apply not_true_is_false. intros E2.
        specialize (Hex _ _ E1 E2 _ _ _ _ eq_refl eq_refl). discriminate Hex. }
      apply bind_Ok in H as (v & _ & H). apply IH in H as (A1 & A2 & A3).
      rewrite length_app in A1. simpl in *. lia. }
    destruct (startswith line "R.W") eqn:E2.
    { assert (startswith line "average abundance" = false) as ->.
      { apply not_true_is_false. intros E3.
        specialize (Hex _ _ E2 E3 _ _ _ _ eq_refl eq_refl). discriminate Hex. }
      apply bind_Ok in H as (v & _ & H). apply IH in H as (A1 & A2 & A3).
      rewrite length_app in A2. simpl in *. lia. }
    destruct (startswith line "average abundance") eqn:E3.
    { apply bind_Ok in H as (v & _ & H). apply IH in H as (A1 & A2 & A3).
      rewrite length_app in A3. simpl in *. lia. }
    apply IH in H. exact H.
Qed.

(** X16: [_read_moog] reads nothing but the report lines that begin with
    'E.P', 'R.W' or 'average abundance'.  Every other line may be taken
    out, or put in anywhere, without changing what it returns or raises;
    and when it returns, each of its three lists has one entry per line
    with the corresponding beginning. *)
Theorem _read_moog_reads_only_its_three_kinds_of_lines
    (fname : string) (w : fs) (lines : list string) :
  w !! fname = Some lines ->
  _read_moog fname w
    = _read_moog fname (<[fname := List.filter read_by_read_moog lines]> w) /\
  forall EPs RWs abundances,
    _read_moog fname w = Ok (EPs, RWs, abundances) ->
    List.length EPs
      = List.length (List.filter (fun l => startswith l "E.P") lines) /\
    List.length RWs
      = List.length (List.filter (fun l => startswith l "R.W") lines) /\
    List.length abundances
      = List.length (List.filter (fun l => startswith l "average abundance") lines).
Proof.
  intros Hw. unfold _read_moog, read_lines. rewrite Hw, lookup_insert_eq.
  cbv beta iota delta [mbind res_bind].
  split; [apply scan_report_skips|].
  intros E R A H. apply scan_report_counts in H. simpl in H. exact H.
Qed.

Lemma filter_comm {A} (p q : A -> bool) (l : list A) :
  List.filter p (List.filter q l) = List.filter q (List.filter p l).
Proof.
  induction l as [|a l IH]; [reflexivity|]. simpl.
  destruct (q a) eqn:Eq, (p a) eqn:Ep; simpl; rewrite ?Eq, ?Ep, IH; reflexivity.
Qed.

Lemma filter_idem {A} (p : A -> bool) (l : list A) :
  List.filter p (List.filter p l) = List.filter p l.
Proof.
  induction l as [|a l IH]; [reflexivity|]. simpl.
  destruct (p a) eqn:Ep; simpl; rewrite ?Ep, IH; reflexivity.
Qed.

Lemma removeOutlier_inv fname wl w w' :
  removeOutlier fname wl w = Ok w' ->
  exists lines, w !! fname = Some lines /\
    w' = <[fname := List.filter (fun line =>
            negb (startswith (replace line " " EmptyString)
                    (str_float (py_round wl 2)))) lines]> w.
Proof.
  unfold removeOutlier, read_lines. destruct (w !! fname) as [lines|]; [|discriminate].
  intros H. inversion H. eauto.
Qed.

Lemma removeOutlier_on fname wl w lines :
  w !! fname = Some lines ->
  removeOutlier fname wl w
  = Ok (<[fname := List.filter (fun line =>
            negb (startswith (replace line " " EmptyString)
                    (str_float (py_round wl 2)))) lines]> w).
Proof. intros H. unfold removeOutlier, read_lines. rewrite H. reflexivity. Qed.

(** X17: removals from a line list commute and repeat harmlessly.
    Removing the lines of two wavelengths in either order leaves the
    same files, and removing a wavelength a second time changes
    nothing.  On a file that does not exist [removeOutlier] raises
    [IOError]. *)
Theorem removeOutlier_commutes_and_is_idempotent
    (fname : string) (wl1 wl2 : Q) (w : fs) :
  match w !! fname with
  | None => removeOutlier fname wl1 w = Raise IOError
  | Some _ =>
      exists w1 w2 w12,
        removeOutlier fname wl1 w = Ok w1 /\
        removeOutlier fname wl2 w = Ok w2 /\
        removeOutlier fname wl2 w1 = Ok w12 /\
        removeOutlier fname wl1 w2 = Ok w12 /\
        removeOutlier fname wl1 w1 = Ok w1
  end.
Proof.
  destruct (w !! fname) as [lines|] eqn:E.
  - do 3 eexists.
    split; [apply removeOutlier_on; exact E|].
    split; [apply removeOutlier_on; exact E|].
    split; [apply removeOutlier_on; apply lookup_insert_eq|].
    split.
    + rewrite (removeOutlier_on fname wl1 _ _ (lookup_insert_eq _ _ _)).
      rewrite !insert_insert_eq. now rewrite filter_comm.
    + rewrite (removeOutlier_on fname wl1 _ _ (lookup_insert_eq _ _ _)).
      rewrite insert_insert_eq. now rewrite filter_idem.
  - unfold removeOutlier, read_lines. rewrite E. reflexivity.
Qed.

Lemma str_Z_head (z : Z) c s : str_Z z = String c s -> c <> "#"%char.
Proof.
  unfold str_Z, NilZero.string_of_int.
  destruct (Z.to_int z) as [u|u]; destruct u; simpl; intros H; inversion H; discriminate.
Qed.

Lemma text_firstn_head (n : nat) (l : list ascii) rest c s :
  (0 < n)%nat -> (text (firstn n l) ++ rest)%string = String c s ->
  (exists l', l = c :: l') \/ (l = [] /\ rest = String c s).
Proof.
  intros Hn H. destruct n as [|n]; [lia|]. destruct l as [|a l].
  - right. split; [reflexivity|exact H].
  - left. simpl in H. inversion H; subst. eauto.
Qed.

Lemma chars_str_Z_head z c l : chars (str_Z z) = c :: l -> c <> "#"%char.
Proof.
  intros H. unfold chars in H. destruct (str_Z z) as [|c' s] eqn:E; [discriminate|].
  simpl in H. inversion H; subst. eapply str_Z_head; eauto.
Qed.

Lemma str_float_head (x : Q) :
  exists c s, str_float x = String c s /\ c <> "#"%char.
Proof.
  unfold str_float.
  destruct (Qeq_bool x 0); [do 2 eexists; split; [reflexivity|discriminate]|].
  destruct (Qle_bool 0 x);
    [|destruct (round_half_even _ =? 10 ^ 12)%Z; cbv zeta beta iota;
      repeat match goal with
             | |- context [if ?b then _ else _] => destruct b
             end;
      (do 2 eexists; split; [reflexivity|discriminate])].
  set (a := Qabs x). set (X0 := floor_log10 a).
  set (m0 := round_half_even (a * pow10 (11 - X0))).
  destruct (if (m0 =? 10 ^ 12)%Z then ((10 ^ 11)%Z, (X0 + 1)%Z) else (m0, X0))
    as [m X] eqn:EmX.
  cbv zeta beta iota.
  destruct ((-4 <=? X) && (X <? 12))%Z.
  - destruct (Z.leb_spec 0 X) as [HX|HX].
    + cbn [String.append].
      destruct (Z.to_nat (X + 1)) as [|n] eqn:En; [lia|].
      destruct (chars (str_Z m)) as [|c l] eqn:Ec.
      * cbn [firstn text string_of_list_ascii String.append].
        do 2 eexists. split; [reflexivity|discriminate].
      * cbn [firstn text string_of_list_ascii String.append].
        do 2 eexists. split; [reflexivity|]. eapply chars_str_Z_head; eauto.
    + do 2 eexists. split; [reflexivity|discriminate].
  - cbn [String.append].
    destruct (chars (str_Z m)) as [|c l] eqn:Ec.
    + cbn [firstn skipn text string_of_list_ascii String.append].
      destruct (rstrip_zeros []);
        cbn [String.append]; do 2 eexists; (split; [reflexivity|discriminate]).
    + cbn [firstn text string_of_list_ascii String.append].
      do 2 eexists. split; [reflexivity|]. eapply chars_str_Z_head; eauto.
Qed.

(** X18: [removeOutlier] never takes out a comment line: a line whose
    first non-blank character is '#' (the header of a line list) is still
    in the file afterwards, whatever the wavelength. *)
Theorem removeOutlier_keeps_comment_lines
    (fname : string) (wl : Q) (w w' : fs) (lines : list string) (line : string) :
  removeOutlier fname wl w = Ok w' ->
  w !! fname = Some lines -> In line lines ->
  startswith (replace line " " EmptyString) "#" = true ->
  exists lines', w' !! fname = Some lines' /\ In line lines'.
Proof.
  intros H Hw Hin Hc. rewrite (removeOutlier_on _ _ _ _ Hw) in H. inversion H; subst.
  eexists. split; [apply lookup_insert_eq|].
  apply filter_In. split; [exact Hin|]. cbv beta.
  destruct (str_float_head (py_round wl 2)) as (c & s & -> & Hne).
  revert Hc. unfold replace. generalize (replace_from " " EmptyString 0 line). intros t Hc.
  unfold startswith in *.
  destruct t as [|c0 t]; [discriminate Hc|].
  cbn [String.prefix] in Hc |- *.
  destruct (ascii_dec "#" c0) as [<-|]; [|discriminate Hc].
  destruct (ascii_dec c "#"); [congruence|reflexivity].
Qed.

Lemma fold_max_spec (ks : list Q) (k0 : Q) :
  let m := fold_left (fun a b => if Qle_bool a b then b else a) ks k0 in
  (m = k0 \/ In m ks) /\ k0 <= m /\ forall k, In k ks -> k <= m.
Proof.
  revert k0. induction ks as [|b ks IH]; intros k0; cbv zeta.
  - simpl. split; [now left|]. split; [apply Qle_refl|]. intros k [].
  - cbn [fold_left]. specialize (IH (if Qle_bool k0 b then b else k0)).
    cbv zeta in IH. destruct IH as (Hin & Hle & Hall).
    destruct (Qle_bool k0 b) eqn:E.
    + apply Qle_bool_iff in E. split; [destruct Hin as [->|Hin]; right; [now left|now right]|].
      split; [lra|]. intros k [<-|Hk]; [exact Hle|now apply Hall].
    + assert (b < k0).
      { apply Qnot_le_lt. intros H. apply Qle_bool_iff in H. congruence. }
      split; [destruct Hin as [->|Hin]; [now left|right; now right]|].
      split; [exact Hle|]. intros k [<-|Hk]; [lra|now apply Hall].
Qed.

Lemma getitem_report_total d k : In k (map fst d) -> is_Ok (getitem_report d k).
Proof.
  induction d as [|[k' v] d IH]; intros H; [destruct H|]. simpl.
  destruct (Qeq_bool k' k) eqn:E; [eexists; reflexivity|].
  destruct H as [H|H]; [|now apply IH].
  simpl in H. subst. exfalso.
  assert (Qeq_bool k k = true) by (apply Qeq_bool_iff; reflexivity). congruence.
Qed.

(** X19: on a report with at least one entry, [max(outliers.keys())] is a
    deviation of the report that no other deviation exceeds, and the
    look-up of its wavelength succeeds; on an empty report [max] raises
    [ValueError]. *)
Theorem max_key_is_a_largest_deviation_of_the_report (d : report) :
  match d with
  | [] => max_key d = Raise ValueError
  | _ :: _ =>
      exists k wl,
        max_key d = Ok k /\ In k (map fst d) /\
        (forall k', In k' (map fst d) -> k' <= k) /\
        getitem_report d k = Ok wl
  end.
Proof.
  destruct d as [|[k0 v0] d]; [reflexivity|].
  unfold max_key. cbn [map fst].
  destruct (fold_max_spec (map fst d) k0) as (Hin & Hle & Hall).
  set (m := fold_left (fun a b => if Qle_bool a b then b else a) (map fst d) k0) in *.
  assert (Hm : In m (k0 :: map fst d)).
  { destruct Hin as [->|Hin]; [now left|now right]. }
  destruct (getitem_report_total ((k0, v0) :: d) m Hm) as [wl Hwl].
  exists m, wl. split; [reflexivity|]. split; [exact Hm|].
  split; [|exact Hwl]. intros k' [<-|Hk]; [exact Hle|now apply Hall].
Qed.

Lemma preserves_ret J {A} (a : A) : preserves J (mret a : prog A).
Proof. intros w H. exact H. Qed.

Lemma preserves_bind J {A B} (m : prog A) (f : A -> prog B) :
  preserves J m -> (forall a, preserves J (f a)) -> preserves J (m ≫= f).
Proof.
  intros Hm Hf w H. unfold mbind, prog_bind. specialize (Hm w H).
  destruct (m w) as [[a|e] w1]; simpl in *; [now apply Hf|exact Hm].
Qed.

Lemma preserves_from_files J {A} (f : fs -> res A) : preserves J (from_files f).
Proof. intros w H. exact H. Qed.

Lemma preserves_raise J {A} (e : exn) : preserves J (fun w => (Raise e, w) : res A * world).
Proof. intros w H. exact H. Qed.

Lemma preserves_try J {A} (m : prog A) : preserves J m -> preserves J (try_ValueError m).
Proof.
  intros Hm w H. unfold try_ValueError. specialize (Hm w H).
  destruct (m w) as [[a|e] w1]; [exact Hm|]. destruct e; exact Hm.
Qed.

Lemma preserves_while J fuel body d p ran :
  (forall d p, preserves J (body d p)) ->
  preserves J (while_outliers fuel body d p ran).
Proof.
  intros Hb. revert d p ran. induction fuel as [|fuel IH]; intros d p ran.
  - destruct d; simpl; [apply preserves_ret | apply preserves_raise].
  - destruct d as [|e d]; simpl; [apply preserves_ret|].
    apply preserves_bind; [apply Hb|]. intros [p' d']. apply IH.
Qed.

(** *** What the outlier runner writes *)

Lemma outlierRunner_frame ext fuel type linelist p o name :
  hands_off ext name -> name <> tmpll ->
  name <> ("linelist/" ++ replace linelist ".moog" "_outlier.moog")%string ->
  keeps name (_outlierRunner ext fuel type linelist p o).
Proof.
  intros Hext Htmp Hnew.
  assert (Htmp' : tmpll <> name) by congruence.
  assert (Hnew' : ("linelist/" ++ replace linelist ".moog" "_outlier.moog")%string <> name)
    by congruence.
  unfold _outlierRunner.
  apply keeps_bind.
  { apply keeps_on_files. intros w w'. now apply copyfile_other. }
  intros _. apply keeps_bind; [now apply keeps_update_par|intros _].
  apply keeps_bind; [apply keeps_hasOutlier|intros d].
  apply keeps_bind.
  { destruct (String.eqb type "1Iter").
    { apply keeps_while; auto. intros; now apply keeps_drop_worst. }
    destruct (String.eqb type "1Once").
    { destruct d; [apply keeps_ret|].
      apply keeps_bind; [now apply keeps_drop_worst|]. intros [? ?]. apply keeps_ret. }
    destruct (String.eqb type "allIter").
    { apply keeps_while; auto. intros; now apply keeps_drop_all. }
    destruct (String.eqb type "allOnce").
    { destruct d; [apply keeps_ret|].
      apply keeps_bind; [now apply keeps_drop_all|]. intros [? ?]. apply keeps_ret. }
    apply keeps_ret. }
  intros [p' [|]].
  - apply keeps_bind.
    { apply keeps_on_files. intros w w'. now apply copyfile_other. }
    intros _. apply keeps_bind.
    { apply keeps_on_files. intros w w'. now apply os_remove_other. }
    intros _. apply keeps_bind; [now apply keeps_update_par|intros _]. apply keeps_ret.
  - apply keeps_bind; [now apply keeps_update_par|intros _].
    apply keeps_bind.
    { apply keeps_on_files. intros w w'. now apply os_remove_other. }
    intros _. apply keeps_ret.
Qed.

(** X20: the outlier runner itself writes two files only, its working
    copy [linelist/tmplinelist.moog] and the derivative list
    [linelist/<name with '.moog' replaced by '_outlier.moog'>].  Every
    other file that the solver and [_update_par] leave alone has the
    same contents after the runner as before, whichever policy runs and
    however the runner ends. *)
Theorem outlierRunner_writes_only_its_copy_and_the_derivative
    (ext : collaborators) (fuel : nat) (type linelist : string)
    (parameters : list Q) (o : options) (name : string) (w : world) :
  hands_off ext name -> name <> tmpll ->
  name <> ("linelist/" ++ replace linelist ".moog" "_outlier.moog")%string ->
  files (snd (_outlierRunner ext fuel type linelist parameters o w)) !! name
  = files w !! name.
Proof. intros H1 H2 H3. now apply outlierRunner_frame. Qed.

Lemma filter_sublist {A} (p : A -> bool) (l : list A) : sublist (List.filter p l) l.
Proof.
  induction l as [|a l IH]; simpl; [constructor|].
  destruct (p a); [now apply sublist_skip|now apply sublist_cons].
Qed.

Lemma keeps_preserves name (P : option (list string) -> Prop) {A} (m : prog A) :
  keeps name m -> preserves (fun w => P (files w !! name)) m.
Proof. intros Hk w H. now rewrite (Hk w). Qed.

Lemma run_Ok {A} (J : world -> Prop) (m : prog A) w a w' :
  preserves J m -> J w -> m w = (Ok a, w') -> J w'.
Proof. intros Hp HJ H. specialize (Hp w HJ). now rewrite H in Hp. Qed.

Section Working_copy.

Variable ext : collaborators.
Variable orig : string.
Variable L : list string.
Hypothesis Htmp : hands_off ext tmpll.
Hypothesis Horig : hands_off ext orig.
Hypothesis Hne : orig <> tmpll.

Lemma shrinks_keeps {A} (m : prog A) :
  keeps tmpll m -> keeps orig m -> preserves (copy_shrinks orig L) m.
Proof.
  intros H1 H2 w [HJ HK]. unfold copy_shrinks. now rewrite (H1 w), (H2 w).
Qed.

Lemma shrinks_removeOutlier wl :
  preserves (copy_shrinks orig L) (on_files (removeOutlier tmpll wl)).
Proof.
  intros w [(l & Hl & Hs) HK]. unfold on_files.
  rewrite (removeOutlier_on _ _ _ _ Hl). unfold copy_shrinks. cbn [snd files]. split.
  - eexists. split; [apply lookup_insert_eq|].
    etransitivity; [apply filter_sublist|exact Hs].
  - rewrite lookup_insert_ne by (intros E; apply Hne; now rewrite E). exact HK.
Qed.

Lemma shrinks_run_minimize p o : preserves (copy_shrinks orig L) (run_minimize ext p o).
Proof. apply shrinks_keeps; now apply keeps_run_minimize. Qed.

Lemma shrinks_update_par l : preserves (copy_shrinks orig L) (update_par ext l).
Proof. apply shrinks_keeps; now apply keeps_update_par. Qed.

Lemma shrinks_hasOutlier v n : preserves (copy_shrinks orig L) (hasOutlier ext v n).
Proof. apply preserves_from_files. Qed.

Lemma shrinks_remove_each wls : preserves (copy_shrinks orig L) (remove_each tmpll wls).
Proof.
  induction wls as [|wl wls IH]; simpl; [apply preserves_ret|].
  apply preserves_bind; [apply shrinks_removeOutlier|intros _; exact IH].
Qed.

Lemma shrinks_drop_worst d p o : preserves (copy_shrinks orig L) (drop_worst ext d p o).
Proof.
  unfold drop_worst.
  apply preserves_bind; [apply preserves_from_files|intros k].
  apply preserves_bind; [apply preserves_from_files|intros wl].
  apply preserves_bind; [apply shrinks_removeOutlier|intros _].
  apply preserves_bind; [apply shrinks_run_minimize|intros [p' c]].
  apply preserves_bind; [apply shrinks_hasOutlier|intros d']. apply preserves_ret.
Qed.

Lemma shrinks_drop_all d p o : preserves (copy_shrinks orig L) (drop_all ext d p o).
Proof.
  unfold drop_all.
  apply preserves_bind; [apply shrinks_remove_each|intros _].
  apply preserves_bind; [apply shrinks_run_minimize|intros [p' c]].
  apply preserves_bind; [apply shrinks_hasOutlier|intros d']. apply preserves_ret.
Qed.

Lemma shrinks_policy fuel type d p o :
  preserves (copy_shrinks orig L)
    (if String.eqb type "1Iter" then
       while_outliers fuel (fun d p => drop_worst ext d p o) d p false
     else if String.eqb type "1Once" then
       match d with
       | [] => mret (p, false)
       | _ => '(p, _) ← drop_worst ext d p o; mret (p, true)
       end
     else if String.eqb type "allIter" then
       while_outliers fuel (fun d p => drop_all ext d p o) d p false
     else if String.eqb type "allOnce" then
       match d with
       | [] => mret (p, false)
       | _ => '(p, _) ← drop_all ext d p o; mret (p, true)
       end
     else mret (p, false)).
Proof.
  destruct (String.eqb type "1Iter").
  { apply preserves_while. intros; apply shrinks_drop_worst. }
  destruct (String.eqb type "1Once").
  { destruct d; [apply preserves_ret|].
    apply preserves_bind; [apply shrinks_drop_worst|]. intros [? ?]. apply preserves_ret. }
  destruct (String.eqb type "allIter").
  { apply preserves_while. intros; apply shrinks_drop_all. }
  destruct (String.eqb type "allOnce").
  { destruct d; [apply preserves_ret|].
    apply preserves_bind; [apply shrinks_drop_all|]. intros [? ?]. apply preserves_ret. }
  apply preserves_ret.
Qed.

End Working_copy.

Lemma on_files_Ok f w w' : on_files f w = (Ok tt, w') ->
  exists fs', f (files w) = Ok fs' /\ w' = mkworld fs' (results_csv w) (solver_runs w).
Proof.
  unfold on_files. destruct (f (files w)) as [fs'|e]; intros H; inversion H. eauto.
Qed.

Lemma update_par_Ok ext l w w' : update_par ext l w = (Ok tt, w') ->
  w' = mkworld (ewDriver._update_par ext l (files w)) (results_csv w) (solver_runs w).
Proof.
  intros H. unfold update_par in H.
  apply on_files_Ok in H as (fs' & E & ->). now inversion E.
Qed.

(** X21: when the outlier runner returns, the line list it names holds
    lines of the list it was given, in their order: lines are taken out,
    never added, changed or moved.  The working copy
    [linelist/tmplinelist.moog] is gone. *)
Theorem outlierRunner_leaves_a_subsequence_of_the_line_list
    (ext : collaborators) (fuel : nat) (type linelist : string)
    (parameters : list Q) (o : options) (w : world) (L : list string)
    (name' : string) (parameters' : list Q) (w' : world) :
  hands_off_linelists ext ->
  linelist <> "tmplinelist.moog"%string ->
  replace linelist ".moog" "_outlier.moog" <> "tmplinelist.moog"%string ->
  files w !! ("linelist/" ++ linelist)%string = Some L ->
  _outlierRunner ext fuel type linelist parameters o w
    = (Ok (name', parameters'), w') ->
  (name' = linelist \/ name' = replace linelist ".moog" "_outlier.moog") /\
  (exists l, files w' !! ("linelist/" ++ name')%string = Some l /\ sublist l L) /\
  files w' !! tmpll = None.
Proof.
  intros Hext Hl Hn HL H.
  set (orig := ("linelist/" ++ linelist)%string) in *.
  set (new := replace linelist ".moog" "_outlier.moog") in *.
  assert (Htmp : hands_off ext tmpll) by apply (Hext "tmplinelist.moog"%string).
  assert (Horig : hands_off ext orig) by apply Hext.
  assert (Hnew : hands_off ext ("linelist/" ++ new)%string) by apply Hext.
  assert (Hne : orig <> tmpll).
  { unfold orig, tmpll. intros E. apply Hl. simpl in E. now inversion E. }
  assert (Hne' : ("linelist/" ++ new)%string <> tmpll).
  { unfold tmpll. intros E. apply Hn. simpl in E. now inversion E. }
  unfold _outlierRunner in H. fold orig new in H.
  apply prog_bind_Ok in H as ([] & w1 & H1 & H).
  apply prog_bind_Ok in H as ([] & w2 & H2 & H).
  apply prog_bind_Ok in H as (d & w3 & H3 & H).
  apply prog_bind_Ok in H as ([p1 newLineList] & w4 & H4 & H).
  assert (I1 : copy_shrinks orig L w1).
  { apply on_files_Ok in H1 as (fs' & E & ->). unfold copyfile, read_lines in E.
    rewrite HL in E. inversion E; subst. unfold copy_shrinks. cbn [files]. split.
    - exists L. split; [apply lookup_insert_eq|reflexivity].
    - rewrite lookup_insert_ne by (intros E'; apply Hne; now rewrite E'). exact HL. }
  assert (I2 : copy_shrinks orig L w2)
    by exact (run_Ok _ _ _ _ _ (shrinks_update_par ext orig L Htmp Horig _) I1 H2).
  assert (I3 : copy_shrinks orig L w3)
    by exact (run_Ok _ _ _ _ _ (shrinks_hasOutlier ext orig L _ _) I2 H3).
  assert (I4 : copy_shrinks orig L w4)
    by exact (run_Ok _ _ _ _ _ (shrinks_policy ext orig L Htmp Horig Hne _ _ _ _ _) I3 H4).
  destruct I4 as [(l & Hl4 & Hs4) HK4].
  destruct newLineList.
  - apply prog_bind_Ok in H as ([] & w5 & H5 & H).
    apply prog_bind_Ok in H as ([] & w6 & H6 & H).
    apply prog_bind_Ok in H as ([] & w7 & H7 & H).
    inversion H; subst name' parameters' w'. clear H.
    apply on_files_Ok in H5 as (f5 & E5 & ->). cbn [files] in *.
    unfold copyfile, read_lines in E5. rewrite Hl4 in E5. inversion E5; subst f5. clear E5.
    apply on_files_Ok in H6 as (f6 & E6 & ->). cbn [files] in *.
    unfold os_remove in E6. rewrite lookup_insert_ne in E6 by exact Hne'.
    rewrite Hl4 in E6. inversion E6; subst f6. clear E6.
    apply update_par_Ok in H7. subst w7. cbn [files].
    split; [now right|]. split.
    + exists l. split; [|exact Hs4].
      rewrite (proj2 Hnew).
      rewrite lookup_delete_ne by (intros E; apply Hne'; now rewrite E).
      apply lookup_insert_eq.
    + rewrite (proj2 Htmp). apply lookup_delete_eq.
  - apply prog_bind_Ok in H as ([] & w5 & H5 & H).
    apply prog_bind_Ok in H as ([] & w6 & H6 & H).
    inversion H; subst name' parameters' w'. clear H.
    apply update_par_Ok in H5. subst w5.
    apply on_files_Ok in H6 as (f6 & E6 & ->). cbn [files] in *.
    unfold os_remove in E6. rewrite (proj2 Htmp), Hl4 in E6. inversion E6; subst f6.
    split; [now left|]. split.
    + exists L. split; [|reflexivity].
      rewrite lookup_delete_ne by (intros E; apply Hne; now rewrite E).
      rewrite (proj2 Horig). exact HK4.
    + apply lookup_delete_eq.
Qed.

(** *** The rows of [results.csv] *)

Section Ledger.

Variable ext : collaborators.
Variable J : world -> Prop.
Hypothesis J_blind : forall w f n, J w -> J (mkworld f (results_csv w) n).

Lemma ledger_on_files f : preserves J (on_files f).
Proof.
  intros w H. unfold on_files. destruct (f (files w)); simpl; [now apply J_blind|exact H].
Qed.

Lemma ledger_with_files {A} (f : fs -> res A * fs) : preserves J (with_files f).
Proof.
  intros w H. unfold with_files. destruct (f (files w)) as [r f']. simpl.
  now apply J_blind.
Qed.

Lemma ledger_run_minimize p o : preserves J (run_minimize ext p o).
Proof.
  intros w H. unfold run_minimize.
  apply (ledger_with_files _ (mkworld (files w) (results_csv w) (S (solver_runs w)))).
  now apply J_blind.
Qed.

Lemma ledger_update_par l : preserves J (update_par ext l).
Proof. apply ledger_on_files. Qed.

Lemma ledger_remove_each name wls : preserves J (remove_each name wls).
Proof.
  induction wls as [|wl wls IH]; simpl; [apply preserves_ret|].
  apply preserves_bind; [apply ledger_on_files|intros _; exact IH].
Qed.

Lemma ledger_drop_worst d p o : preserves J (drop_worst ext d p o).
Proof.
  unfold drop_worst.
  apply preserves_bind; [apply preserves_from_files|intros k].
  apply preserves_bind; [apply preserves_from_files|intros wl].
  apply preserves_bind; [apply ledger_on_files|intros _].
  apply preserves_bind; [apply ledger_run_minimize|intros [p' c]].
  apply preserves_bind; [apply preserves_from_files|intros d']. apply preserves_ret.
Qed.

Lemma ledger_drop_all d p o : preserves J (drop_all ext d p o).
Proof.
  unfold drop_all.
  apply preserves_bind; [apply ledger_remove_each|intros _].
  apply preserves_bind; [apply ledger_run_minimize|intros [p' c]].
  apply preserves_bind; [apply preserves_from_files|intros d']. apply preserves_ret.
Qed.

Lemma ledger_outlierRunner fuel type linelist p o :
  preserves J (_outlierRunner ext fuel type linelist p o).
Proof.
  unfold _outlierRunner.
  apply preserves_bind; [apply ledger_on_files|intros _].
  apply preserves_bind; [apply ledger_update_par|intros _].
  apply preserves_bind; [apply preserves_from_files|intros d].
  apply preserves_bind.
  { destruct (String.eqb type "1Iter").
    { apply preserves_while. intros; apply ledger_drop_worst. }
    destruct (String.eqb type "1Once").
    { destruct d; [apply preserves_ret|].
      apply preserves_bind; [apply ledger_drop_worst|]. intros [? ?]. apply preserves_ret. }
    destruct (String.eqb type "allIter").
    { apply preserves_while. intros; apply ledger_drop_all. }
    destruct (String.eqb type "allOnce").
    { destruct d; [apply preserves_ret|].
      apply preserves_bind; [apply ledger_drop_all|]. intros [? ?]. apply preserves_ret. }
    apply preserves_ret. }
  intros [p' [|]].
  - apply preserves_bind; [apply ledger_on_files|intros _].
    apply preserves_bind; [apply ledger_on_files|intros _].
    apply preserves_bind; [apply ledger_update_par|intros _]. apply preserves_ret.
  - apply preserves_bind; [apply ledger_update_par|intros _].
    apply preserves_bind; [apply ledger_on_files|intros _]. apply preserves_ret.
Qed.

Lemma ledger_teffrange_block fuel line0 p c o :
  preserves J (teffrange_block ext fuel line0 p c o).
Proof.
  unfold teffrange_block.
  apply preserves_bind; [apply preserves_from_files|intros d].
  apply preserves_bind; [apply preserves_from_files|intros ll].
  destruct (existsb id (in1d ll d)); [|apply preserves_ret].
  apply preserves_bind; [apply preserves_from_files|intros teff].
  destruct (lt_float 7000 teff); [apply preserves_ret|].
  destruct (lt_float teff 5200); [|apply preserves_ret].
  apply preserves_bind; [apply ledger_remove_each|intros _].
  apply preserves_bind; [apply preserves_try, ledger_run_minimize|intros r].
  destruct r as [[p' c']|]; (destruct (outlier o);
    [apply preserves_bind; [apply ledger_outlierRunner|intros [? ?]; apply preserves_ret]
    |apply preserves_ret]).
Qed.

Lemma ledger_autofixvt_block p c o : preserves J (autofixvt_block ext p c o).
Proof.
  unfold autofixvt_block.
  destruct (autofixvt o && negb c); [|apply preserves_ret].
  apply preserves_bind; [apply ledger_with_files|intros RWs].
  apply preserves_bind; [apply preserves_from_files|intros vt].
  match goal with |- preserves _ (if ?b then _ else _) => destruct b end;
    [|apply preserves_ret].
  apply preserves_bind; [apply ledger_run_minimize|intros [? ?]; apply preserves_ret].
Qed.

Lemma ledger_refine_block p c o : preserves J (refine_block ext p c o).
Proof.
  unfold refine_block.
  destruct (c && refine o); [|apply preserves_ret].
  apply preserves_bind; [apply ledger_run_minimize|intros [p1 [|]]; apply preserves_ret].
Qed.

Lemma ledger_renaming l c : preserves J (_renaming l c).
Proof. unfold _renaming. destruct c; apply ledger_on_files. Qed.

Lemma ledger_final_parameters l c p o : preserves J (final_parameters ext l c p o).
Proof.
  unfold final_parameters.
  apply preserves_bind; [apply preserves_from_files|intros p'].
  apply preserves_from_files.
Qed.

End Ledger.

Lemma logs_ret_None : logs (mret None).
Proof. intros w. simpl. now rewrite app_nil_r. Qed.

Lemma logs_bind {A} (m : prog A) (f : A -> prog (option row)) :
  (forall R, preserves (fun w => results_csv w = R) m) ->
  (forall a, logs (f a)) -> logs (m ≫= f).
Proof.
  intros Hm Hf w. unfold mbind, prog_bind.
  specialize (Hm (results_csv w) w eq_refl).
  destruct (m w) as [[a|e] w1]; simpl in *.
  - rewrite (Hf a w1). now rewrite Hm.
  - now rewrite Hm, app_nil_r.
Qed.

Lemma blind_rows R w f n :
  results_csv w = R -> results_csv (mkworld f (results_csv w) n) = R.
Proof. intros H. exact H. Qed.

Lemma job_logs ext fuel as_main line0 initial o :
  logs (job ext fuel as_main line0 initial o).
Proof.
  unfold job.
  destruct (negb (existsb (String.eqb (model o)) known_models)); [apply logs_ret_None|].
  apply logs_bind; [intros R; apply ledger_with_files, blind_rows|intros _].
  apply logs_bind.
  { intros R. apply preserves_try, ledger_run_minimize, blind_rows. }
  intros [[p c]|]; [|apply logs_ret_None].
  apply logs_bind.
  { intros R. cbn [outlier set_GUI]. destruct (outlier _);
      [apply ledger_outlierRunner, blind_rows|apply preserves_ret]. }
  intros [l1 p1]. apply logs_bind.
  { intros R. destruct (teffrange _);
      [apply ledger_teffrange_block, blind_rows|apply preserves_ret]. }
  intros [[l2 p2] c2]. apply logs_bind.
  { intros R. apply ledger_autofixvt_block, blind_rows. }
  intros [[p3 c3] o3]. apply logs_bind.
  { intros R. apply ledger_refine_block, blind_rows. }
  intros [p4 o4]. apply logs_bind.
  { intros R. apply ledger_renaming, blind_rows. }
  intros _. apply logs_bind.
  { intros R. apply ledger_final_parameters. }
  intros p5 w. reflexivity.
Qed.

(** X22: one pass of the loop of [ewdriver], followed up to its call of
    [_output], adds a row to [results.csv] exactly when it gets to that
    call.  The rows that were there are kept as they are and the new row
    comes last; a pass that is skipped, or that stops with an exception
    on the way, adds nothing. *)
Theorem job_appends_exactly_the_row_it_returns
    (ext : collaborators) (fuel : nat) (as_main : bool) (line0 : string)
    (initial : list Q) (o : options) (w : world) :
  results_csv (snd (job ext fuel as_main line0 initial o w))
  = results_csv w ++ rows_of (fst (job ext fuel as_main line0 initial o w)).
Proof. apply job_logs. Qed.


(** *** How often the solver is started *)

Lemma runs_ret {A} (a : A) : runs_at_most 0 (mret a : prog A).
Proof. intros w. simpl. lia. Qed.

Lemma runs_bind a b n {A B} (m : prog A) (f : A -> prog B) :
  runs_at_most a m -> (forall x, runs_at_most b (f x)) -> (a + b <= n)%nat ->
  runs_at_most n (m ≫= f).
Proof.
  intros Hm Hf Hn w. unfold mbind, prog_bind. specialize (Hm w).
  destruct (m w) as [[x|e] w1]; simpl in *; [|lia].
  specialize (Hf x w1). lia.
Qed.

Lemma runs_weaken a n {A} (m : prog A) :
  runs_at_most a m -> (a <= n)%nat -> runs_at_most n m.
Proof. intros Hm Hn w. specialize (Hm w). lia. Qed.

Lemma runs_from_files {A} (f : fs -> res A) : runs_at_most 0 (from_files f).
Proof. intros w. simpl. lia. Qed.

Lemma runs_on_files f : runs_at_most 0 (on_files f).
Proof. intros w. unfold on_files. destruct (f (files w)); simpl; lia. Qed.

Lemma runs_with_files {A} (f : fs -> res A * fs) : runs_at_most 0 (with_files f).
Proof. intros w. unfold with_files. destruct (f (files w)); simpl; lia. Qed.

Lemma runs_try n {A} (m : prog A) : runs_at_most n m -> runs_at_most n (try_ValueError m).
Proof.
  intros Hm w. unfold try_ValueError. specialize (Hm w).
  destruct (m w) as [[a|e] w1]; [exact Hm|]. destruct e; exact Hm.
Qed.

Lemma runs_run_minimize ext p o : runs_at_most 1 (run_minimize ext p o).
Proof.
  intros w. unfold run_minimize, with_files. cbn [files results_csv solver_runs].
  destruct (minimize ext p o (files w)); simpl; lia.
Qed.

Lemma runs_remove_each name wls : runs_at_most 0 (remove_each name wls).
Proof.
  induction wls as [|wl wls IH]; simpl; [apply runs_ret|].
  apply (runs_bind 0 0); [apply runs_on_files|intros _; exact IH|lia].
Qed.

Lemma runs_drop_worst ext d p o : runs_at_most 1 (drop_worst ext d p o).
Proof.
  unfold drop_worst.
  apply (runs_bind 0 1); [apply runs_from_files|intros k|lia].
  apply (runs_bind 0 1); [apply runs_from_files|intros wl|lia].
  apply (runs_bind 0 1); [apply runs_on_files|intros _|lia].
  apply (runs_bind 1 0); [apply runs_run_minimize|intros [p' c]|lia].
  apply (runs_bind 0 0); [apply runs_from_files|intros d'; apply runs_ret|lia].
Qed.

Lemma runs_drop_all ext d p o : runs_at_most 1 (drop_all ext d p o).
Proof.
  unfold drop_all.
  apply (runs_bind 0 1); [apply runs_remove_each|intros _|lia].
  apply (runs_bind 1 0); [apply runs_run_minimize|intros [p' c]|lia].
  apply (runs_bind 0 0); [apply runs_from_files|intros d'; apply runs_ret|lia].
Qed.

Lemma runs_while fuel body d p ran :
  (forall d p, runs_at_most 1 (body d p)) ->
  runs_at_most fuel (while_outliers fuel body d p ran).
Proof.
  intros Hb. revert d p ran. induction fuel as [|fuel IH]; intros d p ran.
  - destruct d; simpl; [apply runs_ret|]. intros w. simpl. lia.
  - destruct d as [|e d]; simpl; [apply (runs_weaken 0); [apply runs_ret|lia]|].
    apply (runs_bind 1 fuel); [apply Hb|intros [p' d']; apply IH|lia].
Qed.

Lemma runs_once {A} (d : report) (p : list Q) (body : prog (list Q * A)) :
  runs_at_most 1 body ->
  runs_at_most 1 (match d with
                  | [] => mret (p, false)
                  | _ => '(p, _) ← body; mret (p, true)
                  end).
Proof.
  intros Hb. destruct d; [apply (runs_weaken 0); [apply runs_ret|lia]|].
  apply (runs_bind 1 0); [exact Hb|intros [? ?]; apply runs_ret|lia].
Qed.

Lemma runs_outlierRunner ext fuel type linelist p o :
  runs_at_most (rounds fuel type) (_outlierRunner ext fuel type linelist p o).
Proof.
  unfold _outlierRunner.
  apply (runs_bind 0 (rounds fuel type)); [apply runs_on_files|intros _|lia].
  apply (runs_bind 0 (rounds fuel type)); [apply runs_on_files|intros _|lia].
  apply (runs_bind 0 (rounds fuel type)); [apply runs_from_files|intros d|lia].
  apply (runs_bind (rounds fuel type) 0); [|intros [p' [|]]|lia].
  - unfold rounds.
    destruct (String.eqb_spec type "1Iter") as [->|H1]; simpl.
    { apply runs_while. intros; apply runs_drop_worst. }
    destruct (String.eqb_spec type "1Once") as [->|H2]; simpl.
    { apply runs_once, runs_drop_worst. }
    destruct (String.eqb_spec type "allIter") as [->|H3]; simpl.
    { apply runs_while. intros; apply runs_drop_all. }
    destruct (String.eqb type "allOnce").
    { apply runs_once, runs_drop_all. }
    apply (runs_weaken 0); [apply runs_ret|lia].
  - apply (runs_bind 0 0); [apply runs_on_files|intros _|lia].
    apply (runs_bind 0 0); [apply runs_on_files|intros _|lia].
    apply (runs_bind 0 0); [apply runs_on_files|intros _; apply runs_ret|lia].
  - apply (runs_bind 0 0); [apply runs_on_files|intros _|lia].
    apply (runs_bind 0 0); [apply runs_on_files|intros _; apply runs_ret|lia].
Qed.

Lemma runs_teffrange_block ext fuel line0 p c o r :
  r = match outlier o with Some type => rounds fuel type | None => 0%nat end ->
  runs_at_most (1 + r) (teffrange_block ext fuel line0 p c o).
Proof.
  intros Hr. unfold teffrange_block.
  apply (runs_bind 0 (1 + r)); [apply runs_from_files|intros d|lia].
  apply (runs_bind 0 (1 + r)); [apply runs_from_files|intros ll|lia].
  destruct (existsb id (in1d ll d)); [|apply (runs_weaken 0); [apply runs_ret|lia]].
  apply (runs_bind 0 (1 + r)); [apply runs_from_files|intros teff|lia].
  destruct (lt_float 7000 teff); [apply (runs_weaken 0); [apply runs_ret|lia]|].
  destruct (lt_float teff 5200); [|apply (runs_weaken 0); [apply runs_ret|lia]].
  apply (runs_bind 0 (1 + r)); [apply runs_remove_each|intros _|lia].
  apply (runs_bind 1 r); [apply runs_try, runs_run_minimize|intros x|lia].
  subst r.
  destruct x as [[p' c']|]; (destruct (outlier o);
    [apply (runs_bind (rounds fuel s) 0);
       [apply runs_outlierRunner|intros [? ?]; apply runs_ret|lia]
    |apply runs_ret]).
Qed.

Lemma runs_autofixvt_block ext p c o : runs_at_most 1 (autofixvt_block ext p c o).
Proof.
  unfold autofixvt_block.
  destruct (autofixvt o && negb c); [|apply (runs_weaken 0); [apply runs_ret|lia]].
  apply (runs_bind 0 1); [apply runs_with_files|intros RWs|lia].
  apply (runs_bind 0 1); [apply runs_from_files|intros vt|lia].
  match goal with |- runs_at_most _ (if ?b then _ else _) => destruct b end;
    [|apply (runs_weaken 0); [apply runs_ret|lia]].
  apply (runs_bind 1 0); [apply runs_run_minimize|intros [? ?]; apply runs_ret|lia].
Qed.

Lemma runs_refine_block ext p c o : runs_at_most 1 (refine_block ext p c o).
Proof.
  unfold refine_block.
  destruct (c && refine o); [|apply (runs_weaken 0); [apply runs_ret|lia]].
  apply (runs_bind 1 0); [apply runs_run_minimize|intros [p1 [|]]; apply runs_ret|lia].
Qed.

Lemma runs_job ext fuel as_main line0 initial o :
  runs_at_most (job_budget fuel o) (job ext fuel as_main line0 initial o).
Proof.
  unfold job, job_budget.
  set (r := match outlier o with Some type => rounds fuel type | None => 0%nat end).
  destruct (negb (existsb (String.eqb (model o)) known_models));
    [apply (runs_weaken 0); [apply runs_ret|lia]|].
  apply (runs_bind 0 (1 + r + (1 + r) + 1 + 1)); [apply runs_with_files|intros _|lia].
  apply (runs_bind 1 (r + (1 + r) + 1 + 1));
    [apply runs_try, runs_run_minimize|intros x|lia].
  destruct x as [[p c]|]; [|apply (runs_weaken 0); [apply runs_ret|lia]].
  apply (runs_bind r ((1 + r) + 1 + 1)); [|intros [l1 p1]|lia].
  { subst r. cbn [outlier set_GUI]. destruct (outlier o);
      [apply runs_outlierRunner|apply runs_ret]. }
  apply (runs_bind (1 + r) (1 + 1)); [|intros [[l2 p2] c2]|lia].
  { destruct (teffrange _);
      [now apply runs_teffrange_block|apply (runs_weaken 0); [apply runs_ret|lia]]. }
  apply (runs_bind 1 1); [apply runs_autofixvt_block|intros [[p3 c3] o3]|lia].
  apply (runs_bind 1 0); [apply runs_refine_block|intros [p4 o4]|lia].
  apply (runs_bind 0 0); [unfold _renaming; destruct c3; apply runs_on_files|intros _|lia].
  apply (runs_bind 0 0).
  { unfold final_parameters.
    apply (runs_bind 0 0); [apply runs_from_files|intros; apply runs_from_files|lia]. }
  { intros p5. apply (runs_bind 0 0); [|intros; apply runs_ret|lia].
    intros w. simpl. lia. }
  lia.
Qed.

(** X24: without the iterating outlier policies a job starts the solver
    at most six times (four when no outliers are removed): the first
    solve, one restart in each outlier pass, one for the cool-star lines,
    one with the microturbulence frozen and one refine pass.  With
    ["1Iter"] or ["allIter"] each outlier pass may take as many restarts
    as there are rounds. *)
Theorem job_starts_the_solver_a_bounded_number_of_times
    (ext : collaborators) (fuel : nat) (as_main : bool) (line0 : string)
    (initial : list Q) (o : options) (w : world) :
  let runs := (solver_runs (snd (job ext fuel as_main line0 initial o w))
               - solver_runs w)%nat in
  (solver_runs w <= solver_runs (snd (job ext fuel as_main line0 initial o w)))%nat /\
  (runs <= job_budget fuel o)%nat /\
  (outlier o = None -> runs <= 4)%nat /\
  (outlier o <> Some "1Iter"%string -> outlier o <> Some "allIter"%string ->
   runs <= 6)%nat.
Proof.
  intros runs. subst runs.
  pose proof (runs_job ext fuel as_main line0 initial o w) as H.
  split; [lia|]. split; [lia|]. split.
  - intros Hn. unfold job_budget in H. rewrite Hn in H. lia.
  - intros H1 H2. unfold job_budget, rounds in H.
    destruct (outlier o) as [t|]; [|lia].
    destruct (String.eqb_spec t "1Iter") as [E|_]; [now subst t|].
    destruct (String.eqb_spec t "allIter") as [E|_]; [now subst t|].
    simpl in H. lia.
Qed.

(** *** The cool-star lines *)

Lemma teffrange_warm ext fuel line0 parameters converged o teff w :
  item parameters 0 = Ok teff -> 5200 <= teff ->
  snd (teffrange_block ext fuel line0 parameters converged o w) = w /\
  forall v, fst (teffrange_block ext fuel line0 parameters converged o w) = Ok v ->
            v = (line0, parameters, converged).
Proof.
  intros Hi Ht. unfold teffrange_block, mbind, prog_bind, from_files.
  destruct (loadtxt _ _ _) as [d|e]; [|split; [reflexivity|discriminate]].
  destruct (loadtxt_col0 _ _ _) as [ll|e]; [|split; [reflexivity|discriminate]].
  destruct (existsb id (in1d ll d)); [|split; [reflexivity|now inversion 1]].
  rewrite Hi.
  destruct (lt_float 7000 teff); [split; [reflexivity|now inversion 1]|].
  assert (E : lt_float teff 5200 = false).
  { unfold lt_float. apply negb_false_iff. now apply Qle_bool_iff. }
  rewrite E. split; [reflexivity|now inversion 1].
Qed.

(** X25: the [teffrange] block leaves a star of 5200 K or more alone: no
    file is touched, the solver is not restarted, and the line list, the
    parameters and the convergence flag come back as they went in. *)
Theorem teffrange_block_leaves_warm_stars_alone
    (ext : collaborators) (fuel : nat) (line0 : string) (parameters : list Q)
    (converged : bool) (o : options) (teff : Q) (w : world) :
  item parameters 0 = Ok teff -> 5200 <= teff ->
  snd (teffrange_block ext fuel line0 parameters converged o w) = w /\
  forall v, fst (teffrange_block ext fuel line0 parameters converged o w) = Ok v ->
            v = (line0, parameters, converged).
Proof. apply teffrange_warm. Qed.

(** *** The options of a configuration line *)

Import ewDriver_config.

Lemma obind_Returns {A B} (m : outcome A) (f : A -> outcome B) b :
  (m ≫= f) = Returns b -> exists a, m = Returns a /\ f a = Returns b.
Proof. destruct m as [a|e|]; simpl; [eauto|discriminate|discriminate]. Qed.

Lemma lookup_key_Returns d k v : lookup_key d k = Returns v -> d !! k = Some v.
Proof. unfold lookup_key. destruct (d !! k); now inversion 1. Qed.

Lemma insert_keeps (d : pydict) i x k :
  is_Some (d !! k) -> is_Some (<[i := x]> d !! k).
Proof.
  intros H. destruct (decide (i = k)) as [->|Hne].
  - rewrite lookup_insert_eq. eauto.
  - now rewrite lookup_insert_ne.
Qed.

Lemma insert_lookup_cases (d : pydict) i x k v :
  <[i := x]> d !! k = Some v -> (i = k /\ v = x) \/ (i <> k /\ d !! k = Some v).
Proof.
  destruct (decide (i = k)) as [->|Hne].
  - rewrite lookup_insert_eq. inversion 1. now left.
  - rewrite lookup_insert_ne by exact Hne. now right.
Qed.

(** One item stores one key: text under the name before the colon, or
    the negation of what an existing key held. *)
Lemma set_option_inv d item d' :
  set_option d item = Returns d' ->
  exists k v, d' = <[k := v]> d /\ flag_or_text v /\
    (contains ":" item = true -> k = first_item (split item ":")) /\
    (contains ":" item = false -> k = fix_name item /\ is_Some (d !! k)).
Proof.
  unfold set_option. destruct (contains ":" item) eqn:E.
  - destruct (split item ":") as [|k [|v rest]]; try discriminate.
    inversion 1. exists k, (VStr v).
    split; [reflexivity|]. split; [exact I|]. split; [reflexivity|discriminate].
  - intros H. apply obind_Returns in H as (v & Hv & H). inversion H.
    apply lookup_key_Returns in Hv.
    exists (fix_name item), (VBool (negb (truthy v))).
    split; [reflexivity|]. split; [exact I|]. split; [discriminate|].
    intros _. split; [reflexivity|eauto].
Qed.

Lemma keys_set_cons item items k :
  In k (keys_set items) -> In k (keys_set (item :: items)).
Proof.
  unfold keys_set. simpl. destruct (contains ":" item); simpl; auto.
Qed.

Lemma set_options_inv items : forall d d',
  set_options items d = Returns d' ->
  (forall k, is_Some (d !! k) -> is_Some (d' !! k)) /\
  (forall k v, d' !! k = Some v -> d !! k = Some v \/ flag_or_text v) /\
  (forall item, In item items -> contains ":" item = false ->
     is_Some (d !! fix_name item) \/ In (fix_name item) (keys_set items)).
Proof.
  induction items as [|item items IH]; intros d d' H.
  - inversion H. subst. split; [auto|]. split; [auto|]. intros ? [].
  - simpl in H. apply obind_Returns in H as (d1 & H1 & H).
    apply set_option_inv in H1 as (k1 & v1 & -> & Hv1 & Hkv & Hflag).
    destruct (IH _ _ H) as (Ha & Hb & Hc). split; [|split].
    + intros k Hk. now apply Ha, insert_keeps.
    + intros k v Hk. destruct (Hb k v Hk) as [Hk'|Hk']; [|now right].
      apply insert_lookup_cases in Hk' as [[_ ->]|[_ Hk']]; [now right|now left].
    + intros it [<-|Hin] Hit.
      * left. destruct (Hflag Hit) as [<- Hs]. exact Hs.
      * destruct (Hc it Hin Hit) as [Hs|Hs]; [|right; now apply keys_set_cons].
        destruct (decide (k1 = fix_name it)) as [Ek|Hne].
        -- destruct (contains ":" item) eqn:E.
           ++ right. unfold keys_set. simpl. rewrite E. left.
              rewrite <- Ek. symmetry. now apply Hkv.
           ++ left. rewrite <- Ek. now apply Hflag.
        -- left. now rewrite lookup_insert_ne in Hs.
Qed.

Lemma to_int_inv k d d' :
  to_int k d = Returns d' -> exists z, d' = <[k := VInt z]> d.
Proof.
  unfold to_int. intros H. apply obind_Returns in H as (v & _ & H).
  apply obind_Returns in H as (z & _ & H). inversion H. eauto.
Qed.

Lemma to_float_inv k d d' :
  to_float k d = Returns d' -> exists q, d' = <[k := VFloat q]> d.
Proof.
  unfold to_float. intros H. apply obind_Returns in H as (v & _ & H).
  apply obind_Returns in H as (z & _ & H). inversion H. eauto.
Qed.

Lemma lower_char_idem c :
  interpolation_io.lower_char (interpolation_io.lower_char c) = interpolation_io.lower_char c.
Proof.
  unfold interpolation_io.lower_char.
  destruct ((65 <=? nat_of_ascii c)%nat && (nat_of_ascii c <=? 90)%nat) eqn:E.
  - apply andb_true_iff in E as [E1 E2].
    apply Nat.leb_le in E1. apply Nat.leb_le in E2.
    rewrite nat_ascii_embedding by lia.
    replace (65 <=? nat_of_ascii c + 32)%nat with true by (symmetry; apply Nat.leb_le; lia).
    replace (nat_of_ascii c + 32 <=? 90)%nat with false by (symmetry; apply Nat.leb_gt; lia).
    reflexivity.
  - now rewrite E.
Qed.

Lemma lower_idem s : interpolation_io.lower (interpolation_io.lower s) = interpolation_io.lower s.
Proof.
  unfold interpolation_io.lower, text, chars.
  rewrite list_ascii_of_string_of_list_ascii, map_map. f_equal.
  apply map_ext. intros c. apply lower_char_idem.
Qed.

Lemma policy_cases v :
  flag_or_text v -> py_in v outlier_policies = true -> In v outlier_policies.
Proof.
  destruct v as [[|]| | |s]; simpl; try contradiction; intros _ H.
  - discriminate.
  - now left.
  - unfold py_in, outlier_policies in H. simpl in H.
    destruct (String.eqb_spec s "1Iter") as [E|_]; [rewrite E; right; now left|].
    destruct (String.eqb_spec s "1Once") as [E|_]; [rewrite E; right; right; now left|].
    destruct (String.eqb_spec s "allIter") as [E|_]; [rewrite E; do 3 right; now left|].
    destruct (String.eqb_spec s "allOnce") as [E|_]; [rewrite E; do 4 right; now left|].
    discriminate.
Qed.

Ltac look :=
  repeat (rewrite lookup_insert_ne by discriminate); try rewrite lookup_insert_eq.

Lemma convert_inv d d' :
  (forall v, d !! "outlier" = Some v -> flag_or_text v) ->
  convert d = Returns d' ->
  (exists m, d' !! "model" = Some (VStr m) /\ interpolation_io.lower m = m) /\
  (exists z, d' !! "iterations" = Some (VInt z)) /\
  (exists q, d' !! "EPcrit" = Some (VFloat q)) /\
  (exists q, d' !! "RWcrit" = Some (VFloat q)) /\
  (exists q, d' !! "ABdiffcrit" = Some (VFloat q)) /\
  (exists z, d' !! "MOOGv" = Some (VInt z)) /\
  (exists v, d' !! "outlier" = Some v /\ In v outlier_policies) /\
  (forall k, is_Some (d !! k) -> is_Some (d' !! k)).
Proof.
  intros Hout H. unfold convert in H.
  apply obind_Returns in H as (vm & _ & H).
  apply obind_Returns in H as (m & Hm & H).
  destruct vm as [| | |s]; try discriminate. inversion Hm; subst m. clear Hm.
  apply obind_Returns in H as (d1 & H1 & H). apply to_int_inv in H1 as (it & ->).
  apply obind_Returns in H as (d2 & H2 & H). apply to_float_inv in H2 as (ep & ->).
  apply obind_Returns in H as (d3 & H3 & H). apply to_float_inv in H3 as (rw & ->).
  apply obind_Returns in H as (d4 & H4 & H). apply to_float_inv in H4 as (ab & ->).
  apply obind_Returns in H as (d5 & H5 & H). apply to_int_inv in H5 as (mv & ->).
  apply obind_Returns in H as (vo & Hvo & H).
  apply lookup_key_Returns in Hvo. revert Hvo. look. intros Hvo.
  specialize (Hout vo Hvo).
  set (d6 := <["MOOGv" := VInt mv]> _) in *.
  assert (Hkeep : forall k, is_Some (d !! k) -> is_Some (d6 !! k)).
  { intros k Hk. unfold d6. now do 6 apply insert_keeps. }
  assert (Hd6 : d6 !! "outlier" = Some vo) by (unfold d6; look; exact Hvo).
  assert (Hd' : (d' = <["outlier" := VBool false]> d6 /\ py_in vo outlier_policies = false)
                \/ (d' = d6 /\ py_in vo outlier_policies = true)).
  { destruct (py_in vo outlier_policies); simpl in H; inversion H; auto. }
  clear H.
  assert (Hsame : forall k, k <> "outlier"%string -> d' !! k = d6 !! k).
  { intros k Hk. destruct Hd' as [[-> _]|[-> _]]; [|reflexivity].
    now rewrite lookup_insert_ne by congruence. }
  repeat split.
  - exists (interpolation_io.lower s). rewrite Hsame by discriminate. unfold d6. look.
    split; [reflexivity|apply lower_idem].
  - exists it. rewrite Hsame by discriminate. unfold d6. now look.
  - exists ep. rewrite Hsame by discriminate. unfold d6. now look.
  - exists rw. rewrite Hsame by discriminate. unfold d6. now look.
  - exists ab. rewrite Hsame by discriminate. unfold d6. now look.
  - exists mv. rewrite Hsame by discriminate. unfold d6. now look.
  - destruct Hd' as [[-> _]|[-> Hin]].
    + exists (VBool false). rewrite lookup_insert_eq. split; [reflexivity|now left].
    + exists vo. split; [exact Hd6|now apply policy_cases].
  - intros k Hk. destruct Hd' as [[-> _]|[-> _]]; [apply insert_keeps|]; now apply Hkeep.
Qed.

Lemma _options_inv s d :
  s <> EmptyString -> _options (Some s) = Returns d ->
  exists d0, set_options (split s ",") defaults = Returns d0 /\ convert d0 = Returns d.
Proof.
  intros Hs H. unfold _options in H.
  destruct (String.eqb_spec s EmptyString) as [E|_]; [contradiction|].
  apply obind_Returns in H as (d0 & H0 & H). eauto.
Qed.

Lemma defaults_outlier : defaults !! "outlier" = Some (VBool false).
Proof. vm_compute. reflexivity. Qed.

(** X26: what [_options] returns for a non-empty option text is
    converted: the model is lower-case text, the iterations and the MOOG
    version are integers, the three criteria are floats, and [outlier] is
    [False] or one of the four policies.  No default key is lost. *)
Theorem _options_returns_converted_settings (s : string) (d : pydict) :
  s <> EmptyString -> _options (Some s) = Returns d ->
  (exists m, d !! "model" = Some (VStr m) /\ interpolation_io.lower m = m) /\
  (exists z, d !! "iterations" = Some (VInt z)) /\
  (exists q, d !! "EPcrit" = Some (VFloat q)) /\
  (exists q, d !! "RWcrit" = Some (VFloat q)) /\
  (exists q, d !! "ABdiffcrit" = Some (VFloat q)) /\
  (exists z, d !! "MOOGv" = Some (VInt z)) /\
  (exists v, d !! "outlier" = Some v /\ In v outlier_policies) /\
  (forall k, is_Some (defaults !! k) -> is_Some (d !! k)).
Proof.
  intros Hs H. apply _options_inv in H as (d0 & H0 & H); [|exact Hs].
  destruct (set_options_inv _ _ _ H0) as (Ha & Hb & _).
  assert (Hout : forall v, d0 !! "outlier" = Some v -> flag_or_text v).
  { intros v Hv. destruct (Hb _ _ Hv) as [Hd|Hd]; [|exact Hd].
    rewrite defaults_outlier in Hd. inversion Hd. exact I. }
  destruct (convert_inv _ _ Hout H) as (P1 & P2 & P3 & P4 & P5 & P6 & P7 & P8).
  repeat split; try assumption. intros k Hk. now apply P8, Ha.
Qed.

Lemma set_options_keys s d item :
  s <> EmptyString -> _options (Some s) = Returns d ->
  In item (split s ",") -> contains ":" item = false ->
  is_Some (defaults !! fix_name item) \/ In (fix_name item) (keys_set (split s ",")).
Proof.
  intros Hs H Hin Hc. apply _options_inv in H as (d0 & H0 & _); [|exact Hs].
  destruct (set_options_inv _ _ _ H0) as (_ & _ & Hflags). now apply Hflags.
Qed.

Lemma prefix_empty t : String.prefix EmptyString t = true.
Proof. now destruct t. Qed.

Lemma prefix_char c b s :
  String.prefix (String c EmptyString) (String b s) = if ascii_dec c b then true else false.
Proof. simpl. destruct (ascii_dec c b); [apply prefix_empty|reflexivity]. Qed.

Lemma contains_cons p b s :
  contains p (String b s) = String.prefix p (String b s) || contains p s.
Proof. reflexivity. Qed.

Lemma contains_char_false c s :
  contains (String c EmptyString) s = false -> ~ In c (chars s).
Proof.
  induction s as [|b s IH]; [intros _ []|].
  rewrite contains_cons, prefix_char. intros H.
  apply orb_false_iff in H as [H1 H2].
  destruct (ascii_dec c b) as [E|Hne]; [discriminate|].
  intros [E|Hin]; [congruence|]. now apply IH.
Qed.

Lemma contains_char_true c k v :
  contains (String c EmptyString) (k ++ String c v) = true.
Proof.
  induction k as [|b k IH].
  - change (EmptyString ++ String c v)%string with (String c v).
    rewrite contains_cons, prefix_char. now destruct (ascii_dec c c).
  - change (String b k ++ String c v)%string with (String b (k ++ String c v)).
    rewrite contains_cons, IH. apply orb_true_r.
Qed.

Lemma split_acc_no_sep sep l : forall cur,
  ~ In sep l -> split_acc sep cur l = [text (rev cur ++ l)].
Proof.
  induction l as [|c l IH]; intros cur H; simpl.
  - now rewrite app_nil_r.
  - destruct (Ascii.eqb_spec c sep) as [->|Hne]; [exfalso; apply H; now left|].
    rewrite IH by (intros Hin; apply H; now right).
    simpl. now rewrite <- app_assoc.
Qed.

Lemma split_acc_at sep a b : forall cur,
  ~ In sep a ->
  split_acc sep cur (a ++ sep :: b) = text (rev cur ++ a) :: split_acc sep [] b.
Proof.
  induction a as [|c a IH]; intros cur H; simpl.
  - rewrite Ascii.eqb_refl. now rewrite app_nil_r.
  - destruct (Ascii.eqb_spec c sep) as [->|Hne]; [exfalso; apply H; now left|].
    rewrite IH by (intros Hin; apply H; now right).
    simpl. now rewrite <- app_assoc.
Qed.

Lemma chars_app a b : chars (a ++ b) = chars a ++ chars b.
Proof. induction a as [|c a IH]; simpl; [reflexivity|now rewrite IH]. Qed.

Lemma text_chars s : text (chars s) = s.
Proof. apply string_of_list_ascii_of_string. Qed.

Lemma split_whole s sep :
  contains (String sep EmptyString) s = false -> split s sep = [s].
Proof.
  intros H. unfold split. rewrite split_acc_no_sep by now apply contains_char_false.
  simpl. now rewrite text_chars.
Qed.

Lemma split_pair k v sep :
  contains (String sep EmptyString) k = false ->
  contains (String sep EmptyString) v = false ->
  split (k ++ String sep v) sep = [k; v].
Proof.
  intros Hk Hv. unfold split. rewrite chars_app. simpl.
  rewrite split_acc_at by now apply contains_char_false.
  rewrite split_acc_no_sep by now apply contains_char_false.
  simpl. now rewrite !text_chars.
Qed.

(** X27: a flag must name an option.  When [_options] returns, every
    item without a colon names, after [teff], [logg], [feh] and [vt] have
    become [fix_teff] and so on, a default key or a key that a
    [key:value] item of the same text sets; and a text that is one
    unknown flag raises [KeyError]. *)
Theorem _options_takes_only_known_flags :
  (forall (s : string) (d : pydict) (item : string),
     s <> EmptyString -> _options (Some s) = Returns d ->
     In item (split s ",") -> contains ":" item = false ->
     is_Some (defaults !! fix_name item) \/
     In (fix_name item) (keys_set (split s ","))) /\
  (forall flag : string,
     flag <> EmptyString ->
     contains "," flag = false -> contains ":" flag = false ->
     defaults !! fix_name flag = None ->
     _options (Some flag) = Raises KeyError).
Proof.
  split.
  - intros s d item. apply set_options_keys.
  - intros flag Hne Hcomma Hcolon Hnone. unfold _options.
    destruct (String.eqb_spec flag EmptyString) as [E|_]; [contradiction|].
    rewrite (split_whole _ _ Hcomma). simpl. unfold set_option.
    rewrite Hcolon. unfold lookup_key. now rewrite Hnone.
Qed.

Lemma obind_ret {A B} (a : A) (f : A -> outcome B) : (Returns a ≫= f) = f a.
Proof. reflexivity. Qed.

Lemma lookup_key_Some (d : pydict) k v : d !! k = Some v -> lookup_key d k = Returns v.
Proof. intros H. unfold lookup_key. now rewrite H. Qed.

Lemma to_int_id k (d : pydict) z : d !! k = Some (VInt z) -> to_int k d = Returns d.
Proof.
  intros H. unfold to_int, lookup_key. rewrite H. simpl. now rewrite insert_id.
Qed.

Lemma to_float_id k (d : pydict) q : d !! k = Some (VFloat q) -> to_float k d = Returns d.
Proof.
  intros H. unfold to_float, lookup_key. rewrite H. simpl. now rewrite insert_id.
Qed.

Lemma convert_untouched (d : pydict) :
  d !! "model" = defaults !! "model" ->
  d !! "iterations" = defaults !! "iterations" ->
  d !! "EPcrit" = defaults !! "EPcrit" ->
  d !! "RWcrit" = defaults !! "RWcrit" ->
  d !! "ABdiffcrit" = defaults !! "ABdiffcrit" ->
  d !! "MOOGv" = defaults !! "MOOGv" ->
  d !! "outlier" = defaults !! "outlier" ->
  convert d = Returns d.
Proof.
  intros H1 H2 H3 H4 H5 H6 H7.
  assert (E1 : d !! "model" = Some (VStr "kurucz95")) by (rewrite H1; vm_compute; reflexivity).
  assert (E2 : d !! "iterations" = Some (VInt 160)) by (rewrite H2; vm_compute; reflexivity).
  assert (E3 : d !! "EPcrit" = Some (VFloat 0.001)) by (rewrite H3; vm_compute; reflexivity).
  assert (E4 : d !! "RWcrit" = Some (VFloat 0.003)) by (rewrite H4; vm_compute; reflexivity).
  assert (E5 : d !! "ABdiffcrit" = Some (VFloat 0.01)) by (rewrite H5; vm_compute; reflexivity).
  assert (E6 : d !! "MOOGv" = Some (VInt 2014)) by (rewrite H6; vm_compute; reflexivity).
  assert (E7 : d !! "outlier" = Some (VBool false)) by (rewrite H7; vm_compute; reflexivity).
  assert (L : interpolation_io.lower "kurucz95" = "kurucz95"%string) by (vm_compute; reflexivity).
  unfold convert.
  rewrite (lookup_key_Some _ _ _ E1), obind_ret.
  unfold lower_of. rewrite obind_ret, L, (insert_id d "model" _ E1).
  rewrite (to_int_id _ _ _ E2), obind_ret.
  rewrite (to_float_id _ _ _ E3), obind_ret.
  rewrite (to_float_id _ _ _ E4), obind_ret.
  rewrite (to_float_id _ _ _ E5), obind_ret.
  rewrite (to_int_id _ _ _ E6), obind_ret.
  rewrite (lookup_key_Some _ _ _ E7), obind_ret. reflexivity.
Qed.

Lemma not_converted k name :
  ~ In k converted_keys -> In name converted_keys -> k <> name.
Proof. intros H Hin E. apply H. now rewrite E. Qed.

Lemma option_text k v :
  contains "," (k ++ ":" ++ v) = false ->
  contains ":" k = false -> contains ":" v = false ->
  ~ In k converted_keys ->
  _options (Some (k ++ ":" ++ v)%string) = Returns (<[k := VStr v]> defaults).
Proof.
  intros Hcomma Hk Hv Hconv. unfold _options.
  destruct (String.eqb_spec (k ++ ":" ++ v) EmptyString) as [E|_].
  { exfalso. destruct k; discriminate. }
  rewrite (split_whole _ _ Hcomma). cbn [set_options]. unfold set_option.
  change (":" ++ v)%string with (String ":" v).
  rewrite contains_char_true. rewrite (split_pair _ _ _ Hk Hv).
  rewrite obind_ret. simpl set_options. rewrite obind_ret.
  apply convert_untouched;
    apply lookup_insert_ne, (not_converted _ _ Hconv); simpl; tauto.
Qed.

(** X28: a [key:value] item is stored as the text of the value, and only
    seven keys are converted afterwards.  So for any other key the text
    stays: [refine:False] leaves [refine] holding the text [False], which
    Python takes for true like any text that is not empty, and
    [sigma:2] leaves a text where the default is a number.  A key that is
    no option at all is stored just the same. *)
Theorem _options_keeps_the_value_of_other_keys_as_text (k v : string) :
  contains "," (k ++ ":" ++ v) = false ->
  contains ":" k = false -> contains ":" v = false ->
  ~ In k converted_keys ->
  exists d, _options (Some (k ++ ":" ++ v)%string) = Returns d /\
    d !! k = Some (VStr v) /\
    (v <> EmptyString -> truthy (VStr v) = true) /\
    (forall k', k' <> k -> d !! k' = defaults !! k').
Proof.
  intros Hcomma Hk Hv Hconv. exists (<[k := VStr v]> defaults).
  split; [now apply option_text|]. split; [apply lookup_insert_eq|]. split.
  - intros Hne. simpl. now destruct (String.eqb_spec v EmptyString).
  - intros k' Hk'. now apply lookup_insert_ne.
Qed.

(** *** The empirical microturbulence *)

Lemma scale_pos n : 0 < inject_Z (10 ^ Z.of_nat n).
Proof.
  change 0 with (inject_Z 0). rewrite <- Zlt_Qlt. apply Z.pow_pos_nonneg; lia.
Qed.

Lemma py_round_monotone x y n : x <= y -> py_round x n <= py_round y n.
Proof.
  intros Hxy. unfold py_round.
  set (s := inject_Z (10 ^ Z.of_nat n)).
  assert (Hs : 0 < s) by apply scale_pos.
  assert (Hdiv : forall a b, a <= b -> a / s <= b / s).
  { intros a b Hab. unfold Qdiv. apply Qmult_le_compat_r; [exact Hab|].
    apply Qlt_le_weak, Qinv_lt_0_compat, Hs. }
  assert (Hfl : forall a b : Q, a <= b ->
            inject_Z (Qfloor (a * s + (1 # 2))) <= inject_Z (Qfloor (b * s + (1 # 2)))).
  { intros a b Hab. rewrite <- Zle_Qle. apply Qfloor_resp_le.
    assert (a * s <= b * s) by (apply Qmult_le_compat_r; [exact Hab|lra]). lra. }
  assert (Hnn : forall a : Q, 0 <= a -> 0 <= inject_Z (Qfloor (a * s + (1 # 2)))).
  { intros a Ha. change 0 with (inject_Z 0). rewrite <- Zle_Qle.
    change 0%Z with (Qfloor 0). apply Qfloor_resp_le.
    assert (0 <= a * s) by (apply Qmult_le_0_compat; lra). lra. }
  apply Hdiv.
  destruct (Qle_bool 0 x) eqn:Ex; destruct (Qle_bool 0 y) eqn:Ey.
  - apply Qle_bool_iff in Ex. apply Qle_bool_iff in Ey.
    rewrite !Qabs_pos by assumption. now apply Hfl.
  - apply Qle_bool_iff in Ex.
    assert (~ 0 <= y) by (intros Hc; apply Qle_bool_iff in Hc; congruence). lra.
  - pose proof (Hnn (Qabs x) (Qabs_nonneg x)).
    pose proof (Hnn (Qabs y) (Qabs_nonneg y)). lra.
  - assert (~ 0 <= x) by (intros Hc; apply Qle_bool_iff in Hc; congruence).
    assert (~ 0 <= y) by (intros Hc; apply Qle_bool_iff in Hc; congruence).
    rewrite !Qabs_neg by lra.
    assert (inject_Z (Qfloor (- y * s + (1 # 2))) <= inject_Z (Qfloor (- x * s + (1 # 2))))
      by (apply Hfl; lra).
    lra.
Qed.

Lemma getMic_dwarf teff logg feh :
  3.95 <= logg ->
  _getMic teff logg feh = py_round (6.932 * teff * (1 # 10000) - 0.348 * logg - 1.437) 2.
Proof.
  intros H. unfold _getMic. apply Qle_bool_iff in H. now rewrite H.
Qed.

Lemma getMic_giant teff logg feh :
  logg < 3.95 ->
  _getMic teff logg feh = py_round (2.72 - 0.457 * logg + 0.072 * feh) 2.
Proof.
  intros H. unfold _getMic. destruct (Qle_bool 3.95 logg) eqn:E; [|reflexivity].
  apply Qle_bool_iff in E. lra.
Qed.

(** X29: the rounding in [_getMic] keeps the order of the relations.
    Among dwarfs (gravity 3.95 or more) a hotter star or one of lower
    gravity never gets a lower microturbulence, whatever the
    metallicities; among giants the same holds for a higher metallicity
    or a lower gravity, whatever the temperatures. *)
Theorem _getMic_keeps_the_order_of_the_relations
    (teff teff' logg logg' feh feh' : Q) :
  (3.95 <= logg' -> logg' <= logg -> teff <= teff' ->
   _getMic teff logg feh <= _getMic teff' logg' feh') /\
  (logg < 3.95 -> logg' <= logg -> feh <= feh' ->
   _getMic teff logg feh <= _getMic teff' logg' feh').
Proof.
  split.
  - intros H1 H2 H3. rewrite !getMic_dwarf by lra. apply py_round_monotone. lra.
  - intros H1 H2 H3. rewrite !getMic_giant by lra. apply py_round_monotone. lra.
Qed.

Import interpolation_io ewDriver_config runmoog_fortran.

Lemma _loadtxt_keeps_the_rows_before_the_first_bad_line_witness :
  wf_array sample_table /\
  (exists line0, sample_lines !! 0%nat = Some line0 /\
                 shape1 sample_table = List.length (words line0)) /\
  (shape0 sample_table <= List.length sample_lines)%nat /\
  (forall i r, rows sample_table !! i = Some r ->
     exists line, sample_lines !! i = Some line /\
                  parse_row (shape1 sample_table) line = Ok r) /\
  ((shape0 sample_table < List.length sample_lines)%nat ->
     exists line, sample_lines !! shape0 sample_table = Some line /\
                  parse_row (shape1 sample_table) line = Raise ValueError).
Proof.
  apply (_loadtxt_keeps_the_rows_before_the_first_bad_line sample_lines sample_table).
  vm_compute. reflexivity.
Defined.

Lemma tauross_scale_is_running_trapezes_behind_the_first_product_witness :
  let y := map (fun p => fst p * snd p) (combine [1; 2; 3] [2; 3; 4]) in
  exists tau,
    tauross_scale [2; 3; 4] [1; 2; 3] = Ok tau /\
    List.length tau = List.length [1; 2; 3] /\
    tau !! 0%nat = y !! 0%nat /\
    (forall y0 y1, y !! 0%nat = Some y0 -> y !! 1%nat = Some y1 ->
       tau !! 1%nat = Some (0 + 1 * (y1 + y0) / 2)) /\
    (forall i t t' a b,
       tau !! S i = Some t -> tau !! S (S i) = Some t' ->
       y !! S i = Some a -> y !! S (S i) = Some b ->
       t' - t == (b + a) / 2) /\
    (forall i t t' a b,
       tau !! S i = Some t -> tau !! S (S i) = Some t' ->
       y !! S i = Some a -> y !! S (S i) = Some b ->
       0 <= a -> 0 <= b -> t <= t') /\
    (forall y0 y1 t0 t1, y !! 0%nat = Some y0 -> y !! 1%nat = Some y1 ->
       tau !! 0%nat = Some t0 -> tau !! 1%nat = Some t1 -> y1 < y0 -> t1 < t0).
Proof.
  apply (tauross_scale_is_running_trapezes_behind_the_first_product [2; 3; 4] [1; 2; 3]).
  - reflexivity.
  - discriminate.
Defined.

Lemma read_model_returns_a_layer_and_five_columns_witness :
  wf_array atm_table /\ (1 <= shape0 atm_table)%nat /\ (5 <= shape1 atm_table)%nat /\
  List.length atm_tau = shape0 atm_table /\
  exists data, atm_fs !! "c0"%string = Some data /\ (25 <= List.length data)%nat.
Proof.
  apply (read_model_returns_a_layer_and_five_columns "c0" atm_fs atm_table atm_tau).
  vm_compute. reflexivity.
Defined.

Lemma interpolated_model_has_a_layer_and_five_columns_witness :
  wf_array atm_table /\ (1 <= shape0 atm_table)%nat /\ (5 <= shape1 atm_table)%nat.
Proof.
  apply (interpolated_model_has_a_layer_and_five_columns atm_fs cube_names
           (5300, (5250, 5500)) (4.2, (4.0, 4.5)) (-0.2, (-0.5, 0.0))
           (5300, (5000, 5250, 5500, 5750)) atm_table).
  left. vm_compute. reflexivity.
Defined.

Lemma interpolator_beyond_the_bracket_is_zero_witness :
  getitem cube_zero_deck 0 0 = Ok 0.
Proof.
  apply (interpolator_beyond_the_bracket_is_zero cube_reader cube_names
           6000 5250 5500 4.2 4.0 4.5 (-0.2) (-0.5) 0.0 cube_zero_deck).
  - vm_compute. reflexivity.
  - left. split; [reflexivity|right; reflexivity].
  - simpl. lia.
  - simpl. lia.
Defined.

Lemma interpolator_stays_between_the_grid_values_witness :
  exists v, getitem cube_inner_deck 0 0 = Ok v /\ 0 <= v /\ v <= 7.
Proof.
  apply (interpolator_stays_between_the_grid_values cube_reader cube_names cube_models
           5300 5250 5500 4.2 4.0 4.5 (-0.2) (-0.5) 0.0 cube_inner_deck 0 0 0 7).
  - vm_compute. reflexivity.
  - vm_compute. reflexivity.
  - split; [reflexivity|split; discriminate].
  - split; [reflexivity|split; discriminate].
  - split; [reflexivity|split; discriminate].
  - simpl. lia.
  - simpl. lia.
  - intros cntr m v Hc Hm Hv.
    do 8 (destruct cntr as [|cntr];
          [vm_compute in Hm; inversion Hm; subst m; vm_compute in Hv; inversion Hv;
           split; discriminate|]).
    lia.
Defined.

Lemma interpolator_is_exact_on_linear_tables_witness :
  exists v, getitem cube_inner_deck 0 0 = Ok v /\
            v == -99 + (2 # 125) * 5300 + 4 * 4.2 + 2 * (-0.2).
Proof.
  apply (interpolator_is_exact_on_linear_tables cube_reader cube_names cube_models
           5300 5250 5500 4.2 4.0 4.5 (-0.2) (-0.5) 0.0 cube_inner_deck 0 0
           (-99) (2 # 125) 4 2).
  - vm_compute. reflexivity.
  - vm_compute. reflexivity.
  - split; [reflexivity|split; discriminate].
  - split; [reflexivity|split; discriminate].
  - split; [reflexivity|split; discriminate].
  - simpl. lia.
  - simpl. lia.
  - intros i j k m v Hi Hj Hk Hm Hv.
    destruct i as [|[|i]]; [| |lia];
      (destruct j as [|[|j]]; [| |lia]);
      (destruct k as [|[|k]]; [| |lia]);
      vm_compute in Hm; inversion Hm; subst m; vm_compute in Hv; inversion Hv;
      reflexivity.
Defined.

Lemma interpolator_with_fewer_than_eight_models_raises_witness :
  interpolator cube_reader ["c0"; "c1"]%string
    (5300, (5250, 5500)) (4.2, (4.0, 4.5)) (-0.2, (-0.5, 0.0))
  = Raise IndexError.
Proof.
  apply (interpolator_with_fewer_than_eight_models_raises cube_reader ["c0"; "c1"]%string
           (firstn 2 cube_models) 5300 5250 5500 4.2 4.0 4.5 (-0.2) (-0.5) 0.0).
  - vm_compute. reflexivity.
  - discriminate.
  - discriminate.
  - discriminate.
  - simpl. lia.
  - repeat constructor.
Defined.

Lemma _interpol_of_two_models_is_the_line_through_them_witness :
  exists name arr,
    _interpol (<["5250g40.m05.gz"%string := cell 3]> {[ "5000g40.m05.gz"%string := cell 1 ]})
      5100 "teff" 1 1 = Ok {[ name := arr ]} /\
    shape0 arr = 1%nat /\ shape1 arr = 1%nat /\
    forall l c, (l < 1)%nat -> (c < 1)%nat ->
      cell_value arr l c ==
      cell_value (cell 1) l c
      + (5100 - 5000) * ((cell_value (cell 3) l c - cell_value (cell 1) l c) / (5250 - 5000)).
Proof.
  apply (_interpol_of_two_models_is_the_line_through_them
           "5000g40.m05.gz" "5250g40.m05.gz" (cell 1) (cell 3) "teff" 5000 5250 5100 1 1).
  - discriminate.
  - vm_compute. reflexivity.
  - vm_compute. reflexivity.
  - discriminate.
  - split; [split; [reflexivity|repeat constructor]|simpl; lia].
  - split; [split; [reflexivity|repeat constructor]|simpl; lia].
  - lia.
  - lia.
Defined.

Lemma _interpol_of_four_models_is_exact_on_parabolas_witness :
  exists name arr,
    _interpol (list_to_map [("5000g40.m05.gz"%string, cell 7); ("5250g40.m05.gz"%string, cell 7);
                            ("5500g40.m05.gz"%string, cell 7); ("5750g40.m05.gz"%string, cell 7)])
      5100 "teff" 1 1 = Ok {[ name := arr ]} /\
    shape0 arr = 1%nat /\ shape1 arr = 1%nat /\
    forall l col, (l < 1)%nat -> (col < 1)%nat ->
      cell_value (cell 7) l col == 7 + 0 * 5000 + 0 * (5000 * 5000) ->
      cell_value (cell 7) l col == 7 + 0 * 5250 + 0 * (5250 * 5250) ->
      cell_value (cell 7) l col == 7 + 0 * 5500 + 0 * (5500 * 5500) ->
      cell_value (cell 7) l col == 7 + 0 * 5750 + 0 * (5750 * 5750) ->
      cell_value arr l col == 7 + 0 * 5100 + 0 * (5100 * 5100).
Proof.
  apply (_interpol_of_four_models_is_exact_on_parabolas
           "5000g40.m05.gz" "5250g40.m05.gz" "5500g40.m05.gz" "5750g40.m05.gz"
           (cell 7) (cell 7) (cell 7) (cell 7) "teff" 5000 5250 5500 5750 5100 1 1 7 0 0).
  - apply (bool_decide_unpack _). vm_compute. exact I.
  - vm_compute. reflexivity.
  - vm_compute. reflexivity.
  - vm_compute. reflexivity.
  - vm_compute. reflexivity.
  - discriminate.
  - discriminate.
  - discriminate.
  - split; [split; [reflexivity|repeat constructor]|simpl; lia].
  - split; [split; [reflexivity|repeat constructor]|simpl; lia].
  - split; [split; [reflexivity|repeat constructor]|simpl; lia].
  - split; [split; [reflexivity|repeat constructor]|simpl; lia].
  - lia.
  - lia.
Defined.

Lemma sort_models_files_each_model_under_its_first_match_witness :
  let k := "5000g40.m05.gz"%string in
  let v := by_name "kurucz95/m05/5000g40.m05.gz" in
  (sorted_grid.1.1.1 !! k = Some v <->
     loaded by_name grid_names ∅ !! k = Some v /\ group_of 4.0 4.5 (-0.5) 0.0 k = 1%nat) /\
  (sorted_grid.1.1.2 !! k = Some v <->
     loaded by_name grid_names ∅ !! k = Some v /\ group_of 4.0 4.5 (-0.5) 0.0 k = 2%nat) /\
  (sorted_grid.1.2 !! k = Some v <->
     loaded by_name grid_names ∅ !! k = Some v /\ group_of 4.0 4.5 (-0.5) 0.0 k = 3%nat) /\
  (sorted_grid.2 !! k = Some v <->
     loaded by_name grid_names ∅ !! k = Some v /\ group_of 4.0 4.5 (-0.5) 0.0 k = 4%nat).
Proof.
  apply (sort_models_files_each_model_under_its_first_match
           (loaded by_name grid_names ∅) 4.0 4.5 (-0.5) 0.0
           sorted_grid.1.1.1 sorted_grid.1.1.2 sorted_grid.1.2 sorted_grid.2).
  unfold sorted_grid.
  destruct (sort_models (loaded by_name grid_names ∅) 4.0 4.5 (-0.5) 0.0) as [[[M1 M2] M3] M4].
  reflexivity.
Defined.

Lemma interpolatorN7_without_a_file_of_the_first_grid_point_raises_witness :
  interpolatorN7 (fun n => Ok (by_name n)) ["a"; "b"]%string
    (5300, grid_teff) (4.2, (4.0, 4.5)) (-0.2, (-0.5, 0.0))
  = Raise TypeError.
Proof.
  apply (interpolatorN7_without_a_file_of_the_first_grid_point_raises
           (fun n => Ok (by_name n)) ["a"; "b"]%string 5300 grid_teff 4.2 4.0 4.5
           (-0.2) (-0.5) 0.0 (loaded by_name ["a"; "b"]%string ∅) 1 1).
  - apply load_models_all. intros n _. reflexivity.
  - vm_compute. reflexivity.
  - vm_compute. reflexivity.
  - intros k [v Hk]. unfold loaded in Hk. cbn [fold_left] in Hk.
    change (rpartition_tail "a" "/") with "a"%string in Hk.
    change (rpartition_tail "b" "/") with "b"%string in Hk.
    apply lookup_insert_Some in Hk as [[<- _]|[_ Hk]]; [vm_compute; reflexivity|].
    apply lookup_insert_Some in Hk as [[<- _]|[_ Hk]]; [vm_compute; reflexivity|].
    rewrite lookup_empty in Hk. discriminate.
Defined.

Lemma fun_moog_vanishes_where_the_difference_offsets_the_slopes_witness :
  exists v,
    fun_moog cube_bracket cube_reader (fun _ _ w => Ok w) writes_full_report
      (530, 4.2, -0.2, 1) "batch.par" "summary.out" false ∅ = Ok (Some v) /\
    0 <= v /\
    (v == 0 <->
       7.47 - 7.45 == 3.5 * 0.0012 * (3.5 * 0.0012) + 1.3 * (-0.0031) * (1.3 * (-0.0031))).
Proof.
  apply (fun_moog_vanishes_where_the_difference_offsets_the_slopes
           cube_bracket cube_reader (fun _ _ w => Ok w) writes_full_report
           (530, 4.2, -0.2, 1) "batch.par" "summary.out" false ∅
           0.0012 (-0.0031) 7.47 7.45 [] []).
  vm_compute. reflexivity.
Defined.

Lemma fun_moog_fortran_is_a_sum_of_squares_witness :
  exists v,
    fun_moog_fortran (fun _ w => w) writes_full_report (53, 4.2, -0.2, 1)
      "batch.par" "summary.out" false ∅ = Ok (Some v) /\
    fun_moog_fortran (fun _ w => w) writes_full_report (53, 4.2, -0.2, 1)
      "batch.par" "summary.out" (negb false) ∅ = Ok (Some v) /\
    0 <= v /\
    (v == 0 <-> 0.0012 == 0 /\ -0.0031 == 0 /\ 7.47 == 7.45).
Proof.
  apply (fun_moog_fortran_is_a_sum_of_squares (fun _ w => w) writes_full_report
           53 4.2 (-0.2) 1 "batch.par" "summary.out" false ∅
           0.0012 (-0.0031) 7.47 7.45 [] []).
  vm_compute. reflexivity.
Defined.

Lemma _read_moog_reads_only_its_three_kinds_of_lines_witness :
  _read_moog "summary.out" (writes_full_report ∅)
    = _read_moog "summary.out"
        (<["summary.out" := List.filter read_by_read_moog full_report]>
           (writes_full_report ∅)) /\
  forall EPs RWs abundances,
    _read_moog "summary.out" (writes_full_report ∅) = Ok (EPs, RWs, abundances) ->
    List.length EPs
      = List.length (List.filter (fun l => startswith l "E.P") full_report) /\
    List.length RWs
      = List.length (List.filter (fun l => startswith l "R.W") full_report) /\
    List.length abundances
      = List.length (List.filter (fun l => startswith l "average abundance") full_report).
Proof.
  apply (_read_moog_reads_only_its_three_kinds_of_lines "summary.out"
           (writes_full_report ∅) full_report).
  apply lookup_insert_eq.
Defined.

Lemma removeOutlier_keeps_comment_lines_witness :
  exists lines',
    <["linelist/star.moog" :=
        List.filter (fun line =>
          negb (startswith (replace line " " EmptyString)
                  (str_float (py_round 5000.10 2)))) scripted.star_moog]>
      (files (scripted.start scripted.star_moog)) !! "linelist/star.moog"
    = Some lines' /\ In scripted.header lines'.
Proof.
  apply (removeOutlier_keeps_comment_lines "linelist/star.moog" 5000.10
           (files (scripted.start scripted.star_moog)) _ scripted.star_moog scripted.header).
  - apply removeOutlier_on. apply lookup_insert_eq.
  - apply lookup_insert_eq.
  - left. reflexivity.
  - vm_compute. reflexivity.
Defined.

Lemma outlierRunner_writes_only_its_copy_and_the_derivative_witness :
  files (snd once_run) !! "summary.out" = files (scripted.start scripted.star_moog) !! "summary.out".
Proof.
  apply (outlierRunner_writes_only_its_copy_and_the_derivative scripted.engine 1
           "1Once" "star.moog" cool ewDriver.defaults "summary.out"
           (scripted.start scripted.star_moog)).
  - split; [intros p o w; reflexivity|].
    intros l w. apply lookup_insert_ne. discriminate.
  - discriminate.
  - vm_compute. discriminate.
Defined.

Lemma outlierRunner_leaves_a_subsequence_of_the_line_list_witness :
  ("star_outlier.moog"%string = "star.moog"%string \/
   "star_outlier.moog"%string = replace "star.moog" ".moog" "_outlier.moog") /\
  (exists l, files (snd once_run) !! ("linelist/" ++ "star_outlier.moog")%string = Some l /\
             sublist l scripted.star_moog) /\
  files (snd once_run) !! tmpll = None.
Proof.
  apply (outlierRunner_leaves_a_subsequence_of_the_line_list scripted.engine 1
           "1Once" "star.moog" cool ewDriver.defaults (scripted.start scripted.star_moog)
           scripted.star_moog "star_outlier.moog" cool (snd once_run)).
  - intros n. split; [intros p o w; reflexivity|].
    intros l w. apply lookup_insert_ne. simpl. discriminate.
  - discriminate.
  - vm_compute. discriminate.
  - apply lookup_insert_eq.
  - assert (E : fst once_run = Ok ("star_outlier.moog"%string, cool))
      by (vm_compute; reflexivity).
    rewrite <- E. apply surjective_pairing.
Defined.

Lemma teffrange_block_leaves_warm_stars_alone_witness :
  snd (teffrange_block scripted.engine 1 "star.moog" solar true ewDriver.defaults
         (scripted.start scripted.star_moog))
  = scripted.start scripted.star_moog /\
  forall v,
    fst (teffrange_block scripted.engine 1 "star.moog" solar true ewDriver.defaults
           (scripted.start scripted.star_moog)) = Ok v ->
    v = ("star.moog"%string, solar, true).
Proof.
  apply (teffrange_block_leaves_warm_stars_alone scripted.engine 1 "star.moog" solar
           true ewDriver.defaults 5777 (scripted.start scripted.star_moog)).
  - reflexivity.
  - discriminate.
Defined.

Lemma _options_returns_converted_settings_witness :
  let d := <["refine"%string := VStr "False"]> ewDriver_config.defaults in
  (exists m, d !! "model" = Some (VStr m) /\ lower m = m) /\
  (exists z, d !! "iterations" = Some (VInt z)) /\
  (exists q, d !! "EPcrit" = Some (VFloat q)) /\
  (exists q, d !! "RWcrit" = Some (VFloat q)) /\
  (exists q, d !! "ABdiffcrit" = Some (VFloat q)) /\
  (exists z, d !! "MOOGv" = Some (VInt z)) /\
  (exists v, d !! "outlier" = Some v /\ In v outlier_policies) /\
  (forall k, is_Some (ewDriver_config.defaults !! k) -> is_Some (d !! k)).
Proof.
  apply (_options_returns_converted_settings "refine:False"
           (<["refine"%string := VStr "False"]> ewDriver_config.defaults)).
  - discriminate.
  - apply (option_text "refine" "False"); try reflexivity.
    simpl. intuition discriminate.
Defined.

Lemma _options_keeps_the_value_of_other_keys_as_text_witness :
  exists d, _options (Some ("refine" ++ ":" ++ "False")%string) = Returns d /\
    d !! "refine" = Some (VStr "False") /\
    ("False"%string <> EmptyString -> truthy (VStr "False") = true) /\
    (forall k', k' <> "refine"%string -> d !! k' = ewDriver_config.defaults !! k').
Proof.
  apply (_options_keeps_the_value_of_other_keys_as_text "refine" "False");
    try reflexivity.
  simpl. intuition discriminate.
Defined.
